(** * Answer grading of the math-reasoning domain

    A shallow embedding of
    [src/domains/math_reasoning/response_normalization.py] and
    [src/domains/math_reasoning/evaluation.py], with the string code of
    [src/domains/math_reasoning/run_experiment.py] that feeds them, and the
    properties of the grading pipeline stated over it.

    Embedding conventions.
    - A Python [str] is a [list ascii]; a character is a code point in
      [0, 255].  On that range the decimal digits ([\d], [float], [int]) are
      exactly [0-9], and [str.strip], [str.isalpha] and [str.lower] are the
      tables given below.  [int] and [str] convert numerals of any length.
    - [None] is [option]'s [None].
    - A Python function that may raise returns [exc A]: [Ret a] for a normal
      return, [Raise] for an exception leaving the function.  [try: ... except:]
      is [try_except].
    - The two third-party libraries (pylatexenc, sympy) are fields of an
      [Engine] record the graders are parameterised by. *)

From Stdlib Require Import Ascii String List Bool Arith ZArith QArith Lia.
From Stdlib Require Import Qround Qabs.
Import ListNotations.

Local Close Scope Q_scope.
Local Open Scope nat_scope.
Local Open Scope list_scope.
Local Open Scope bool_scope.

(** ** Exceptions *)

Inductive exc (A : Type) : Type :=
| Ret (a : A)
| Raise.

Arguments Ret {A} a.
Arguments Raise {A}.

Definition bind {A B : Type} (m : exc A) (f : A -> exc B) : exc B :=
  match m with
  | Ret a => f a
  | Raise => Raise
  end.

Notation "x <- m ;; k" := (bind m (fun x => k))
  (at level 61, m at next level, right associativity).

(** [try: body except: handler] *)
Definition try_except {A : Type} (body : exc A) (handler : A) : A :=
  match body with
  | Ret a => a
  | Raise => handler
  end.

(** [assert b] *)
Definition assert (b : bool) : exc unit :=
  if b then Ret tt else Raise.

(** ** Python strings *)

Definition pystr : Type := list ascii.

(** String literals. *)
Definition L (s : string) : pystr := list_ascii_of_string s.

Arguments L : simpl never.

Definition code (c : ascii) : nat := nat_of_ascii c.

Definition chr_eqb (a b : ascii) : bool := Ascii.eqb a b.

Fixpoint str_eqb (a b : pystr) : bool :=
  match a, b with
  | [], [] => true
  | x :: a', y :: b' => chr_eqb x y && str_eqb a' b'
  | _, _ => false
  end.

(** [s.startswith(p)] *)
Fixpoint startswith (p s : pystr) : bool :=
  match p, s with
  | [], _ => true
  | x :: p', y :: s' => chr_eqb x y && startswith p' s'
  | _ :: _, [] => false
  end.

(** [sub in s] *)
Fixpoint contains (sub s : pystr) : bool :=
  startswith sub s ||
  match s with
  | [] => false
  | _ :: t => contains sub t
  end.

(** [s.replace(old, new)] for a non-empty [old]: occurrences are found from
    left to right and do not overlap.  [skip] counts the characters of the
    occurrence found last that are still to be passed. *)
Fixpoint replace_go (old new s : pystr) (skip : nat) : pystr :=
  match s with
  | [] => []
  | c :: t =>
      match skip with
      | S k => replace_go old new t k
      | O =>
          if startswith old s
          then new ++ replace_go old new t (length old - 1)
          else c :: replace_go old new t 0
      end
  end.

Definition replace (old new s : pystr) : pystr := replace_go old new s 0.

(** [s.split(sep)] for a non-empty [sep], as the first piece and the pieces
    after it (the result of [split] is never the empty list). *)
Fixpoint split_go (sep s : pystr) (skip : nat) : pystr * list pystr :=
  match s with
  | [] => ([], [])
  | c :: t =>
      match skip with
      | S k => split_go sep t k
      | O =>
          if startswith sep s
          then let (h, r) := split_go sep t (length sep - 1) in ([], h :: r)
          else let (h, r) := split_go sep t 0 in (c :: h, r)
      end
  end.

Definition split (sep s : pystr) : list pystr :=
  let (h, r) := split_go sep s 0 in h :: r.

(** Whitespace of [str.strip()] on code points below 256: [\t \n \v \f \r],
    [\x1c]-[\x1f], the space, [\x85] and [\xa0]. *)
Definition isspace (c : ascii) : bool :=
  let n := code c in
  ((9 <=? n) && (n <=? 13)) || ((28 <=? n) && (n <=? 32))
  || (n =? 133) || (n =? 160).

(** Whitespace that [float] and [int] accept around a numeral: the same
    without [\x1c]-[\x1f]. *)
Definition isspace_numeral (c : ascii) : bool :=
  let n := code c in
  ((9 <=? n) && (n <=? 13)) || (n =? 32) || (n =? 133) || (n =? 160).

Fixpoint lstrip_by (p : ascii -> bool) (s : pystr) : pystr :=
  match s with
  | c :: t => if p c then lstrip_by p t else s
  | [] => []
  end.

Definition strip_by (p : ascii -> bool) (s : pystr) : pystr :=
  rev (lstrip_by p (rev (lstrip_by p s))).

(** [s.strip()] *)
Definition strip (s : pystr) : pystr := strip_by isspace s.

Definition isdigit (c : ascii) : bool :=
  let n := code c in (48 <=? n) && (n <=? 57).

(** [c.isalpha()] below 256: the ASCII letters, [\xaa], [\xb5], [\xba] and
    [\xc0]-[\xff] without the two operators [\xd7], [\xf7]. *)
Definition isalpha (c : ascii) : bool :=
  let n := code c in
  ((65 <=? n) && (n <=? 90)) || ((97 <=? n) && (n <=? 122))
  || (n =? 170) || (n =? 181) || (n =? 186)
  || ((192 <=? n) && negb (n =? 215) && negb (n =? 247)).

(** [c.lower()] below 256: [A-Z] and [\xc0]-[\xde] (without [\xd7]) move up
    by 32. *)
Definition lower_chr (c : ascii) : ascii :=
  let n := code c in
  if ((65 <=? n) && (n <=? 90))
     || ((192 <=? n) && (n <=? 222) && negb (n =? 215))
  then ascii_of_nat (n + 32) else c.

Definition lower (s : pystr) : pystr := map lower_chr s.

(** [str(n)] of an [int]. *)
Fixpoint digits_of_pos (fuel : nat) (n : Z) (acc : pystr) : pystr :=
  match fuel with
  | O => acc
  | S f =>
      let d := ascii_of_nat (48 + Z.to_nat (n mod 10)) in
      if (n <? 10)%Z then d :: acc else digits_of_pos f (n / 10)%Z (d :: acc)
  end.

Definition str_of_int (n : Z) : pystr :=
  if (n <? 0)%Z
  then "-"%char :: digits_of_pos (S (Z.to_nat (Z.log2 (- n)))) (- n) []
  else digits_of_pos (S (Z.to_nat (Z.log2 n))) n [].


(** [int(s)] and the digit runs of [float(s)]: [digit (["_"] digit)*].
    [digitpart_go s acc n] continues a run of which [n] digits of value [acc]
    have been read, and returns the value, the number of digits and the rest. *)
Definition digit_val (c : ascii) : Z := Z.of_nat (code c - 48).

Fixpoint digitpart_go (s : pystr) (acc : Z) (n : nat) : Z * nat * pystr :=
  match s with
  | c :: t =>
      if isdigit c then digitpart_go t (10 * acc + digit_val c)%Z (S n)
      else if chr_eqb c "_" then
        match t with
        | d :: t' =>
            if isdigit d
            then digitpart_go t' (10 * acc + digit_val d)%Z (S n)
            else (acc, n, s)
        | [] => (acc, n, s)
        end
      else (acc, n, s)
  | [] => (acc, n, s)
  end.

Definition digitpart (s : pystr) : option (Z * nat * pystr) :=
  match s with
  | c :: t => if isdigit c then Some (digitpart_go t (digit_val c) 1) else None
  | [] => None
  end.

(** An optional sign: [true] for [-]. *)
Definition sign (s : pystr) : bool * pystr :=
  match s with
  | c :: t =>
      if chr_eqb c "-" then (true, t)
      else if chr_eqb c "+" then (false, t)
      else (false, s)
  | [] => (false, s)
  end.

Definition apply_sign (neg : bool) (v : Z) : Z := if neg then (- v)%Z else v.

(** [int(s)]: [ValueError] unless the stripped string is an optionally signed
    digit run. *)
Definition py_int (s : pystr) : exc Z :=
  let (neg, r) := sign (strip_by isspace_numeral s) in
  match digitpart r with
  | Some (v, _, []) => Ret (apply_sign neg v)
  | _ => Raise
  end.

(** ** Regular expressions

    The patterns of the two modules, matched the way [re] does: by
    backtracking, alternatives in order, greedy or lazy repetition.  Every
    repetition in the source is of a single character class. *)

Inductive re : Type :=
| Lit (l : pystr)                              (* a literal string *)
| Cls (p : ascii -> bool)                      (* one character of a class *)
| Rep (p : ascii -> bool) (lo : nat) (greedy : bool)  (* p{lo,} and p{lo,}? *)
| Opt (r : re)                                 (* r? *)
| Cat (r1 r2 : re)
| Alt (r1 r2 : re)
| Grp (i : nat) (r : re)                       (* capture group i *)
| Bos                                          (* ^ *)
| Eos.                                         (* $ *)

Definition captures : Type := list (nat * pystr).

(** [m.group(i)] *)
Fixpoint group (i : nat) (caps : captures) : pystr :=
  match caps with
  | (j, s) :: rest => if Nat.eqb i j then s else group i rest
  | [] => []
  end.

Definition strip_prefix (p s : pystr) : option pystr :=
  if startswith p s then Some (skipn (length p) s) else None.

Definition is_nil (s : pystr) : bool :=
  match s with
  | [] => true
  | _ :: _ => false
  end.

Section Matcher.
Variable R : Type.

Definition or_else (a : option R) (b : option R) : option R :=
  match a with
  | Some x => Some x
  | None => b
  end.

(** Repetition of a character class, at least [lo] times: the continuation
    gets the characters matched and the input left. *)
Fixpoint rep (p : ascii -> bool) (lo : nat) (greedy : bool) (s : pystr)
    (k : pystr -> pystr -> option R) : option R :=
  match s with
  | c :: t =>
      match lo with
      | S lo' =>
          if p c then rep p lo' greedy t (fun m s' => k (c :: m) s') else None
      | O =>
          if greedy
          then if p c
               then or_else (rep p 0 greedy t (fun m s' => k (c :: m) s'))
                            (k [] s)
               else k [] s
          else or_else (k [] s)
                       (if p c
                        then rep p 0 greedy t (fun m s' => k (c :: m) s')
                        else None)
      end
  | [] =>
      match lo with
      | O => k [] []
      | S _ => None
      end
  end.

(** [rx r bos s caps k]: match [r] against a prefix of the input [s], which
    starts at the beginning of the whole string when [bos] holds, and hand
    the text matched, the input left and the groups to the continuation
    [k]. *)
Fixpoint rx (r : re) (bos : bool) (s : pystr) (caps : captures)
    (k : pystr -> pystr -> captures -> option R) : option R :=
  match r with
  | Lit l =>
      match strip_prefix l s with
      | Some rest => k l rest caps
      | None => None
      end
  | Cls p =>
      match s with
      | c :: t => if p c then k [c] t caps else None
      | [] => None
      end
  | Rep p lo greedy => rep p lo greedy s (fun m s' => k m s' caps)
  | Opt r1 => or_else (rx r1 bos s caps k) (k [] s caps)
  | Cat r1 r2 =>
      rx r1 bos s caps
         (fun m1 s1 caps1 =>
            rx r2 (bos && is_nil m1) s1 caps1
               (fun m2 s2 caps2 => k (m1 ++ m2) s2 caps2))
  | Alt r1 r2 => or_else (rx r1 bos s caps k) (rx r2 bos s caps k)
  | Grp i r1 => rx r1 bos s caps (fun m s' caps' => k m s' ((i, m) :: caps'))
  | Bos => if bos then k [] s caps else None
  | Eos =>
      match s with
      | [] => k [] s caps
      | [c] => if chr_eqb c "010" then k [] s caps else None
      | _ => None
      end
  end.
End Matcher.

Arguments rep {R}.
Arguments rx {R}.
Arguments or_else {R}.

(** The match of [r] at the front of [s]: its text, the input after it and
    its groups. *)
Definition match_at (r : re) (bos : bool) (s : pystr)
    : option (pystr * pystr * captures) :=
  rx r bos s [] (fun m s' caps => Some (m, s', caps)).

(** [re.search(r, s)]: the leftmost match. *)
Fixpoint search_go (r : re) (bos : bool) (s : pystr)
    : option (pystr * pystr * captures) :=
  match match_at r bos s with
  | Some m => Some m
  | None =>
      match s with
      | [] => None
      | _ :: t => search_go r false t
      end
  end.

Definition re_search (r : re) (s : pystr) : option captures :=
  match search_go r true s with
  | Some (_, _, caps) => Some caps
  | None => None
  end.

(** [re.sub(r, repl, s)], the replacement given as a function of the groups.
    [skip] counts the characters of the last match still to be passed; a
    pattern that matches the empty string leaves its replacement in front of
    the next character. *)
Fixpoint sub_go (r : re) (repl : captures -> pystr) (bos : bool) (s : pystr)
    (skip : nat) : pystr :=
  match s with
  | [] =>
      match match_at r bos [] with
      | Some (_, _, caps) => repl caps
      | None => []
      end
  | c :: t =>
      match skip with
      | S k => sub_go r repl false t k
      | O =>
          match match_at r bos s with
          | Some (m, _, caps) =>
              match length m with
              | O => repl caps ++ c :: sub_go r repl false t 0
              | S k => repl caps ++ sub_go r repl false t k
              end
          | None => c :: sub_go r repl false t 0
          end
      end
  end.

Definition re_sub (r : re) (repl : captures -> pystr) (s : pystr) : pystr :=
  sub_go r repl true s 0.

(** [re.search(r, s) is not None] *)
Definition matches (r : re) (s : pystr) : bool :=
  match re_search r s with
  | Some _ => true
  | None => false
  end.

Definition is_chr (a : ascii) : ascii -> bool := chr_eqb a.
Definition not_newline (c : ascii) : bool := negb (chr_eqb c "010").
Definition not_digit (c : ascii) : bool := negb (isdigit c).
Definition nonzero_digit (c : ascii) : bool := isdigit c && negb (chr_eqb c "0").

(** ** response_normalization.py *)

Definition nl : ascii := "010"%char.

(** [^\\text\{(?P<text>.+?)\}$] *)
Definition re_text_wrapper : re :=
  Cat Bos (Cat (Lit (L "\text{"))
    (Cat (Grp 1 (Rep not_newline 1 false)) (Cat (Lit (L "}")) Eos))).

Fixpoint _fix_fracs_loop (string : pystr) (substrs : list pystr)
    (new_str : pystr) : exc pystr :=
  match substrs with
  | [] => Ret new_str
  | substr :: rest =>
      let new_str := new_str ++ L "\frac" in
      match substr with
      | [] => Raise                                   (* substr[0] *)
      | a :: tl =>
          if chr_eqb a "{" then _fix_fracs_loop string rest (new_str ++ substr)
          else
            match tl with
            | [] => Ret string            (* the assertion fails: return string *)
            | b :: _ =>
                if negb (chr_eqb b "{") then
                  if 2 <? length substr
                  then _fix_fracs_loop string rest
                         (new_str ++ L "{" ++ [a] ++ L "}{" ++ [b] ++ L "}"
                                  ++ skipn 2 substr)
                  else _fix_fracs_loop string rest
                         (new_str ++ L "{" ++ [a] ++ L "}{" ++ [b] ++ L "}")
                else
                  if 2 <? length substr
                  then _fix_fracs_loop string rest
                         (new_str ++ L "{" ++ [a] ++ L "}" ++ [b]
                                  ++ skipn 2 substr)
                  else _fix_fracs_loop string rest
                         (new_str ++ L "{" ++ [a] ++ L "}" ++ [b])
            end
      end
  end.

Definition _fix_fracs (string : pystr) : exc pystr :=
  let substrs := split (L "\frac") string in
  let new_str := hd [] substrs in
  if 1 <? length substrs
  then _fix_fracs_loop string (tl substrs) new_str
  else Ret new_str.

Definition _fix_a_slash_b (string : pystr) : pystr :=
  if negb (length (split (L "/") string) =? 2) then string
  else
    let a := nth 0 (split (L "/") string) [] in
    let b := nth 1 (split (L "/") string) [] in
    try_except
      (a <- py_int a ;;
       b <- py_int b ;;
       _ <- assert (str_eqb string (str_of_int a ++ L "/" ++ str_of_int b)) ;;
       Ret (L "\frac{" ++ str_of_int a ++ L "}{" ++ str_of_int b ++ L "}"))
      string.

Definition _remove_right_units (string : pystr) : exc pystr :=
  if contains (L "\text{ ") string then
    let splits := split (L "\text{ ") string in
    _ <- assert (length splits =? 2) ;;
    Ret (nth 0 splits [])
  else Ret string.

Fixpoint _fix_sqrt_loop (splits : list pystr) (new_string : pystr)
    : exc pystr :=
  match splits with
  | [] => Ret new_string
  | split :: rest =>
      match split with
      | [] => Raise                                   (* split[0] *)
      | a :: tail =>
          let new_substr :=
            if negb (chr_eqb a "{")
            then L "\sqrt{" ++ [a] ++ L "}" ++ tail
            else L "\sqrt" ++ split in
          _fix_sqrt_loop rest (new_string ++ new_substr)
      end
  end.

Definition _fix_sqrt (string : pystr) : exc pystr :=
  if negb (contains (L "\sqrt") string) then Ret string
  else
    let splits := split (L "\sqrt") string in
    _fix_sqrt_loop (tl splits) (hd [] splits).

(** The replacement table of [_strip_string], in the order of the dict.  The
    source writes the key backslash-percent twice; a dict holds it once, at
    its first place. *)
Definition multi_char_replacements : list (pystr * pystr) :=
  [ ([nl], []);
    (L "\\", L "\");
    (L "tfrac", L "frac");
    (L "dfrac", L "frac");
    (L "\left", []);
    (L "\right", []);
    (L "^{\circ}", []);
    (L "^\circ", []);
    (L "\$", []);
    (L "\%", []);
    (L " .", L " 0.");
    (L "{.", L "{0.");
    (L "\!", []) ].

Definition apply_replacements (table : list (pystr * pystr)) (s : pystr)
    : pystr :=
  fold_left (fun acc kv => replace (fst kv) (snd kv) acc) table s.

(** The body of [_strip_string] from the units removal on. *)
Definition strip_tail (string : pystr) : exc pystr :=
  let string :=
    if (length (split (L "=") string) =? 2)
       && (length (nth 0 (split (L "=") string) []) <=? 2)
    then nth 1 (split (L "=") string) []
    else string in
  string <- _fix_sqrt string ;;
  let string := filter (fun c => negb (chr_eqb c " ")) string in
  string <- _fix_fracs string ;;
  let string := if str_eqb string (L "0.5") then L "\frac{1}{2}" else string in
  Ret (_fix_a_slash_b string).

(** The body of [_strip_string] up to the units removal. *)
Definition strip_head (string : pystr) : pystr :=
  let string := apply_replacements multi_char_replacements string in
  match string with
  | c :: _ => if chr_eqb c "." then "0"%char :: string else string
  | [] => string
  end.

Definition _strip_string (string : pystr) : exc pystr :=
  if length string =? 0 then Ret string
  else
    let string := strip_head string in
    string <- _remove_right_units string ;;
    strip_tail string.

(** [normalize_answer], up to the call of [_strip_string]: the stripped
    answer, unwrapped when it is one [\text{...}]. *)
Definition unwrap_text (answer : pystr) : pystr :=
  let answer := strip answer in
  match re_search re_text_wrapper answer with
  | Some m => strip (group 1 m)
  | None => answer
  end.

Definition normalize_answer (answer : option pystr) : option pystr :=
  match answer with
  | None => None
  | Some answer =>
      let answer := unwrap_text answer in
      Some (try_except (_strip_string answer) answer)
  end.

(** ** Floats

    [float(s)] is the correctly rounded binary64 value of the decimal
    numeral; a finite value is kept as the rational it denotes.  The graders
    use a float in three ways only: [round(x)], [int(x)] and the test
    [abs(x - int(round(x))) <= 1e-7], whose subtraction is exact in binary64
    (the operands are within a factor of two of each other, or the integer is
    zero), so that the test is the same comparison of rationals. *)

Inductive pyfloat : Type :=
| Fin (q : Q)
| Inf
| NaN.

(** [n / d] rounded to the nearest integer, ties to even ([0 < d]). *)
Definition round_half_even (n d : Z) : Z :=
  let q := (n / d)%Z in
  let r := (n mod d)%Z in
  match (2 * r ?= d)%Z with
  | Lt => q
  | Gt => (q + 1)%Z
  | Eq => if Z.even q then q else (q + 1)%Z
  end.

(** Numerator and denominator of [(p / q) / 2^e]. *)
Definition scale2 (p q e : Z) : Z * Z :=
  if (0 <=? e)%Z then (p, q * 2 ^ e)%Z else (p * 2 ^ (- e), q)%Z.

(** The binary64 value nearest to [p / q], for [0 < p] and [0 < q]: a
    significand of 53 bits, exponents from [-1074], ties to even, overflow to
    infinity. *)
Definition round_binary64 (p q : Z) : pyfloat :=
  let e0 := (Z.log2 p - Z.log2 q)%Z in
  let '(n0, d0) := scale2 p q e0 in
  let e1 := if (n0 <? d0)%Z then (e0 - 1)%Z else e0 in   (* floor (log2 (p/q)) *)
  let e := Z.max (e1 - 52) (-1074) in
  let '(n, d) := scale2 p q e in
  let m := round_half_even n d in
  if (0 <=? e)%Z
  then if (2 ^ 1024 <=? m * 2 ^ e)%Z then Inf else Fin (inject_Z (m * 2 ^ e))
  else Fin (Qmake m (Z.to_pos (2 ^ (- e)))).

Definition qneg (neg : bool) (x : pyfloat) : pyfloat :=
  match x with
  | Fin q => Fin (if neg then Qopp q else q)
  | other => other
  end.

(** The value of the decimal numeral [m * 10^e], [0 <= m]. *)
Definition decimal_value (m e : Z) : pyfloat :=
  if (m =? 0)%Z then Fin 0%Q
  else if (0 <=? e)%Z then round_binary64 (m * 10 ^ e) 1
  else round_binary64 m (10 ^ (- e)).

Definition digitpart_from (acc : Z) (s : pystr) : option (Z * nat * pystr) :=
  match s with
  | c :: t =>
      if isdigit c
      then Some (digitpart_go t (10 * acc + digit_val c)%Z 1)
      else None
  | [] => None
  end.

(** [exponent ::= ("e" | "E") [sign] digitpart], and nothing after it. *)
Definition float_exponent (s : pystr) : option Z :=
  match s with
  | [] => Some 0%Z
  | c :: t =>
      if chr_eqb c "e" || chr_eqb c "E" then
        let (neg, r) := sign t in
        match digitpart_from 0 r with
        | Some (v, _, []) => Some (apply_sign neg v)
        | _ => None
        end
      else None
  end.

(** [number ::= [digitpart] "." digitpart | digitpart ["."]], followed by an
    optional exponent: the digits read as one integer and the power of ten. *)
Definition float_number (s : pystr) : option (Z * Z) :=
  match digitpart_from 0 s with
  | Some (ip, _, r1) =>
      match r1 with
      | c :: r2 =>
          if chr_eqb c "." then
            match digitpart_from ip r2 with
            | Some (m, nf, r3) =>
                option_map (fun e => (m, e - Z.of_nat nf)%Z) (float_exponent r3)
            | None => option_map (fun e => (ip, e)) (float_exponent r2)
            end
          else option_map (fun e => (ip, e)) (float_exponent r1)
      | [] => Some (ip, 0%Z)
      end
  | None =>
      match s with
      | c :: r2 =>
          if chr_eqb c "." then
            match digitpart_from 0 r2 with
            | Some (m, nf, r3) =>
                option_map (fun e => (m, e - Z.of_nat nf)%Z) (float_exponent r3)
            | None => None
            end
          else None
      | [] => None
      end
  end.

(** [float(s)]: [ValueError] unless the stripped string is an optionally
    signed number, infinity or nan. *)
Definition py_float (s : pystr) : exc pyfloat :=
  let (neg, r) := sign (strip_by isspace_numeral s) in
  let w := lower r in
  if str_eqb w (L "inf") || str_eqb w (L "infinity") then Ret Inf
  else if str_eqb w (L "nan") then Ret NaN
  else
    match float_number r with
    | Some (m, e) => Ret (qneg neg (decimal_value m e))
    | None => Raise
    end.

(** [round(x)]: to the nearest integer, ties to even; raises on infinity and
    nan. *)
Definition py_round (x : pyfloat) : exc Z :=
  match x with
  | Fin q => Ret (round_half_even (Qnum q) (Zpos (Qden q)))
  | _ => Raise
  end.

(** [int(x)]: truncation towards zero; raises on infinity and nan. *)
Definition py_trunc (x : pyfloat) : exc Z :=
  match x with
  | Fin q => Ret (Z.quot (Qnum q) (Zpos (Qden q)))
  | _ => Raise
  end.

(** The float literal [1e-7]. *)
Definition tolerance : Q :=
  match decimal_value 1 (-7) with
  | Fin q => q
  | _ => 0%Q
  end.

(** [abs(x - int(round(x))) <= 1e-7] *)
Definition near_integer (x : pyfloat) : exc bool :=
  n <- py_round x ;;
  match x with
  | Fin q => Ret (Qle_bool (Qabs (q - inject_Z n)) tolerance)
  | _ => Raise
  end.

(** ** evaluation.py *)

(** The two libraries the module calls.  [latex_to_text] is
    [latex2text.LatexNodes2Text().latex_to_text], its text taken after the
    replacements of the four characters above code point 255 that
    [_parse_latex] makes; [parse_expr] is [sympy_parser.parse_expr] with the
    implicit-multiplication transformations, [simplify] is [sympy.simplify]
    and [is_zero e] is [e == 0]. *)
Record Engine : Type := {
  Expr : Type;
  latex_to_text : pystr -> exc pystr;
  parse_expr : pystr -> exc Expr;
  simplify : Expr -> exc Expr;
  is_zero : Expr -> bool
}.

Definition BAD_SUBSTRINGS : list pystr := [L "^{"; L "^("].

(** [\^[0-9]+\^] and [\^[0-9][0-9]+] *)
Definition BAD_REGEXES : list re :=
  [ Cat (Lit (L "^")) (Cat (Rep isdigit 1 true) (Lit (L "^")));
    Cat (Lit (L "^")) (Cat (Cls isdigit) (Rep isdigit 1 true)) ].

Definition TUPLE_CHARS : pystr := L "()[]".

Definition _sympy_parse (E : Engine) (expr : pystr) : exc (Expr E) :=
  let py_expr := replace (L "^") (L "**") expr in
  parse_expr E py_expr.

Definition _parse_latex (E : Engine) (expr : pystr) : exc pystr :=
  let expr := replace (L "\tfrac") (L "\frac") expr in
  let expr := replace (L "\dfrac") (L "\frac") expr in
  let expr := replace (L "\frac") (L " \frac") expr in
  expr <- latex_to_text E expr ;;
  let expr := replace ["183"%char] (L "*") expr in    (* the middle dot *)
  let expr := replace ["215"%char] (L "*") expr in    (* the times sign *)
  Ret (strip expr).

Definition _is_float (num : pystr) : bool :=
  try_except (_ <- py_float num ;; Ret true) false.

Definition _is_int (x : pyfloat) : bool :=
  try_except (near_integer x) false.

(** [^-?[0-9]+.?/0*[1-9][0-9]*.?$] *)
Definition re_frac : re :=
  Cat Bos (Cat (Opt (Lit (L "-"))) (Cat (Rep isdigit 1 true)
    (Cat (Opt (Cls not_newline)) (Cat (Lit (L "/"))
      (Cat (Rep (is_chr "0") 0 true) (Cat (Cls nonzero_digit)
        (Cat (Rep isdigit 0 true) (Cat (Opt (Cls not_newline)) Eos)))))))).

Definition _is_frac (expr : pystr) : bool := matches re_frac expr.

(** [([0-9]) +([0-9])] replaced by [\1+\2] *)
Definition re_mixed : re :=
  Cat (Grp 1 (Cls isdigit)) (Cat (Rep (is_chr " ") 1 true) (Grp 2 (Cls isdigit))).

Definition _inject_implicit_mixed_number (step : pystr) : pystr :=
  re_sub re_mixed (fun m => group 1 m ++ L "+" ++ group 2 m) step.

(** [(\d)(,)(\d\d\d)($|\D)] replaced by [\1\3\4] *)
Definition re_comma : re :=
  Cat (Grp 1 (Cls isdigit)) (Cat (Grp 2 (Lit (L ",")))
    (Cat (Grp 3 (Cat (Cls isdigit) (Cat (Cls isdigit) (Cls isdigit))))
      (Grp 4 (Alt Eos (Cls not_digit))))).

Definition comma_pass (expr : pystr) : pystr :=
  re_sub re_comma (fun m => group 1 m ++ group 3 m ++ group 4 m) expr.

(** The [while True] loop of [_strip_properly_formatted_commas], run for at
    most [fuel] passes: [None] when the passes are used up before the loop
    breaks. *)
Fixpoint comma_loop (fuel : nat) (expr : pystr) : option pystr :=
  match fuel with
  | O => None
  | S fuel' =>
      let next_expr := comma_pass expr in
      if str_eqb next_expr expr then Some next_expr
      else comma_loop fuel' next_expr
  end.

(** One pass more than the string has characters is enough, as proved
    below; the [None] branch is never taken. *)
Definition _strip_properly_formatted_commas (expr : pystr) : pystr :=
  match comma_loop (S (length expr)) expr with
  | Some r => r
  | None => expr
  end.

Definition _str_is_int (x : pystr) : bool :=
  try_except
    (let x := _strip_properly_formatted_commas x in
     x <- py_float x ;;
     near_integer x)
    false.

Definition _str_to_int (x : pystr) : exc Z :=
  let x := replace (L ",") [] x in
  x <- py_float x ;;
  py_trunc x.

Definition units : list pystr :=
  [ L "degree"; L "cm"; L "centimeter"; L "meter"; L "mile"; L "second";
    L "minute"; L "hour"; L "day"; L "week"; L "month"; L "year"; L "foot";
    L "feet"; L "inch"; L "yard" ].

(** [{unit}(es)?(s)? *(\^[0-9]+)?] *)
Definition re_unit (unit : pystr) : re :=
  Cat (Lit unit) (Cat (Opt (Grp 1 (Lit (L "es")))) (Cat (Opt (Grp 2 (Lit (L "s"))))
    (Cat (Rep (is_chr " ") 0 true)
      (Opt (Grp 3 (Cat (Lit (L "^")) (Rep isdigit 1 true))))))).

(** [\^ *\\circ] *)
Definition re_circ : re :=
  Cat (Lit (L "^")) (Cat (Rep (is_chr " ") 0 true) (Lit (L "\circ"))).

(** [,\\! *] *)
Definition re_thin_comma : re :=
  Cat (Lit (L ",\!")) (Rep (is_chr " ") 0 true).

(** [- *] *)
Definition re_minus : re :=
  Cat (Lit (L "-")) (Rep (is_chr " ") 0 true).

Definition erase (_ : captures) : pystr := [].

(** [expr[1:-1]] *)
Definition interior (expr : pystr) : pystr := removelast (tl expr).

(** [_normalize], first part: up to the removal of [,\!]. *)
Definition normalize_rewrite (expr : pystr) : pystr :=
  let expr :=
    match re_search re_text_wrapper expr with
    | Some m => group 1 m
    | None => expr
    end in
  let expr := replace (L "\%") (L "%") expr in
  let expr := replace (L "\$") (L "$") expr in
  let expr := replace (L "$") [] expr in
  let expr := replace (L "%") [] expr in
  let expr := replace (L " or ") (L " , ") expr in
  let expr := replace (L " and ") (L " , ") expr in
  let expr := replace (L "million") (L "*10^6") expr in
  let expr := replace (L "billion") (L "*10^9") expr in
  let expr := replace (L "trillion") (L "*10^12") expr in
  let expr := fold_left (fun e unit => re_sub (re_unit unit) erase e) units expr in
  let expr := re_sub re_circ erase expr in
  let expr :=
    if (0 <? length expr) && chr_eqb (hd nl expr) "{" && chr_eqb (last expr nl) "}"
    then interior expr else expr in
  re_sub re_thin_comma erase expr.

(** [_normalize], last part: from the minus signs to the lower-casing. *)
Definition normalize_cleanup (expr : pystr) : pystr :=
  let expr := re_sub re_minus (fun _ => L "-") expr in
  let expr := _inject_implicit_mixed_number expr in
  let expr := replace (L " ") [] expr in
  let expr := replace (L "{") [] expr in
  let expr := replace (L "}") [] expr in
  lower expr.

(** [_normalize], the float coercion:
    [if _is_float(expr) and _is_int(float(expr)): expr = str(int(round(float(expr))))] *)
Definition coerce_float (expr : pystr) : exc pystr :=
  coerce <-
    (if _is_float expr
     then x <- py_float expr ;; Ret (_is_int x)
     else Ret false) ;;
  if coerce
  then x <- py_float expr ;; n <- py_round x ;; Ret (str_of_int n)
  else Ret expr.

(** [_normalize], the LaTeX fallback:
    [if '\\' in expr: try: expr = _parse_latex(expr) except: pass] *)
Definition unlatex (E : Engine) (expr : pystr) : pystr :=
  if contains (L "\") expr
  then try_except (_parse_latex E expr) expr
  else expr.

(** [_normalize], the integer coercion:
    [if _str_is_int(expr): expr = str(_str_to_int(expr))] *)
Definition coerce_int (expr : pystr) : exc pystr :=
  if _str_is_int expr
  then n <- _str_to_int expr ;; Ret (str_of_int n)
  else Ret expr.

Definition _normalize (E : Engine) (expr : option pystr) : exc (option pystr) :=
  match expr with
  | None => Ret None
  | Some expr =>
      let expr := normalize_rewrite expr in
      expr <- coerce_float expr ;;
      let expr := unlatex E expr in
      let expr := normalize_cleanup expr in
      expr <- coerce_int expr ;;
      Ret (Some expr)
  end.

Definition count_unknown_letters_in_expr (expr : pystr) : nat :=
  let expr := replace (L "sqrt") [] expr in
  let expr := replace (L "frac") [] expr in
  let letters_in_expr := nodup ascii_dec (filter isalpha expr) in
  length letters_in_expr.

Definition should_allow_eval (expr : pystr) : bool :=
  if 2 <? count_unknown_letters_in_expr expr then false
  else if existsb (fun bad_string => contains bad_string expr) BAD_SUBSTRINGS
  then false
  else if existsb (fun bad_regex => matches bad_regex expr) BAD_REGEXES
  then false
  else true.

(** [f'({ground_truth_normalized})-({given_normalized})'] *)
Definition difference (ground_truth_normalized given_normalized : pystr)
    : pystr :=
  L "(" ++ ground_truth_normalized ++ L ")-(" ++ given_normalized ++ L ")".

(** The body of the [try] of [are_equal_under_sympy]: the value of
    [are_equal] when it is left without an exception. *)
Definition are_equal_try (E : Engine)
    (ground_truth_normalized given_normalized : pystr) : exc bool :=
  let expr := difference ground_truth_normalized given_normalized in
  if should_allow_eval expr then
    sympy_diff <- _sympy_parse E expr ;;
    simplified <- simplify E sympy_diff ;;
    Ret (is_zero E simplified)
  else Ret false.

Definition are_equal_under_sympy (E : Engine)
    (ground_truth_normalized given_normalized : pystr) : exc bool :=
  let are_equal := false in
  let are_equal :=
    try_except (are_equal_try E ground_truth_normalized given_normalized)
               are_equal in
  Ret are_equal.

Definition split_tuple (expr : pystr) : list pystr :=
  let expr := _strip_properly_formatted_commas expr in
  if length expr =? 0 then []
  else if (2 <? length expr)
          && contains [hd nl expr] TUPLE_CHARS
          && contains [last expr nl] TUPLE_CHARS
          && forallb (fun ch => negb (contains [ch] (interior expr))) TUPLE_CHARS
  then map strip (split (L ",") (interior expr))
  else [expr].

(** The return statements and verdict assignments of [grade_answer]. *)
Inductive exit : Type :=
| NoAnswer          (* given_answer is None or empty *)
| MathdEqual        (* the normalize_answer forms are equal *)
| TruthAbsent       (* ground_truth_normalized is None *)
| NormalizedEqual   (* the _normalize forms are equal *)
| GivenEmpty        (* len(given_normalized) == 0 *)
| ShapeMismatch     (* first or last characters differ *)
| CountMismatch     (* the numbers of elements differ *)
| Elementwise.      (* the loop over the pairs of elements *)

Definition option_eqb (a b : option pystr) : bool :=
  match a, b with
  | Some x, Some y => str_eqb x y
  | None, None => true
  | _, _ => false
  end.

(** [s[0]] and [s[-1]] *)
Definition first_item (s : pystr) : exc ascii :=
  match s with
  | c :: _ => Ret c
  | [] => Raise
  end.

Definition last_item (s : pystr) : exc ascii :=
  match s with
  | [] => Raise
  | _ => Ret (last s nl)
  end.

(** The body of the loop over the pairs of elements: the value assigned to
    [is_correct]. *)
Definition pair_correct (E : Engine) (ground_truth_elem given_elem : pystr)
    : exc bool :=
  if _is_frac ground_truth_elem && _is_frac given_elem
  then Ret (str_eqb ground_truth_elem given_elem)
  else if negb (Bool.eqb (_str_is_int ground_truth_elem) (_str_is_int given_elem))
  then Ret false
  else are_equal_under_sympy E ground_truth_elem given_elem.

(** The loop, [is_correct] being unbound ([None]) before its first pass. *)
Fixpoint pairs_correct (E : Engine) (pairs : list (pystr * pystr))
    (is_correct : option bool) : exc (option bool) :=
  match pairs with
  | [] => Ret is_correct
  | (ground_truth_elem, given_elem) :: rest =>
      is_correct <- pair_correct E ground_truth_elem given_elem ;;
      if negb is_correct then Ret (Some is_correct)
      else pairs_correct E rest (Some is_correct)
  end.

(** [grade_answer], with the place where the verdict was decided. *)
Definition grade_answer_at (E : Engine) (given_answer : option pystr)
    (ground_truth : pystr) : exc (bool * exit) :=
  match given_answer with
  | None => Ret (false, NoAnswer)
  | Some given =>
    if str_eqb given [] then Ret (false, NoAnswer)
    else
      let ground_truth_normalized_mathd := normalize_answer (Some ground_truth) in
      let given_answer_normalized_mathd := normalize_answer given_answer in
      if option_eqb ground_truth_normalized_mathd given_answer_normalized_mathd
      then Ret (true, MathdEqual)
      else
        ground_truth_normalized <- _normalize E (Some ground_truth) ;;
        given_normalized <- _normalize E given_answer ;;
        match ground_truth_normalized with
        | None => Ret (false, TruthAbsent)
        | Some truth_n =>
          if option_eqb ground_truth_normalized given_normalized
          then Ret (true, NormalizedEqual)
          else
            match given_normalized with
            | None => Raise                          (* len(None) *)
            | Some given_n =>
              if length given_n =? 0 then Ret (false, GivenEmpty)
              else
                let ground_truth_elems := split_tuple truth_n in
                let given_elems := split_tuple given_n in
                shape <-
                  (if 1 <? length ground_truth_elems then
                     a <- first_item truth_n ;;
                     b <- first_item given_n ;;
                     if negb (chr_eqb a b) then Ret true
                     else
                       c <- last_item truth_n ;;
                       d <- last_item given_n ;;
                       Ret (negb (chr_eqb c d))
                   else Ret false) ;;
                if shape then Ret (false, ShapeMismatch)
                else if negb (length ground_truth_elems =? length given_elems)
                then Ret (false, CountMismatch)
                else
                  is_correct <-
                    pairs_correct E (combine ground_truth_elems given_elems) None ;;
                  match is_correct with
                  | Some b => Ret (b, Elementwise)
                  | None => Raise                    (* is_correct is unbound *)
                  end
            end
        end
  end.

Definition grade_answer (E : Engine) (given_answer : option pystr)
    (ground_truth : pystr) : exc bool :=
  r <- grade_answer_at E given_answer ground_truth ;;
  Ret (fst r).

(** ** run_experiment.py: from a response to its grade *)

(** [s.find(sub)]: the index of the first occurrence, [-1] when there is
    none. *)
Fixpoint find_from (sub s : pystr) (i : Z) : Z :=
  if startswith sub s then i
  else
    match s with
    | [] => (-1)%Z
    | _ :: t => find_from sub t (i + 1)%Z
    end.

Definition find (sub s : pystr) : Z := find_from sub s 0.

(** A slice bound as [s[a:b]] reads it: a negative index counts from the
    end, and every index is clamped to the string. *)
Definition slice_index (len i : Z) : nat :=
  Z.to_nat (if (i <? 0)%Z then Z.max 0 (i + len) else Z.min i len).

(** [s[a:b]] *)
Definition slice (s : pystr) (a b : Z) : pystr :=
  let len := Z.of_nat (length s) in
  skipn (slice_index len a) (firstn (slice_index len b) s).

Definition extract_answer (response_text : pystr) : pystr :=
  let start_idx := find (L "<answer>") response_text in
  let end_idx := find (L "</answer>") response_text in
  if (start_idx =? -1)%Z || (end_idx =? -1)%Z then []
  else slice response_text
             (start_idx + Z.of_nat (length (L "<answer>")))%Z end_idx.

(** [.astype(int)] of a boolean. *)
Definition int_of_bool (b : bool) : Z := if b then 1%Z else 0%Z.

(** The column [correct] of [grade_responses], the rows given as the pairs
    of [response_answer] and [test_set_answer]; an exception in a row leaves
    the whole [apply]. *)
Fixpoint grade_responses (E : Engine) (rows : list (pystr * pystr))
    : exc (list Z) :=
  match rows with
  | [] => Ret []
  | (response_answer, test_set_answer) :: rest =>
      correct <- grade_answer E (Some response_answer) test_set_answer ;;
      others <- grade_responses E rest ;;
      Ret (int_of_bool correct :: others)
  end.

(** The column [response_answer] of [clean_responses]. *)
Definition response_answers (rows : list (pystr * pystr))
    : list (pystr * pystr) :=
  map (fun row => (extract_answer (fst row), snd row)) rows.

(** The ids of the requests.

    [s.endswith(suffix)] *)
Definition endswith (suffix s : pystr) : bool :=
  startswith (rev suffix) (rev s).

(** [s.removesuffix(suffix)] *)
Definition removesuffix (suffix s : pystr) : pystr :=
  if negb (is_nil suffix) && endswith suffix s
  then firstn (length s - length suffix) s
  else s.

(** [[^a-zA-Z0-9_-]] *)
Definition id_char (c : ascii) : bool :=
  ((97 <=? code c) && (code c <=? 122))
  || ((65 <=? code c) && (code c <=? 90))
  || isdigit c || chr_eqb c "_" || chr_eqb c "-".

Definition re_unsafe : re := Cls (fun c => negb (id_char c)).

(** [format_and_save_prompts]: the number of a question,
    [question_id.split('/')[-1].removesuffix('.json')], and the id of the
    request for a template and a question. *)
Definition q_id_number (question_id : pystr) : pystr :=
  removesuffix (L ".json") (last (split (L "/") question_id) []).

Definition request_id (template_id question_id : pystr) : pystr :=
  let request_id := template_id ++ L "_" ++ q_id_number question_id in
  re_sub re_unsafe (fun _ => L "_") request_id.

(** [add_solutions_from_test_set]: [x.split('_')[1]] of a [custom_id]. *)
Definition custom_id_question_number (x : pystr) : exc pystr :=
  match split (L "_") x with
  | _ :: number :: _ => Ret number
  | _ => Raise
  end.

(** [compile_results]: [x.split('_')[0]] of a [custom_id]. *)
Definition custom_id_template_id (x : pystr) : pystr :=
  hd [] (split (L "_") x).

(** ** Auxiliary definitions of the statements *)

(** An engine whose every call fails: the graders then rest on the string
    tiers alone. *)
Definition failing_engine : Engine :=
  {| Expr := unit;
     latex_to_text := fun _ => Raise;
     parse_expr := fun _ => Raise;
     simplify := fun _ => Raise;
     is_zero := fun _ => false |}.


(** [s.count(sep)] *)
Definition count (sep s : pystr) : nat := length (split sep s) - 1.

(** Syntactic normalization as the specification words its step 5: the
    units removal left out, every other step of [_strip_string] applied. *)
Definition strip_string_without_units (string : pystr) : exc pystr :=
  if length string =? 0 then Ret string
  else strip_tail (strip_head string).

Definition normalize_answer_without_units (answer : pystr) : pystr :=
  let answer := unwrap_text answer in
  try_except (strip_string_without_units answer) answer.

(** A separator no proper suffix of which is one of its prefixes. *)
Definition unbordered (sep : pystr) : Prop :=
  forall u, u <> [] -> length u < length sep ->
            startswith sep (u ++ sep) = false.

(** The texts a pattern denotes: [den r bos m rest] when [r] can match the
    text [m] in front of the input [rest], [bos] telling whether [m] starts
    at the beginning of the string. *)
Fixpoint den (r : re) (bos : bool) (m rest : pystr) : Prop :=
  match r with
  | Lit l => m = l
  | Cls p => exists c, m = [c] /\ p c = true
  | Rep p lo _ => forallb p m = true /\ lo <= length m
  | Opt r1 => m = [] \/ den r1 bos m rest
  | Cat r1 r2 =>
      exists m1 m2,
        m = m1 ++ m2 /\ den r1 bos m1 (m2 ++ rest)
        /\ den r2 (bos && is_nil m1) m2 rest
  | Alt r1 r2 => den r1 bos m rest \/ den r2 bos m rest
  | Grp _ r1 => den r1 bos m rest
  | Bos => m = [] /\ bos = true
  | Eos => m = [] /\ (rest = [] \/ rest = [nl])
  end.

(** The characters of a numeral of [float]: digits, [_], [.], the exponent
    letters and the signs. *)
Definition numeral_char (c : ascii) : bool :=
  isdigit c || chr_eqb c "_" || chr_eqb c "." || chr_eqb c "e"
  || chr_eqb c "E" || chr_eqb c "+" || chr_eqb c "-".

Definition not_comma (c : ascii) : bool := negb (chr_eqb c ",").

(** The unreduced-fraction pattern in the words of the specification: an
    optional sign, digits, an optional single separator, [/], a non-zero
    digit then digits, an optional trailing separator; a separator is any
    one character other than a line break. *)
Definition separator (sep : pystr) : Prop :=
  sep = [] \/ exists c, sep = [c] /\ not_newline c = true.

Definition frac_shape (s : pystr) : Prop :=
  exists sgn num sep1 d den sep2,
    s = sgn ++ num ++ sep1 ++ L "/" ++ [d] ++ den ++ sep2 /\
    (sgn = [] \/ sgn = L "-") /\
    num <> [] /\ forallb isdigit num = true /\
    separator sep1 /\
    nonzero_digit d = true /\ forallb isdigit den = true /\
    separator sep2.

(** What the rewrites of [_normalize] look for: the backslash, the dollar
    and percent signs, the scale words and the unit words. *)
Definition rewrite_triggers : list pystr :=
  [L "\"; L "$"; L "%"; L "million"; L "billion"; L "trillion"] ++ units.

Definition trigger_free (r : pystr) : bool :=
  forallb (fun w => negb (contains w r)) rewrite_triggers.

(** What the last steps of [_normalize] leave: no space, no brace, no
    letter that [lower] would change. *)
Definition clean (r : pystr) : Prop :=
  ~ In " "%char r /\ ~ In "{"%char r /\ ~ In "}"%char r /\ lower r = r.

(** A float whose value is the integer [n]. *)
Definition exact (x : pyfloat) (n : Z) : Prop :=
  exists q, x = Fin q /\ Qnum q = (n * Zpos (Qden q))%Z.

(** The value of a digit run, one digit at a time. *)
Definition digit_step (a : Z) (c : ascii) : Z := (10 * a + digit_val c)%Z.

(** What the pattern of [_is_frac] accepts, written out: besides the shape
    of [frac_shape], zeros before the first non-zero digit of the
    denominator and one line break at the very end. *)
Definition frac_pattern (s : pystr) : Prop :=
  exists sgn num sep1 zeros d den sep2 tail,
    s = sgn ++ num ++ sep1 ++ L "/" ++ zeros ++ [d] ++ den ++ sep2 ++ tail /\
    (sgn = [] \/ sgn = L "-") /\
    num <> [] /\ forallb isdigit num = true /\
    separator sep1 /\
    forallb (is_chr "0") zeros = true /\
    nonzero_digit d = true /\ forallb isdigit den = true /\
    separator sep2 /\
    (tail = [] \/ tail = [nl]).

(** * Properties *)

(** ** Strings *)

Lemma chr_eqb_true (a b : ascii) : chr_eqb a b = true <-> a = b.
Proof. apply Ascii.eqb_eq. Qed.

Lemma chr_eqb_false (a b : ascii) : chr_eqb a b = false <-> a <> b.
Proof. apply Ascii.eqb_neq. Qed.

Lemma chr_eqb_refl (a : ascii) : chr_eqb a a = true.
Proof. apply Ascii.eqb_refl. Qed.

Lemma str_eqb_true (a b : pystr) : str_eqb a b = true <-> a = b.
Proof.
  revert b; induction a as [|x a IH]; intros [|y b]; simpl;
    try (split; [discriminate | discriminate]); try tauto.
  rewrite andb_true_iff, chr_eqb_true, IH.
  split; [intros [-> ->]; reflexivity | intros H; inversion H; auto].
Qed.

Lemma str_eqb_refl (a : pystr) : str_eqb a a = true.
Proof. apply str_eqb_true; reflexivity. Qed.

Lemma str_eqb_false (a b : pystr) : str_eqb a b = false <-> a <> b.
Proof.
  split.
  - intros H ->. rewrite str_eqb_refl in H; discriminate.
  - intros H. destruct (str_eqb a b) eqn:Heq; [|reflexivity].
    apply str_eqb_true in Heq; contradiction.
Qed.

Lemma option_eqb_true (a b : option pystr) : option_eqb a b = true <-> a = b.
Proof.
  destruct a as [a|], b as [b|]; simpl;
    try (split; [discriminate | discriminate]); try tauto.
  rewrite str_eqb_true. split; [intros ->; reflexivity | intros H; inversion H; auto].
Qed.

(** ** C1: the baseline floor *)

(** C1, as stated, fails: the empty given answer is refused before the
    syntactic normal forms are compared.  Here both forms are the empty
    string and the verdict is [false]. *)
Lemma C1_empty_given_is_refused :
  normalize_answer (Some (L "")) = normalize_answer (Some (L " ")) /\
  (forall E, grade_answer E (Some (L "")) (L " ") = Ret false).
Proof. split; [vm_compute; reflexivity | intros E; reflexivity]. Qed.

(** C1, amended: for every non-empty given answer and every ground truth,
    if the two SyntacticNormalForms are equal then [grade_answer] returns
    [true], and it is the baseline tier that decides. *)
Theorem C1_baseline_floor (E : Engine) (given truth : pystr) :
  given <> [] ->
  normalize_answer (Some given) = normalize_answer (Some truth) ->
  grade_answer_at E (Some given) truth = Ret (true, MathdEqual) /\
  grade_answer E (Some given) truth = Ret true.
Proof.
  intros Hne Heq.
  assert (Hat : grade_answer_at E (Some given) truth = Ret (true, MathdEqual)).
  { unfold grade_answer_at.
    destruct (str_eqb given []) eqn:Hemp.
    - apply str_eqb_true in Hemp; contradiction.
    - rewrite Heq.
      replace (option_eqb _ _) with true; [reflexivity|].
      symmetry; apply option_eqb_true; reflexivity. }
  split; [exact Hat|].
  unfold grade_answer; rewrite Hat; reflexivity.
Qed.

Lemma C1_baseline_floor_witness :
  grade_answer_at failing_engine (Some (L "0.5")) (L "\frac{1}{2}")
    = Ret (true, MathdEqual) /\
  grade_answer failing_engine (Some (L "0.5")) (L "\frac{1}{2}") = Ret true.
Proof.
  apply (C1_baseline_floor failing_engine (L "0.5") (L "\frac{1}{2}")).
  - discriminate.
  - vm_compute; reflexivity.
Defined.

(** ** C5, C6: the symbolic equality check *)


(** C5: [are_equal_under_sympy] returns a boolean for every engine and every
    pair of strings, whatever the parser and the simplifier do; the boolean
    is [true] only when the heuristics allow the evaluation, the parse and
    the simplification both return, and the simplified difference is zero.
    A refusal, a parse error and a simplification error all end in
    [false]. *)
Theorem C5_symbolic_check_never_raises (E : Engine) (truth given : pystr) :
  exists b : bool,
    are_equal_under_sympy E truth given = Ret b /\
    (b = true <->
       should_allow_eval (difference truth given) = true /\
       exists d s,
         _sympy_parse E (difference truth given) = Ret d /\
         simplify E d = Ret s /\ is_zero E s = true) /\
    (should_allow_eval (difference truth given) = false -> b = false) /\
    (_sympy_parse E (difference truth given) = Raise -> b = false) /\
    (forall d, _sympy_parse E (difference truth given) = Ret d ->
               simplify E d = Raise -> b = false).
Proof.
  unfold are_equal_under_sympy, are_equal_try.
  eexists; split; [reflexivity|].
  destruct (should_allow_eval (difference truth given)) eqn:Hallow; simpl.
  - destruct (_sympy_parse E (difference truth given)) as [d|] eqn:Hp; simpl.
    + destruct (simplify E d) as [s|] eqn:Hs; simpl.
      * repeat split; try discriminate.
        -- exists d, s; auto.
        -- intros [_ (d' & s' & Hd & Hs' & Hz)].
           inversion Hd; subst d'. rewrite Hs in Hs'. inversion Hs'; subst; auto.
        -- intros d' Hd Hs'. inversion Hd; subst d'. rewrite Hs in Hs'.
           discriminate.
      * repeat split; try discriminate; auto.
        intros [_ (d' & s' & Hd & Hs' & _)].
        inversion Hd; subst d'. rewrite Hs in Hs'. discriminate.
    + repeat split; try discriminate; auto.
      intros [_ (d' & s' & Hd & _)]. discriminate.
  - repeat split; try discriminate; auto.
    intros [H _]; discriminate.
Qed.

Lemma C5_symbolic_check_never_raises_witness :
  exists b : bool,
    are_equal_under_sympy failing_engine (L "x+1") (L "1+x") = Ret b /\
    b = false.
Proof.
  destruct (C5_symbolic_check_never_raises failing_engine (L "x+1") (L "1+x"))
    as (b & Hb & _ & _ & Hparse & _).
  exists b. split; [exact Hb|]. apply Hparse. reflexivity.
Defined.



(** ** [split] and [replace] *)

Lemma split_go_skip (sep s : pystr) (k : nat) :
  split_go sep s k = split_go sep (skipn k s) 0.
Proof.
  revert k; induction s as [|c t IH]; intros [|k]; try reflexivity.
  simpl. apply IH.
Qed.

Lemma split_nil (sep : pystr) : split sep [] = [[]].
Proof. reflexivity. Qed.

Lemma split_cons_match (sep s : pystr) :
  sep <> [] -> s <> [] -> startswith sep s = true ->
  split sep s = [] :: split sep (skipn (length sep) s).
Proof.
  intros Hsep Hs Hm. destruct s as [|c t]; [contradiction|].
  unfold split. cbn [split_go]. rewrite Hm.
  rewrite split_go_skip.
  destruct sep as [|x sep']; [contradiction|].
  replace (length (x :: sep') - 1) with (length sep') by (simpl; lia).
  cbn [length skipn].
  destruct (split_go (x :: sep') (skipn (length sep') t) 0); reflexivity.
Qed.

Lemma split_cons_other (sep : pystr) (c : ascii) (t : pystr) :
  startswith sep (c :: t) = false ->
  split sep (c :: t) =
  (c :: hd [] (split sep t)) :: tl (split sep t).
Proof.
  intros Hm. unfold split. cbn [split_go]. rewrite Hm.
  destruct (split_go sep t 0); reflexivity.
Qed.

Lemma split_not_nil (sep s : pystr) : split sep s <> [].
Proof. unfold split. destruct (split_go sep s 0); discriminate. Qed.

Lemma split_absent (sep s : pystr) :
  contains sep s = false -> split sep s = [s].
Proof.
  induction s as [|c t IH]; intros H.
  - reflexivity.
  - cbn [contains] in H. apply orb_false_iff in H. destruct H as [Hm Ht].
    rewrite split_cons_other by exact Hm. rewrite (IH Ht). reflexivity.
Qed.

Lemma count_absent (sep s : pystr) :
  contains sep s = false -> count sep s = 0.
Proof. intros H. unfold count. rewrite split_absent by exact H. reflexivity. Qed.

Lemma replace_go_skip (old new s : pystr) (k : nat) :
  replace_go old new s k = replace_go old new (skipn k s) 0.
Proof.
  revert k; induction s as [|c t IH]; intros [|k]; try reflexivity.
  simpl. apply IH.
Qed.

Lemma replace_cons_match (old new s : pystr) :
  old <> [] -> s <> [] -> startswith old s = true ->
  replace old new s = new ++ replace old new (skipn (length old) s).
Proof.
  intros Hold Hs Hm. destruct s as [|c t]; [contradiction|].
  unfold replace. cbn [replace_go]. rewrite Hm.
  rewrite replace_go_skip.
  destruct old as [|x old']; [contradiction|].
  replace (length (x :: old') - 1) with (length old') by (simpl; lia).
  reflexivity.
Qed.

Lemma replace_cons_other (old new : pystr) (c : ascii) (t : pystr) :
  startswith old (c :: t) = false ->
  replace old new (c :: t) = c :: replace old new t.
Proof. intros Hm. unfold replace. cbn [replace_go]. rewrite Hm. reflexivity. Qed.

Lemma replace_absent (old new s : pystr) :
  contains old s = false -> replace old new s = s.
Proof.
  induction s as [|c t IH]; intros H.
  - reflexivity.
  - cbn [contains] in H. apply orb_false_iff in H. destruct H as [Hm Ht].
    rewrite replace_cons_other by exact Hm. rewrite (IH Ht). reflexivity.
Qed.

(** ** C2: a repeated units marker *)

(** C2, as stated, fails.  On [x = \frac12 \text{ a}\text{ b}] the marker
    occurs twice; [normalize_answer] returns the string as it is, while
    skipping the units removal alone and applying the other steps gives
    [\frac{1}{2}\text{a}\text{b}]. *)
Lemma C2_nothing_is_applied :
  count (L "\text{ ")
        (strip_head (unwrap_text (L "x = \frac12 \text{ a}\text{ b}"))) = 2 /\
  normalize_answer (Some (L "x = \frac12 \text{ a}\text{ b}"))
    = Some (L "x = \frac12 \text{ a}\text{ b}") /\
  normalize_answer_without_units (L "x = \frac12 \text{ a}\text{ b}")
    = L "\frac{1}{2}\text{a}\text{b}".
Proof. repeat split; vm_compute; reflexivity. Qed.

(** C2, amended: when the string that reaches the units removal contains
    [\text{ ] more than once, the assertion of [_remove_right_units] fails,
    [_strip_string] is left by the exception, and [normalize_answer] returns
    the answer after whitespace stripping and [\text{...}] unwrapping only:
    none of the rewrites of [_strip_string] is applied. *)
Theorem C2_repeated_units_marker (s : pystr) :
  1 < count (L "\text{ ") (strip_head (unwrap_text s)) ->
  _remove_right_units (strip_head (unwrap_text s)) = Raise /\
  _strip_string (unwrap_text s) = Raise /\
  normalize_answer (Some s) = Some (unwrap_text s).
Proof.
  intros Hcount.
  assert (Hraise : _remove_right_units (strip_head (unwrap_text s)) = Raise).
  { unfold _remove_right_units.
    destruct (contains (L "\text{ ") (strip_head (unwrap_text s))) eqn:Hc.
    - unfold count in Hcount.
      destruct (length (split (L "\text{ ") (strip_head (unwrap_text s))) =? 2)
        eqn:Hlen; [apply Nat.eqb_eq in Hlen; lia | reflexivity].
    - rewrite (count_absent _ _ Hc) in Hcount. lia. }
  assert (Hstrip : _strip_string (unwrap_text s) = Raise).
  { unfold _strip_string.
    destruct (unwrap_text s) as [|c t] eqn:Hu.
    - vm_compute in Hcount. lia.
    - cbn [length Nat.eqb]. rewrite Hraise. reflexivity. }
  repeat split; try assumption.
  unfold normalize_answer. rewrite Hstrip. reflexivity.
Qed.

Lemma C2_repeated_units_marker_witness :
  _remove_right_units (strip_head (unwrap_text (L "5\text{ cm}\text{ long}")))
    = Raise /\
  _strip_string (unwrap_text (L "5\text{ cm}\text{ long}")) = Raise /\
  normalize_answer (Some (L "5\text{ cm}\text{ long}"))
    = Some (unwrap_text (L "5\text{ cm}\text{ long}")).
Proof.
  apply (C2_repeated_units_marker (L "5\text{ cm}\text{ long}")).
  vm_compute. lia.
Defined.

(** ** C9: [normalize_answer] is total *)

Lemma startswith_app (p r : pystr) : startswith p (p ++ r) = true.
Proof.
  induction p as [|x p IH]; [reflexivity|].
  simpl. rewrite chr_eqb_refl. exact IH.
Qed.

Lemma startswith_true (p s : pystr) :
  startswith p s = true -> s = p ++ skipn (length p) s.
Proof.
  revert s; induction p as [|x p IH]; intros s H; [reflexivity|].
  destruct s as [|y s]; [discriminate|].
  simpl in H. apply andb_true_iff in H. destruct H as [Hxy Hp].
  apply chr_eqb_true in Hxy. subst y. simpl. f_equal. apply IH, Hp.
Qed.

Lemma contains_app_r (sep s : pystr) : contains sep (s ++ sep) = true.
Proof.
  induction s as [|c t IH].
  - simpl. destruct sep; simpl.
    + reflexivity.
    + rewrite chr_eqb_refl.
      rewrite <- (app_nil_r sep) at 2. rewrite startswith_app. reflexivity.
  - cbn [app contains]. rewrite IH. apply orb_true_r.
Qed.

Lemma startswith_long (p s r : pystr) :
  length p <= length s -> startswith p (s ++ r) = startswith p s.
Proof.
  revert s; induction p as [|x p IH]; intros s Hlen; [reflexivity|].
  destruct s as [|y s]; [simpl in Hlen; lia|].
  simpl. rewrite IH by (simpl in Hlen; lia). reflexivity.
Qed.

Lemma split_trailing_sep (sep : pystr) :
  sep <> [] -> unbordered sep ->
  forall s, exists p ps, split sep (s ++ sep) = (p :: ps) ++ [[]].
Proof.
  intros Hsep Hub s.
  remember (length s) as n eqn:Hn.
  revert s Hn. induction n as [n IH] using lt_wf_ind. intros s Hn.
  destruct s as [|c t].
  - exists [], []. cbn [app].
    rewrite split_cons_match; auto.
    + rewrite skipn_all. reflexivity.
    + rewrite <- (app_nil_r sep) at 2. apply startswith_app.
  - destruct (startswith sep ((c :: t) ++ sep)) eqn:Hm.
    + destruct (Nat.lt_ge_cases (length (c :: t)) (length sep)) as [Hlt|Hge].
      * rewrite Hub in Hm by (auto; discriminate). discriminate.
      * rewrite startswith_long in Hm by exact Hge.
        pose proof (startswith_true _ _ Hm) as Hs.
        rewrite split_cons_match; auto; [|discriminate|].
        2:{ rewrite startswith_long by exact Hge. exact Hm. }
        rewrite skipn_app.
        replace (length sep - length (c :: t)) with 0 by lia.
        cbn [skipn].
        destruct (IH (length (skipn (length sep) (c :: t)))) with
          (s := skipn (length sep) (c :: t)) as (p & ps & Hsplit).
        -- subst n. rewrite length_skipn.
           destruct sep; [contradiction|]. simpl. lia.
        -- reflexivity.
        -- rewrite Hsplit. exists [], (p :: ps). reflexivity.
    + cbn [app] in Hm |- *. rewrite split_cons_other by exact Hm.
      destruct (IH (length t)) with (s := t) as (p & ps & Hsplit).
      * subst n. simpl. lia.
      * reflexivity.
      * rewrite Hsplit. exists (c :: p), ps. reflexivity.
Qed.

Ltac literals := unfold L; cbn [list_ascii_of_string].

Ltac decide_chars :=
  repeat (match goal with
          | |- context [chr_eqb ?x ?y] =>
              tryif is_var y then destruct (chr_eqb x y)
              else (let v := eval vm_compute in (chr_eqb x y) in
                    change (chr_eqb x y) with v)
          end; cbn [andb orb negb]).

Ltac solve_unbordered :=
  let u := fresh "u" in
  let Hne := fresh in
  let Hlen := fresh in
  intros u Hne Hlen; unfold L in *; cbn [list_ascii_of_string] in *;
  repeat (destruct u as [|? u];
          [ first [ congruence
                  | cbn [startswith app]; decide_chars; reflexivity ]
          | ]);
  cbn [length] in Hlen; lia.

Lemma sqrt_unbordered : unbordered (L "\sqrt").
Proof. solve_unbordered. Qed.

Lemma frac_unbordered : unbordered (L "\frac").
Proof. solve_unbordered. Qed.

Lemma _fix_sqrt_loop_trailing (l : list pystr) (acc : pystr) :
  _fix_sqrt_loop (l ++ [[]]) acc = Raise.
Proof.
  revert acc; induction l as [|x l IH]; intros acc; [reflexivity|].
  cbn [app _fix_sqrt_loop]. destruct x; [reflexivity|]. apply IH.
Qed.

Lemma _fix_fracs_loop_trailing (string : pystr) (l : list pystr) (acc : pystr) :
  _fix_fracs_loop string (l ++ [[]]) acc = Raise \/
  _fix_fracs_loop string (l ++ [[]]) acc = Ret string.
Proof.
  revert acc; induction l as [|x l IH]; intros acc; [left; reflexivity|].
  cbn [app _fix_fracs_loop]. destruct x as [|a [|b x]]; auto.
  - destruct (chr_eqb a "{"); auto.
  - destruct (chr_eqb a "{"); auto.
    destruct (negb (chr_eqb b "{")), (2 <? length (a :: b :: x)); auto.
Qed.

Lemma _fix_sqrt_trailing (s : pystr) : _fix_sqrt (s ++ L "\sqrt") = Raise.
Proof.
  unfold _fix_sqrt. rewrite contains_app_r. cbn [negb].
  destruct (split_trailing_sep (L "\sqrt")) with (s := s) as (p & ps & H).
  - discriminate.
  - exact sqrt_unbordered.
  - rewrite H. cbn [app tl hd]. apply _fix_sqrt_loop_trailing.
Qed.

Lemma _fix_fracs_trailing (s : pystr) :
  _fix_fracs (s ++ L "\frac") = Raise \/
  _fix_fracs (s ++ L "\frac") = Ret (s ++ L "\frac").
Proof.
  unfold _fix_fracs.
  destruct (split_trailing_sep (L "\frac")) with (s := s) as (p & ps & H).
  - discriminate.
  - exact frac_unbordered.
  - rewrite H. cbn [app tl hd].
    match goal with
    | |- context [1 <? ?n] =>
        replace (1 <? n) with true
          by (symmetry; apply Nat.ltb_lt; cbn [length]; rewrite length_app;
              simpl; lia)
    end.
    apply _fix_fracs_loop_trailing.
Qed.

(** C9: [normalize_answer] returns a string for every string.  When
    [_strip_string] is left by an exception the result is the answer after
    whitespace stripping and [\text{...}] unwrapping, nothing else applied;
    otherwise it is what [_strip_string] returns.  The helpers do raise:
    [_fix_sqrt] on every string that ends in [\sqrt], and [_fix_fracs] on a
    string that ends in [\frac] raises or returns it unchanged; the strings
    [x\sqrt] and [x\frac] are returned as they are. *)
Theorem C9_normalize_answer_total (s : pystr) :
  (exists r, normalize_answer (Some s) = Some r /\
     (_strip_string (unwrap_text s) = Raise -> r = unwrap_text s) /\
     (forall r', _strip_string (unwrap_text s) = Ret r' -> r = r')) /\
  _fix_sqrt (s ++ L "\sqrt") = Raise /\
  (_fix_fracs (s ++ L "\frac") = Raise \/
   _fix_fracs (s ++ L "\frac") = Ret (s ++ L "\frac")) /\
  _strip_string (L "x\sqrt") = Raise /\
  normalize_answer (Some (L "x\sqrt")) = Some (L "x\sqrt") /\
  _strip_string (L "x\frac") = Raise /\
  normalize_answer (Some (L "x\frac")) = Some (L "x\frac").
Proof.
  split; [|split; [apply _fix_sqrt_trailing|split; [apply _fix_fracs_trailing|]]].
  - unfold normalize_answer.
    destruct (_strip_string (unwrap_text s)) as [r|] eqn:Hs.
    + exists r. repeat split; [discriminate|].
      intros r' Hr'. inversion Hr'; reflexivity.
    + exists (unwrap_text s). repeat split. intros r' Hr'. discriminate.
  - repeat split; vm_compute; reflexivity.
Qed.

Lemma C9_normalize_answer_total_witness :
  exists r, normalize_answer (Some (L " x\sqrt ")) = Some r /\
            r = unwrap_text (L " x\sqrt ").
Proof.
  destruct (proj1 (C9_normalize_answer_total (L " x\sqrt ")))
    as (r & Hr & Hraise & _).
  exists r. split; [exact Hr|]. apply Hraise. vm_compute. reflexivity.
Defined.

(** ** The matcher *)

Ltac split_cases :=
  repeat match goal with
         | H : context [match ?x with _ => _ end] |- _ =>
             destruct x eqn:?; try discriminate
         | H : Some _ = Some _ |- _ => inversion H; subst; clear H
         end.

Lemma or_else_some {R : Type} (a b : option R) (res : R) :
  or_else a b = Some res -> a = Some res \/ b = Some res.
Proof. destruct a; simpl; auto. Qed.

Lemma rep_sound {R : Type} (p : ascii -> bool) (greedy : bool) (s : pystr) :
  forall (lo : nat) (k : pystr -> pystr -> option R) (res : R),
    rep p lo greedy s k = Some res ->
    exists m s', s = m ++ s' /\ forallb p m = true /\ lo <= length m
                 /\ k m s' = Some res.
Proof.
  induction s as [|c t IH]; intros lo k res H.
  - destruct lo; [|discriminate]. exists [], []. simpl in *. auto.
  - cbn [rep] in H. destruct lo as [|lo'].
    + assert (Hhere : k [] (c :: t) = Some res ->
                      exists m s', c :: t = m ++ s' /\ forallb p m = true
                                   /\ 0 <= length m /\ k m s' = Some res).
      { intros Hk. exists [], (c :: t). simpl. auto with arith. }
      assert (Hmore : p c = true ->
                      rep p 0 greedy t (fun m s' => k (c :: m) s') = Some res ->
                      exists m s', c :: t = m ++ s' /\ forallb p m = true
                                   /\ 0 <= length m /\ k m s' = Some res).
      { intros Hp Hr. apply IH in Hr. destruct Hr as (m & s' & -> & Hm & _ & Hk).
        exists (c :: m), s'. simpl. rewrite Hp, Hm. auto with arith. }
      destruct greedy.
      * destruct (p c) eqn:Hp; [|auto].
        apply or_else_some in H. destruct H; auto.
      * apply or_else_some in H. destruct H as [H|H]; [auto|].
        destruct (p c) eqn:Hp; [auto|discriminate].
    + destruct (p c) eqn:Hp; [|discriminate].
      apply IH in H. destruct H as (m & s' & -> & Hm & Hlo & Hk).
      exists (c :: m), s'. simpl. rewrite Hp, Hm. auto with arith.
Qed.

(** Every match the matcher finds is a text the pattern denotes, in front of
    the input that the continuation receives. *)
Lemma rx_sound {R : Type} (r : re) :
  forall (bos : bool) (s : pystr) (caps : captures)
         (k : pystr -> pystr -> captures -> option R) (res : R),
    rx r bos s caps k = Some res ->
    exists m s' caps', s = m ++ s' /\ den r bos m s' /\ k m s' caps' = Some res.
Proof.
  induction r as [l|p|p lo g|r1 IH1|r1 IH1 r2 IH2|r1 IH1 r2 IH2|i r1 IH1| |];
    intros bos s caps k res H; cbn [rx] in H; cbn [den].
  - unfold strip_prefix in H. destruct (startswith l s) eqn:Hm; [|discriminate].
    exists l, (skipn (length l) s), caps. split; [apply startswith_true, Hm|auto].
  - destruct s as [|c t]; [discriminate|]. destruct (p c) eqn:Hp; [|discriminate].
    exists [c], t, caps. split; [reflexivity|]. split; [exists c; auto|exact H].
  - apply rep_sound in H. destruct H as (m & s' & -> & Hm & Hlo & Hk).
    exists m, s', caps. auto.
  - apply or_else_some in H. destruct H as [H|H].
    + apply IH1 in H. destruct H as (m & s' & caps' & -> & Hd & Hk).
      exists m, s', caps'. auto.
    + exists [], s, caps. auto.
  - apply IH1 in H. destruct H as (m1 & s1 & caps1 & -> & Hd1 & H).
    apply IH2 in H. destruct H as (m2 & s2 & caps2 & -> & Hd2 & Hk).
    exists (m1 ++ m2), s2, caps2. split; [apply app_assoc|].
    split; [exists m1, m2; auto|exact Hk].
  - apply or_else_some in H. destruct H as [H|H].
    + apply IH1 in H. destruct H as (m & s' & caps' & -> & Hd & Hk).
      exists m, s', caps'. auto.
    + apply IH2 in H. destruct H as (m & s' & caps' & -> & Hd & Hk).
      exists m, s', caps'. auto.
  - apply IH1 in H. destruct H as (m & s' & caps' & -> & Hd & Hk).
    exists m, s', ((i, m) :: caps'). auto.
  - destruct bos; [|discriminate]. exists [], s, caps. auto.
  - destruct s as [|c [|c' t]]; try discriminate.
    + exists [], [], caps. auto.
    + destruct (chr_eqb c "010") eqn:Hc; [|discriminate].
      apply chr_eqb_true in Hc. subst c. exists [], [nl], caps. auto.
Qed.

Lemma match_at_sound (r : re) (bos : bool) (s m s' : pystr) (caps : captures) :
  match_at r bos s = Some (m, s', caps) -> s = m ++ s' /\ den r bos m s'.
Proof.
  unfold match_at. intros H. apply rx_sound in H.
  destruct H as (m0 & s0 & caps0 & -> & Hd & Hk). inversion Hk; subst. auto.
Qed.

Lemma sub_go_skip (r : re) (repl : captures -> pystr) (s : pystr) (k : nat) :
  sub_go r repl false s k = sub_go r repl false (skipn k s) 0.
Proof.
  revert k; induction s as [|c t IH]; intros [|k]; try reflexivity.
  cbn [sub_go skipn]. apply IH.
Qed.

Lemma skipn_matched (c : ascii) (t m s' : pystr) (k : nat) :
  c :: t = m ++ s' -> length m = S k -> skipn k t = s'.
Proof.
  intros Heq Hlen. destruct m as [|x m]; [discriminate|].
  simpl in Heq, Hlen. inversion Heq; subst. inversion Hlen; subst.
  rewrite skipn_app, skipn_all, Nat.sub_diag. reflexivity.
Qed.

(** A substitution whose every replacement is shorter than the match it
    replaces shortens the string, or leaves it as it is. *)
Lemma sub_go_shrinks (r : re) (repl : captures -> pystr) :
  (forall bos s m s' caps,
      match_at r bos s = Some (m, s', caps) -> length (repl caps) < length m) ->
  forall n s bos, length s <= n ->
    length (sub_go r repl bos s 0) <= length s /\
    (length (sub_go r repl bos s 0) = length s -> sub_go r repl bos s 0 = s).
Proof.
  intros Hshort. induction n as [|n IH]; intros s bos Hn.
  - destruct s; [|simpl in Hn; lia]. cbn [sub_go].
    destruct (match_at r bos []) as [[[m s'] caps]|] eqn:Hm; [|simpl; auto].
    pose proof (Hshort _ _ _ _ _ Hm) as Hlt.
    apply match_at_sound in Hm. destruct Hm as [Hm _].
    symmetry in Hm. apply app_eq_nil in Hm. destruct Hm; subst. simpl in Hlt; lia.
  - destruct s as [|c t].
    + apply IH. simpl; lia.
    + cbn [sub_go].
      destruct (match_at r bos (c :: t)) as [[[m s'] caps]|] eqn:Hm.
      * pose proof (Hshort _ _ _ _ _ Hm) as Hlt.
        apply match_at_sound in Hm. destruct Hm as [Hm _].
        destruct (length m) as [|k] eqn:Hlen; [lia|].
        rewrite sub_go_skip. rewrite (skipn_matched _ _ _ _ _ Hm Hlen).
        assert (Hs' : length s' <= n).
        { apply (f_equal (@length ascii)) in Hm. rewrite length_app in Hm.
          simpl in Hm, Hn. lia. }
        destruct (IH s' false Hs') as [Hle _].
        apply (f_equal (@length ascii)) in Hm. rewrite length_app in Hm.
        rewrite length_app. simpl in Hm |- *. split; lia.
      * destruct (IH t false) as [Hle Heq]; [simpl in Hn; lia|].
        simpl. split; [lia|]. intros H. f_equal. apply Heq. lia.
Qed.

(** ** C10: the comma-stripping loop terminates *)

Lemma comma_match_shorter (bos : bool) (s m s' : pystr) (caps : captures) :
  match_at re_comma bos s = Some (m, s', caps) ->
  length (group 1 caps ++ group 3 caps ++ group 4 caps) < length m.
Proof.
  unfold match_at, re_comma.
  cbn [rx rep strip_prefix]. unfold or_else.
  intros H. split_cases; cbn; lia.
Qed.

Lemma comma_pass_shrinks (expr : pystr) :
  length (comma_pass expr) <= length expr /\
  (comma_pass expr <> expr -> length (comma_pass expr) < length expr).
Proof.
  unfold comma_pass, re_sub.
  destruct (sub_go_shrinks re_comma
              (fun m => group 1 m ++ group 3 m ++ group 4 m)
              comma_match_shorter (length expr) expr true (le_n _))
    as [Hle Heq].
  split; [exact Hle|].
  intros Hne.
  destruct (Nat.eq_dec
              (length (sub_go re_comma
                         (fun m => group 1 m ++ group 3 m ++ group 4 m)
                         true expr 0))
              (length expr)) as [Hlen|Hlen].
  - elim Hne. apply Heq, Hlen.
  - lia.
Qed.

Lemma comma_loop_returns (fuel : nat) :
  forall expr, length expr < fuel ->
    exists r, comma_loop fuel expr = Some r /\ comma_pass r = r
              /\ length r <= length expr.
Proof.
  induction fuel as [|fuel IH]; intros expr Hlen; [lia|].
  cbn [comma_loop].
  destruct (str_eqb (comma_pass expr) expr) eqn:Heq.
  - apply str_eqb_true in Heq. exists (comma_pass expr).
    split; [reflexivity|]. rewrite Heq. split; [exact Heq|lia].
  - apply str_eqb_false in Heq.
    destruct (comma_pass_shrinks expr) as [_ Hlt]. specialize (Hlt Heq).
    destruct (IH (comma_pass expr)) as (r & Hr & Hfix & Hle); [lia|].
    exists r. split; [exact Hr|]. split; [exact Hfix|lia].
Qed.

Lemma comma_loop_more_fuel (fuel : nat) :
  forall expr r fuel', comma_loop fuel expr = Some r -> fuel <= fuel' ->
                       comma_loop fuel' expr = Some r.
Proof.
  induction fuel as [|fuel IH]; intros expr r fuel' H Hle; [discriminate|].
  destruct fuel' as [|fuel']; [lia|].
  cbn [comma_loop] in *.
  destruct (str_eqb (comma_pass expr) expr); [exact H|].
  apply (IH _ _ _ H). lia.
Qed.

Lemma _strip_properly_formatted_commas_fixpoint (expr : pystr) :
  comma_loop (S (length expr)) expr
    = Some (_strip_properly_formatted_commas expr) /\
  comma_pass (_strip_properly_formatted_commas expr)
    = _strip_properly_formatted_commas expr /\
  length (_strip_properly_formatted_commas expr) <= length expr.
Proof.
  unfold _strip_properly_formatted_commas.
  destruct (comma_loop_returns (S (length expr)) expr (Nat.lt_succ_diag_r _))
    as (r & Hr & Hfix & Hle).
  rewrite Hr. auto.
Qed.

(** C10: a pass of the comma substitution that changes the string makes it
    strictly shorter, so the loop of [_strip_properly_formatted_commas]
    breaks after at most as many passes as the string has characters: with
    any number of passes above the length it returns, and always the same
    string, on which a further pass changes nothing.  [split_tuple], which
    starts with this loop and is otherwise free of loops, returns a list for
    every string. *)
Theorem C10_comma_loop_terminates (expr : pystr) :
  (comma_pass expr <> expr -> length (comma_pass expr) < length expr) /\
  (exists r,
     (forall fuel, length expr < fuel -> comma_loop fuel expr = Some r) /\
     comma_pass r = r /\
     _strip_properly_formatted_commas expr = r /\
     split_tuple expr =
       if length r =? 0 then []
       else if (2 <? length r)
               && contains [hd nl r] TUPLE_CHARS
               && contains [last r nl] TUPLE_CHARS
               && forallb (fun ch => negb (contains [ch] (interior r)))
                          TUPLE_CHARS
            then map strip (split (L ",") (interior r))
            else [r]).
Proof.
  split; [apply comma_pass_shrinks|].
  destruct (_strip_properly_formatted_commas_fixpoint expr) as (Hr & Hfix & _).
  exists (_strip_properly_formatted_commas expr).
  repeat split; try assumption; try reflexivity.
  intros fuel Hfuel. apply (comma_loop_more_fuel _ _ _ _ Hr). lia.
Qed.

Lemma C10_comma_loop_terminates_witness :
  length (comma_pass (L "1,234,567")) < length (L "1,234,567").
Proof.
  apply (proj1 (C10_comma_loop_terminates (L "1,234,567"))).
  vm_compute. discriminate.
Defined.

(** ** Numerals hold no comma *)

Lemma In_lstrip_by (p : ascii -> bool) (c : ascii) (s : pystr) :
  In c s -> p c = false -> In c (lstrip_by p s).
Proof.
  intros Hin Hp. induction s as [|x s IH]; [contradiction|].
  cbn [lstrip_by]. destruct (p x) eqn:Hx; [|exact Hin].
  destruct Hin as [->|Hin]; [congruence|]. apply IH, Hin.
Qed.

Lemma In_strip_by (p : ascii -> bool) (c : ascii) (s : pystr) :
  In c s -> p c = false -> In c (strip_by p s).
Proof.
  intros Hin Hp. unfold strip_by.
  apply in_rev. rewrite rev_involutive.
  apply In_lstrip_by; [|exact Hp].
  apply in_rev. rewrite rev_involutive.
  apply In_lstrip_by; assumption.
Qed.

Lemma numeral_char_digit (c : ascii) : isdigit c = true -> numeral_char c = true.
Proof. intros H. unfold numeral_char. rewrite H. reflexivity. Qed.

Lemma digitpart_go_chars (n : nat) :
  forall s acc k v k' rest,
    length s <= n ->
    digitpart_go s acc k = (v, k', rest) ->
    exists pre, s = pre ++ rest /\ forallb numeral_char pre = true.
Proof.
  induction n as [|n IH]; intros s acc k v k' rest Hlen H.
  - destruct s; [|simpl in Hlen; lia]. inversion H; subst. exists []. auto.
  - destruct s as [|c t]; [inversion H; subst; exists []; auto|].
    cbn [digitpart_go] in H.
    destruct (isdigit c) eqn:Hc.
    + apply IH in H; [|simpl in Hlen; lia].
      destruct H as (pre & -> & Hpre). exists (c :: pre).
      split; [reflexivity|]. simpl. rewrite numeral_char_digit; auto.
    + destruct (chr_eqb c "_") eqn:Hu;
        [|inversion H; subst; exists []; auto].
      destruct t as [|d t']; [inversion H; subst; exists []; auto|].
      destruct (isdigit d) eqn:Hd; [|inversion H; subst; exists []; auto].
      apply IH in H; [|simpl in Hlen; lia].
      destruct H as (pre & -> & Hpre). exists (c :: d :: pre).
      split; [reflexivity|]. simpl.
      rewrite (numeral_char_digit d Hd), Hpre.
      unfold numeral_char. rewrite Hu. rewrite !orb_true_r. reflexivity.
Qed.

Lemma digitpart_from_chars (acc : Z) (s : pystr) (v : Z) (k : nat)
    (rest : pystr) :
  digitpart_from acc s = Some (v, k, rest) ->
  exists pre, s = pre ++ rest /\ forallb numeral_char pre = true.
Proof.
  unfold digitpart_from. destruct s as [|c t]; [discriminate|].
  destruct (isdigit c) eqn:Hc; [|discriminate].
  intros H. inversion H as [H'].
  apply (digitpart_go_chars (length t)) in H'; [|lia].
  destruct H' as (pre & -> & Hpre). exists (c :: pre).
  split; [reflexivity|]. simpl. rewrite numeral_char_digit; auto.
Qed.

Lemma sign_chars (s r : pystr) (neg : bool) :
  sign s = (neg, r) ->
  exists pre, s = pre ++ r /\ forallb numeral_char pre = true.
Proof.
  unfold sign. destruct s as [|c t]; [intros H; inversion H; exists []; auto|].
  destruct (chr_eqb c "-") eqn:Hm.
  - intros H; inversion H; subst. exists [c]. split; [reflexivity|].
    simpl. unfold numeral_char. rewrite Hm. rewrite !orb_true_r. reflexivity.
  - destruct (chr_eqb c "+") eqn:Hp.
    + intros H; inversion H; subst. exists [c]. split; [reflexivity|].
      simpl. unfold numeral_char. rewrite Hp. rewrite !orb_true_r. reflexivity.
    + intros H; inversion H; subst. exists []. auto.
Qed.

Lemma float_exponent_chars (s : pystr) (e : Z) :
  float_exponent s = Some e -> forallb numeral_char s = true.
Proof.
  unfold float_exponent. destruct s as [|c t]; [reflexivity|].
  destruct (chr_eqb c "e" || chr_eqb c "E") eqn:Hc; [|discriminate].
  destruct (sign t) as [neg r] eqn:Hs.
  destruct (digitpart_from 0 r) as [[[v k] rest]|] eqn:Hd; [|discriminate].
  destruct rest; [|discriminate]. intros _.
  apply sign_chars in Hs. destruct Hs as (pre & -> & Hpre).
  apply digitpart_from_chars in Hd. destruct Hd as (pre' & -> & Hpre').
  simpl. rewrite !forallb_app, Hpre, Hpre'. simpl.
  unfold numeral_char. apply orb_true_iff in Hc. destruct Hc as [Hc|Hc];
    rewrite Hc; rewrite !orb_true_r; reflexivity.
Qed.

Lemma option_map_some {A B : Type} (f : A -> B) (o : option A) (b : B) :
  option_map f o = Some b -> exists a, o = Some a.
Proof. destruct o; [eauto|discriminate]. Qed.

Lemma numeral_char_dot (c : ascii) : chr_eqb c "." = true -> numeral_char c = true.
Proof.
  intros H. unfold numeral_char. rewrite H. rewrite !orb_true_r. reflexivity.
Qed.

Lemma float_number_chars (s : pystr) (v : Z * Z) :
  float_number s = Some v -> forallb numeral_char s = true.
Proof.
  unfold float_number.
  destruct (digitpart_from 0 s) as [[[ip k] r1]|] eqn:Hd.
  - apply digitpart_from_chars in Hd. destruct Hd as (pre & -> & Hpre).
    rewrite forallb_app, Hpre. cbn [andb].
    destruct r1 as [|c r2]; [reflexivity|].
    destruct (chr_eqb c ".") eqn:Hc.
    + destruct (digitpart_from ip r2) as [[[m nf] r3]|] eqn:Hf.
      * apply digitpart_from_chars in Hf. destruct Hf as (pre' & -> & Hpre').
        intros H. apply option_map_some in H. destruct H as (e & He).
        apply float_exponent_chars in He.
        simpl. rewrite forallb_app, Hpre', He, (numeral_char_dot c Hc).
        reflexivity.
      * intros H. apply option_map_some in H. destruct H as (e & He).
        apply float_exponent_chars in He.
        simpl. rewrite He, (numeral_char_dot c Hc). reflexivity.
    + intros H. apply option_map_some in H. destruct H as (e & He).
      apply float_exponent_chars in He. exact He.
  - destruct s as [|c r2]; [discriminate|].
    destruct (chr_eqb c ".") eqn:Hc; [|discriminate].
    destruct (digitpart_from 0 r2) as [[[m nf] r3]|] eqn:Hf; [|discriminate].
    apply digitpart_from_chars in Hf. destruct Hf as (pre' & -> & Hpre').
    intros H. apply option_map_some in H. destruct H as (e & He).
    apply float_exponent_chars in He.
    simpl. rewrite forallb_app, Hpre', He, (numeral_char_dot c Hc). reflexivity.
Qed.

(** A string that [float] accepts holds no comma. *)
Lemma py_float_no_comma (s : pystr) (x : pyfloat) :
  py_float s = Ret x -> ~ In ","%char s.
Proof.
  unfold py_float. intros H Hin.
  apply (In_strip_by isspace_numeral) in Hin; [|reflexivity].
  destruct (sign (strip_by isspace_numeral s)) as [neg r] eqn:Hs.
  apply sign_chars in Hs. destruct Hs as (pre & Hs & Hpre).
  rewrite Hs in Hin. apply in_app_or in Hin.
  destruct Hin as [Hin|Hin].
  { rewrite forallb_forall in Hpre. apply Hpre in Hin. discriminate. }
  assert (Hword : forall w, str_eqb (lower r) (L w) = true ->
                            ~ In ","%char (L w) -> False).
  { intros w Hw Hnot. apply str_eqb_true in Hw. apply Hnot.
    rewrite <- Hw. unfold lower.
    change ","%char with (lower_chr ","). apply in_map. exact Hin. }
  destruct (str_eqb (lower r) (L "inf")) eqn:H1.
  { apply (Hword _ H1). vm_compute. intuition discriminate. }
  destruct (str_eqb (lower r) (L "infinity")) eqn:H2.
  { apply (Hword _ H2). vm_compute. intuition discriminate. }
  cbn [orb] in H.
  destruct (str_eqb (lower r) (L "nan")) eqn:H3.
  { apply (Hword _ H3). vm_compute. intuition discriminate. }
  destruct (float_number r) as [v|] eqn:Hf; [|discriminate].
  apply float_number_chars in Hf. rewrite forallb_forall in Hf.
  apply Hf in Hin. discriminate.
Qed.

(** ** The comma passes remove commas only *)

Lemma sub_go_filter (f : ascii -> bool) (r : re) (repl : captures -> pystr) :
  (forall bos s m s' caps,
      match_at r bos s = Some (m, s', caps) ->
      filter f (repl caps) = filter f m) ->
  forall n s bos, length s <= n ->
    filter f (sub_go r repl bos s 0) = filter f s.
Proof.
  intros Hsame. induction n as [|n IH]; intros s bos Hn.
  - destruct s; [|simpl in Hn; lia]. cbn [sub_go].
    destruct (match_at r bos []) as [[[m s'] caps]|] eqn:Hm; [|reflexivity].
    rewrite (Hsame _ _ _ _ _ Hm).
    apply match_at_sound in Hm. destruct Hm as [Hm _].
    symmetry in Hm. apply app_eq_nil in Hm. destruct Hm; subst. reflexivity.
  - destruct s as [|c t]; [apply IH; simpl; lia|].
    cbn [sub_go].
    destruct (match_at r bos (c :: t)) as [[[m s'] caps]|] eqn:Hm.
    + pose proof (Hsame _ _ _ _ _ Hm) as Hf.
      apply match_at_sound in Hm. destruct Hm as [Hm _].
      destruct (length m) as [|k] eqn:Hlen.
      * apply length_zero_iff_nil in Hlen. subst m.
        rewrite filter_app, Hf. cbn [filter app].
        rewrite (IH t false) by (simpl in Hn; lia). reflexivity.
      * rewrite sub_go_skip, (skipn_matched _ _ _ _ _ Hm Hlen).
        rewrite filter_app, Hf, IH.
        -- rewrite Hm, filter_app. reflexivity.
        -- apply (f_equal (@length ascii)) in Hm. rewrite length_app in Hm.
           simpl in Hm, Hn. lia.
    + cbn [filter]. rewrite (IH t false) by (simpl in Hn; lia). reflexivity.
Qed.

Lemma comma_match_filter (bos : bool) (s m s' : pystr) (caps : captures) :
  match_at re_comma bos s = Some (m, s', caps) ->
  filter not_comma (group 1 caps ++ group 3 caps ++ group 4 caps)
    = filter not_comma m.
Proof.
  unfold match_at, re_comma.
  cbn [rx rep strip_prefix]. unfold or_else.
  intros H. split_cases; reflexivity.
Qed.

Lemma comma_pass_filter (expr : pystr) :
  filter not_comma (comma_pass expr) = filter not_comma expr.
Proof.
  unfold comma_pass, re_sub.
  apply (sub_go_filter not_comma re_comma _ comma_match_filter (length expr)).
  auto.
Qed.

Lemma comma_loop_filter (fuel : nat) :
  forall expr r, comma_loop fuel expr = Some r ->
                 filter not_comma r = filter not_comma expr.
Proof.
  induction fuel as [|fuel IH]; intros expr r H; [discriminate|].
  cbn [comma_loop] in H.
  destruct (str_eqb (comma_pass expr) expr).
  - inversion H; subst. apply comma_pass_filter.
  - rewrite (IH _ _ H). apply comma_pass_filter.
Qed.

Lemma replace_comma (s : pystr) : replace (L ",") [] s = filter not_comma s.
Proof.
  induction s as [|c t IH]; [reflexivity|].
  destruct (startswith (L ",") (c :: t)) eqn:Hm.
  - rewrite replace_cons_match by (auto; discriminate).
    unfold L in *. cbn [list_ascii_of_string length skipn app startswith] in *.
    rewrite andb_true_r in Hm. apply chr_eqb_true in Hm. subst c.
    rewrite IH. reflexivity.
  - rewrite replace_cons_other by exact Hm. rewrite IH.
    unfold L in Hm. cbn [list_ascii_of_string startswith] in Hm.
    rewrite andb_true_r in Hm. cbn [filter]. unfold not_comma at 2.
    unfold chr_eqb in *. rewrite Ascii.eqb_sym, Hm. reflexivity.
Qed.

Lemma filter_not_comma_id (s : pystr) :
  ~ In ","%char s -> filter not_comma s = s.
Proof.
  induction s as [|c t IH]; intros Hnot; [reflexivity|].
  cbn [filter]. unfold not_comma at 1.
  destruct (chr_eqb c ",") eqn:Hc.
  - apply chr_eqb_true in Hc. subst c. elim Hnot. left; reflexivity.
  - cbn [negb]. f_equal. apply IH. intros Hin. apply Hnot. right; exact Hin.
Qed.

(** ** C8: [_normalize] returns a string *)

Lemma near_integer_finite (x : pyfloat) (b : bool) :
  near_integer x = Ret b -> exists q, x = Fin q.
Proof. destruct x; simpl; intros H; [eauto|discriminate|discriminate]. Qed.

(** Where [_str_is_int] holds, [_str_to_int] returns: the commas that
    [replace] removes are those the comma loop removed. *)
Lemma _str_to_int_returns (x : pystr) :
  _str_is_int x = true -> exists n, _str_to_int x = Ret n.
Proof.
  unfold _str_is_int, _str_to_int. intros H.
  destruct (py_float (_strip_properly_formatted_commas x)) as [f|] eqn:Hf;
    [|discriminate].
  cbn [bind try_except] in H.
  destruct (near_integer f) as [b|] eqn:Hn; [|discriminate].
  apply near_integer_finite in Hn. destruct Hn as (q & ->).
  assert (Heq : replace (L ",") [] x = _strip_properly_formatted_commas x).
  { rewrite replace_comma.
    destruct (_strip_properly_formatted_commas_fixpoint x) as (Hloop & _).
    rewrite <- (comma_loop_filter _ _ _ Hloop).
    apply filter_not_comma_id. apply (py_float_no_comma _ _ Hf). }
  rewrite Heq, Hf. cbn [bind py_trunc]. eauto.
Qed.

Lemma coerce_float_returns (expr : pystr) :
  exists r, coerce_float expr = Ret r.
Proof.
  unfold coerce_float, _is_float.
  destruct (py_float expr) as [x|] eqn:Hx; cbn [bind try_except]; [|eauto].
  unfold _is_int. destruct (near_integer x) as [b|] eqn:Hb;
    cbn [try_except]; [|eauto].
  destruct b; [|eauto].
  apply near_integer_finite in Hb. destruct Hb as (q & ->).
  cbn [bind py_round]. eauto.
Qed.

Lemma coerce_int_returns (expr : pystr) :
  exists r, coerce_int expr = Ret r.
Proof.
  unfold coerce_int. destruct (_str_is_int expr) eqn:Hint; [|eauto].
  destruct (_str_to_int_returns expr Hint) as (n & ->). cbn [bind]. eauto.
Qed.

Lemma _normalize_returns (E : Engine) (s : pystr) :
  exists r, _normalize E (Some s) = Ret (Some r).
Proof.
  unfold _normalize.
  destruct (coerce_float_returns (normalize_rewrite s)) as (e2 & ->).
  cbn [bind].
  destruct (coerce_int_returns (normalize_cleanup (unlatex E e2))) as (e4 & ->).
  cbn [bind]. eauto.
Qed.

(** C8: for every string, [_normalize] returns a string: it does not raise
    (the conversions [float], [round] and [int] it makes outside a [try] are
    guarded by the tests before them) and it does not return [None].  Hence
    [grade_answer] never decides at the test [ground_truth_normalized is
    None]. *)
Theorem C8_normalize_returns_string (E : Engine) (s : pystr) :
  (exists r, _normalize E (Some s) = Ret (Some r)) /\
  (forall given verdict,
      grade_answer_at E given s <> Ret (verdict, TruthAbsent)).
Proof.
  split; [apply _normalize_returns|].
  intros given verdict. unfold grade_answer_at.
  destruct given as [given|]; [|discriminate].
  destruct (str_eqb given []); [discriminate|].
  destruct (option_eqb _ _); [discriminate|].
  destruct (_normalize_returns E s) as (tn & ->).
  destruct (_normalize_returns E given) as (gn & ->).
  cbn [bind].
  destruct (option_eqb _ _); [discriminate|].
  destruct (length gn =? 0); [discriminate|].
  match goal with
  | |- (shape <- ?c ;; _) <> _ => destruct c as [[|]|]
  end; cbn [bind]; try discriminate.
  destruct (negb _); [discriminate|].
  destruct (pairs_correct _ _ _) as [[b|]|]; cbn [bind]; discriminate.
Qed.

(** ** The matcher finds a match whenever there is one *)

Lemma or_else_l {R : Type} (a b : option R) :
  (exists res, a = Some res) -> exists res, or_else a b = Some res.
Proof. intros (res & ->). simpl. eauto. Qed.

Lemma or_else_r {R : Type} (a b : option R) :
  (exists res, b = Some res) -> exists res, or_else a b = Some res.
Proof. intros (res & ->). destruct a; simpl; eauto. Qed.

Lemma rep_complete {R : Type} (p : ascii -> bool) (greedy : bool) (m : pystr) :
  forall (lo : nat) (s' : pystr) (k : pystr -> pystr -> option R),
    forallb p m = true -> lo <= length m ->
    (exists res, k m s' = Some res) ->
    exists res, rep p lo greedy (m ++ s') k = Some res.
Proof.
  induction m as [|c m IH]; intros lo s' k Hp Hlo Hk.
  - simpl in Hlo. assert (lo = 0) by lia. subst lo. cbn [app].
    destruct s' as [|c t]; cbn [rep]; [exact Hk|].
    destruct greedy.
    + destruct (p c); [apply or_else_r|]; exact Hk.
    + apply or_else_l; exact Hk.
  - cbn [forallb] in Hp. apply andb_true_iff in Hp. destruct Hp as [Hc Hm].
    cbn [app rep]. rewrite Hc.
    assert (Hrec : forall lo', lo' <= length m ->
              exists res, rep p lo' greedy (m ++ s')
                              (fun m0 s0 => k (c :: m0) s0) = Some res).
    { intros lo' Hlo'. apply IH; auto. }
    destruct lo as [|lo'].
    + destruct greedy.
      * apply or_else_l. apply Hrec. lia.
      * destruct (k [] (c :: m ++ s')) eqn:Hhere; cbn [or_else]; [eauto|].
        apply Hrec. lia.
    + apply Hrec. simpl in Hlo. lia.
Qed.

Lemma startswith_strip_prefix (l rest : pystr) :
  strip_prefix l (l ++ rest) = Some rest.
Proof.
  unfold strip_prefix. rewrite startswith_app.
  rewrite skipn_app, skipn_all, Nat.sub_diag. reflexivity.
Qed.

(** If the pattern denotes a text in front of the input and the continuation
    accepts it, the matcher returns a match (that one or an earlier
    alternative). *)
Lemma rx_complete {R : Type} (r : re) :
  forall (bos : bool) (m s' : pystr) (caps : captures)
         (k : pystr -> pystr -> captures -> option R),
    den r bos m s' ->
    (forall caps', exists res, k m s' caps' = Some res) ->
    exists res, rx r bos (m ++ s') caps k = Some res.
Proof.
  induction r as [l|p|p lo g|r1 IH1|r1 IH1 r2 IH2|r1 IH1 r2 IH2|i r1 IH1| |];
    intros bos m s' caps k Hd Hk; cbn [den] in Hd; cbn [rx].
  - subst m. rewrite startswith_strip_prefix. apply Hk.
  - destruct Hd as (c & -> & Hp). cbn [app]. rewrite Hp. apply Hk.
  - destruct Hd as [Hp Hlo]. apply rep_complete; auto.
  - destruct Hd as [->|Hd].
    + apply or_else_r. apply Hk.
    + apply or_else_l. apply IH1; auto.
  - destruct Hd as (m1 & m2 & -> & Hd1 & Hd2).
    rewrite <- app_assoc. apply IH1; [exact Hd1|].
    intros caps1. apply IH2; [exact Hd2|].
    intros caps2. apply Hk.
  - destruct Hd as [Hd|Hd].
    + apply or_else_l. apply IH1; auto.
    + apply or_else_r. apply IH2; auto.
  - apply IH1; [exact Hd|]. intros caps'. apply Hk.
  - destruct Hd as [-> ->]. apply Hk.
  - destruct Hd as [-> [->| ->]]; cbn [app]; [apply Hk|].
    unfold nl. rewrite chr_eqb_refl. apply Hk.
Qed.

Lemma match_at_complete (r : re) (bos : bool) (m s' : pystr) :
  den r bos m s' -> exists res, match_at r bos (m ++ s') = Some res.
Proof.
  intros Hd. unfold match_at. apply rx_complete; [exact Hd|]. eauto.
Qed.

Lemma search_go_some (r : re) (s : pystr) :
  forall bos,
    (exists res, search_go r bos s = Some res) <->
    (exists pre m s', s = pre ++ m ++ s' /\ den r (bos && is_nil pre) m s').
Proof.
  induction s as [|c t IH]; intros bos; cbn [search_go].
  - split.
    + intros (res & H).
      destruct (match_at r bos []) as [[[m s'] caps]|] eqn:Hm; [|discriminate].
      apply match_at_sound in Hm. destruct Hm as [Hm Hd].
      exists [], m, s'. cbn [app is_nil]. rewrite andb_true_r. auto.
    + intros (pre & m & s' & Heq & Hd).
      symmetry in Heq. apply app_eq_nil in Heq. destruct Heq as [-> Heq].
      cbn [is_nil] in Hd. rewrite andb_true_r in Hd.
      destruct (match_at_complete _ _ _ _ Hd) as (res & Hres).
      rewrite Heq in Hres. rewrite Hres. eauto.
  - split.
    + intros (res & H).
      destruct (match_at r bos (c :: t)) as [[[m s'] caps]|] eqn:Hm.
      * apply match_at_sound in Hm. destruct Hm as [Hm Hd].
        exists [], m, s'. cbn [app is_nil]. rewrite andb_true_r. auto.
      * destruct (proj1 (IH false) (ex_intro _ res H))
          as (pre & m & s' & -> & Hd).
        exists (c :: pre), m, s'. cbn [is_nil]. rewrite andb_false_r.
        split; [reflexivity|exact Hd].
    + intros (pre & m & s' & Heq & Hd).
      destruct (match_at r bos (c :: t)) eqn:Hm; [eauto|].
      destruct pre as [|x pre].
      * cbn [app is_nil] in *. rewrite andb_true_r in Hd.
        destruct (match_at_complete _ _ _ _ Hd) as (res & Hres).
        rewrite <- Heq in Hres. congruence.
      * cbn [is_nil] in Hd. rewrite andb_false_r in Hd.
        apply IH. inversion Heq; subst.
        exists pre, m, s'. split; [reflexivity|exact Hd].
Qed.

(** [re.search] finds a match exactly when the string holds a text the
    pattern denotes. *)
Lemma matches_spec (r : re) (s : pystr) :
  matches r s = true <->
  exists pre m s', s = pre ++ m ++ s' /\ den r (is_nil pre) m s'.
Proof.
  unfold matches, re_search.
  pose proof (search_go_some r s true) as H. cbn [andb] in H.
  rewrite <- H.
  destruct (search_go r true s) as [[[m s'] caps]|].
  - split; eauto.
  - split; [discriminate|]. intros (res & Hres). discriminate.
Qed.

(** ** C3: unreduced fractions *)

Lemma den_opt_separator (bos : bool) (sep rest : pystr) :
  separator sep -> den (Opt (Cls not_newline)) bos sep rest.
Proof.
  intros [->|(c & -> & Hc)]; cbn [den]; [left; reflexivity|].
  right. exists c. auto.
Qed.

(** A string of the shape the specification describes matches the pattern
    of [_is_frac]. *)
Lemma frac_shape_is_frac (s : pystr) : frac_shape s -> _is_frac s = true.
Proof.
  intros (sgn & num & sep1 & d & dn & sep2 & -> & Hsgn & Hne & Hnum & Hsep1
          & Hd & Hdn & Hsep2).
  unfold _is_frac. apply matches_spec.
  exists [], (sgn ++ num ++ sep1 ++ L "/" ++ [d] ++ dn ++ sep2), [].
  split; [cbn [app]; rewrite app_nil_r; reflexivity|].
  unfold re_frac. cbn [is_nil].
  exists [], (sgn ++ num ++ sep1 ++ L "/" ++ [d] ++ dn ++ sep2).
  split; [reflexivity|]. split; [cbn [den]; auto|].
  exists sgn, (num ++ sep1 ++ L "/" ++ [d] ++ dn ++ sep2).
  split; [reflexivity|].
  split; [cbn [den]; destruct Hsgn as [->| ->]; auto|].
  exists num, (sep1 ++ L "/" ++ [d] ++ dn ++ sep2).
  split; [reflexivity|].
  split.
  { cbn [den]. split; [exact Hnum|]. destruct num; [contradiction|simpl; lia]. }
  exists sep1, (L "/" ++ [d] ++ dn ++ sep2).
  split; [reflexivity|]. split; [apply den_opt_separator, Hsep1|].
  exists (L "/"), ([d] ++ dn ++ sep2).
  split; [reflexivity|]. split; [reflexivity|].
  exists [], ([d] ++ dn ++ sep2).
  split; [reflexivity|]. split; [cbn [den]; simpl; auto|].
  exists [d], (dn ++ sep2).
  split; [reflexivity|]. split; [cbn [den]; exists d; auto|].
  exists dn, sep2.
  split; [reflexivity|].
  split; [cbn [den]; split; [exact Hdn|lia]|].
  exists sep2, [].
  split; [rewrite app_nil_r; reflexivity|].
  split; [apply den_opt_separator, Hsep2|].
  cbn [den]. auto.
Qed.

Lemma pair_correct_fractions (E : Engine) (truth_elem given_elem : pystr) :
  _is_frac truth_elem = true -> _is_frac given_elem = true ->
  pair_correct E truth_elem given_elem = Ret (str_eqb truth_elem given_elem).
Proof. intros Ht Hg. unfold pair_correct. rewrite Ht, Hg. reflexivity. Qed.

(** C3: in the loop over the pairs of elements, when both elements match
    the pattern of [_is_frac] the verdict of the pair is the equality of the
    two strings, whatever the symbolic engine would say; this holds in
    particular for two elements of the shape the specification describes.
    [grade_answer("2/4", "1/2")] is [false] and [grade_answer("1/2", "1/2")]
    is [true]. *)
Theorem C3_unreduced_fractions (E : Engine) :
  (forall truth_elem given_elem,
      _is_frac truth_elem = true -> _is_frac given_elem = true ->
      pair_correct E truth_elem given_elem
        = Ret (str_eqb truth_elem given_elem)) /\
  (forall truth_elem given_elem,
      frac_shape truth_elem -> frac_shape given_elem ->
      exists b, pair_correct E truth_elem given_elem = Ret b /\
                (b = true <-> truth_elem = given_elem)) /\
  grade_answer_at E (Some (L "2/4")) (L "1/2") = Ret (false, Elementwise) /\
  grade_answer E (Some (L "2/4")) (L "1/2") = Ret false /\
  grade_answer E (Some (L "1/2")) (L "1/2") = Ret true.
Proof.
  split; [apply pair_correct_fractions|].
  split.
  - intros t g Ht Hg. exists (str_eqb t g).
    split; [|apply str_eqb_true].
    apply pair_correct_fractions; apply frac_shape_is_frac; assumption.
  - repeat split; vm_compute; reflexivity.
Qed.

Lemma C3_unreduced_fractions_witness :
  pair_correct failing_engine (L "1/2") (L "2/4") = Ret false.
Proof.
  exact (proj1 (C3_unreduced_fractions failing_engine) (L "1/2") (L "2/4")
           eq_refl eq_refl).
Defined.

(** ** C4: a different number of elements *)

(** C4, as stated, fails: the baseline tier accepts before the elements are
    counted.  The ExtendedNormalForm of [(1and2)] is one element, that of
    [(1 and 2)] is the two elements of [(1,2)], and the given answer is
    graded [true] because the SyntacticNormalForms are both [(1and2)]. *)
Lemma C4_baseline_accepts_first :
  (forall E,
      _normalize E (Some (L "(1and2)")) = Ret (Some (L "(1and2)")) /\
      _normalize E (Some (L "(1 and 2)")) = Ret (Some (L "(1,2)")) /\
      grade_answer E (Some (L "(1 and 2)")) (L "(1and2)") = Ret true) /\
  length (split_tuple (L "(1and2)")) = 1 /\
  length (split_tuple (L "(1,2)")) = 2.
Proof.
  split; [intros E|]; repeat split; vm_compute; reflexivity.
Qed.

(** C4, amended: for every ground truth and every non-empty given answer
    whose SyntacticNormalForms differ, if the two ExtendedNormalForms
    decompose into different numbers of elements then the answer is graded
    [false], and the verdict is reached before any pair of elements is
    compared. *)
Theorem C4_count_mismatch (E : Engine) (given truth truth_n given_n : pystr) :
  given <> [] ->
  normalize_answer (Some given) <> normalize_answer (Some truth) ->
  _normalize E (Some truth) = Ret (Some truth_n) ->
  _normalize E (Some given) = Ret (Some given_n) ->
  length (split_tuple truth_n) <> length (split_tuple given_n) ->
  grade_answer E (Some given) truth = Ret false /\
  (grade_answer_at E (Some given) truth = Ret (false, GivenEmpty) \/
   grade_answer_at E (Some given) truth = Ret (false, ShapeMismatch) \/
   grade_answer_at E (Some given) truth = Ret (false, CountMismatch)).
Proof.
  intros Hne Hmathd Ht Hg Hcount.
  assert (Hat : grade_answer_at E (Some given) truth = Ret (false, GivenEmpty) \/
                grade_answer_at E (Some given) truth = Ret (false, ShapeMismatch) \/
                grade_answer_at E (Some given) truth = Ret (false, CountMismatch)).
  { unfold grade_answer_at.
    destruct (str_eqb given []) eqn:Hemp;
      [apply str_eqb_true in Hemp; contradiction|].
    destruct (option_eqb (normalize_answer (Some truth))
                         (normalize_answer (Some given))) eqn:Hm;
      [apply option_eqb_true in Hm; congruence|].
    rewrite Ht, Hg. cbn [bind].
    destruct (option_eqb (Some truth_n) (Some given_n)) eqn:Heq.
    { apply option_eqb_true in Heq. inversion Heq; subst. contradiction. }
    destruct (length given_n =? 0) eqn:Hlen0; [auto|].
    match goal with
    | |- (bind ?c _ = _) \/ _ => destruct c as [[|]|] eqn:Hshape
    end; cbn [bind]; [auto| |].
    - destruct (length (split_tuple truth_n) =? length (split_tuple given_n))
        eqn:Hlen; [apply Nat.eqb_eq in Hlen; contradiction|].
      cbn [negb]. auto.
    - exfalso.
      destruct (1 <? length (split_tuple truth_n)) eqn:Hk;
        [|discriminate Hshape].
      destruct truth_n as [|t0 ts]; [vm_compute in Hk; discriminate Hk|].
      destruct given_n as [|g0 gs]; [discriminate Hlen0|].
      cbn [first_item bind last_item] in Hshape.
      destruct (negb (chr_eqb t0 g0)); discriminate Hshape. }
  split; [|exact Hat].
  unfold grade_answer.
  destruct Hat as [-> |[-> | ->]]; reflexivity.
Qed.

Lemma C4_count_mismatch_witness :
  grade_answer failing_engine (Some (L "(1,2,3)")) (L "(1,2)") = Ret false /\
  (grade_answer_at failing_engine (Some (L "(1,2,3)")) (L "(1,2)")
     = Ret (false, GivenEmpty) \/
   grade_answer_at failing_engine (Some (L "(1,2,3)")) (L "(1,2)")
     = Ret (false, ShapeMismatch) \/
   grade_answer_at failing_engine (Some (L "(1,2,3)")) (L "(1,2)")
     = Ret (false, CountMismatch)).
Proof.
  apply (C4_count_mismatch failing_engine (L "(1,2,3)") (L "(1,2)")
           (L "(1,2)") (L "(1,2,3)")).
  - discriminate.
  - vm_compute. discriminate.
  - vm_compute. reflexivity.
  - vm_compute. reflexivity.
  - vm_compute. lia.
Defined.

(** ** Substitutions that leave a string as it is *)

Lemma contains_true (w s : pystr) :
  contains w s = true -> exists pre post, s = pre ++ w ++ post.
Proof.
  induction s as [|c t IH]; cbn [contains]; intros H.
  - rewrite orb_false_r in H. apply startswith_true in H.
    exists [], (skipn (length w) []). exact H.
  - apply orb_true_iff in H. destruct H as [H|H].
    + apply startswith_true in H. exists [], (skipn (length w) (c :: t)). exact H.
    + destruct (IH H) as (pre & post & ->). exists (c :: pre), post. reflexivity.
Qed.

Lemma contains_In (w s : pystr) (c : ascii) :
  contains w s = true -> In c w -> In c s.
Proof.
  intros H Hin. destruct (contains_true _ _ H) as (pre & post & ->).
  apply in_or_app. right. apply in_or_app. left. exact Hin.
Qed.

Lemma contains_without (w s : pystr) (c : ascii) :
  In c w -> ~ In c s -> contains w s = false.
Proof.
  intros Hw Hs. destruct (contains w s) eqn:H; [|reflexivity].
  elim Hs. apply (contains_In _ _ _ H Hw).
Qed.

Lemma contains_tail (w : pystr) (c : ascii) (t : pystr) :
  contains w (c :: t) = false -> contains w t = false.
Proof. cbn [contains]. intros H. apply orb_false_iff in H. tauto. Qed.

Lemma contains_startswith (w s : pystr) :
  contains w s = false -> startswith w s = false.
Proof.
  destruct s; cbn [contains]; intros H; apply orb_false_iff in H; tauto.
Qed.

(** A substitution each match of which is replaced by itself, on the
    strings of a class closed under taking the tail. *)
Lemma sub_go_unchanged (r : re) (repl : captures -> pystr)
    (P : pystr -> Prop) :
  (forall c t, P (c :: t) -> P t) ->
  (forall bos s m s' caps,
      P s -> match_at r bos s = Some (m, s', caps) ->
      m <> [] /\ repl caps = m) ->
  forall n s bos, length s <= n -> P s -> sub_go r repl bos s 0 = s.
Proof.
  intros Htail Hsame.
  assert (Hskip : forall k s, P s -> P (skipn k s)).
  { induction k as [|k IHk]; intros [|c t] HP; cbn [skipn]; auto.
    apply IHk. apply (Htail c), HP. }
  induction n as [|n IH]; intros s bos Hn HP.
  - destruct s; [|simpl in Hn; lia]. cbn [sub_go].
    destruct (match_at r bos []) as [[[m s'] caps]|] eqn:Hm; [|reflexivity].
    destruct (Hsame _ _ _ _ _ HP Hm) as [Hne _].
    apply match_at_sound in Hm. destruct Hm as [Hm _].
    symmetry in Hm. apply app_eq_nil in Hm. destruct Hm. contradiction.
  - destruct s as [|c t]; [apply IH; [simpl; lia|exact HP]|].
    cbn [sub_go].
    destruct (match_at r bos (c :: t)) as [[[m s'] caps]|] eqn:Hm.
    + destruct (Hsame _ _ _ _ _ HP Hm) as [Hne Hrepl].
      apply match_at_sound in Hm. destruct Hm as [Hm _].
      destruct (length m) as [|k] eqn:Hlen;
        [apply length_zero_iff_nil in Hlen; contradiction|].
      rewrite sub_go_skip.
      pose proof (skipn_matched _ _ _ _ _ Hm Hlen) as Hs'.
      rewrite Hs', Hrepl, IH.
      * symmetry; exact Hm.
      * apply (f_equal (@length ascii)) in Hm. rewrite length_app in Hm.
        simpl in Hm, Hn. lia.
      * rewrite <- Hs'. apply Hskip. apply (Htail c), HP.
    + f_equal. apply IH; [simpl in Hn; lia|]. apply (Htail c), HP.
Qed.

Lemma re_sub_unchanged (r : re) (repl : captures -> pystr)
    (P : pystr -> Prop) (s : pystr) :
  (forall c t, P (c :: t) -> P t) ->
  (forall bos s m s' caps,
      P s -> match_at r bos s = Some (m, s', caps) ->
      m <> [] /\ repl caps = m) ->
  P s -> re_sub r repl s = s.
Proof.
  intros Htail Hsame HP. unfold re_sub.
  apply (sub_go_unchanged r repl P Htail Hsame (length s)); auto.
Qed.

(** A pattern that starts with a literal the string does not hold matches
    nowhere in it. *)
Lemma den_cat_lit (l : pystr) (r : re) (bos : bool) (m rest : pystr) :
  den (Cat (Lit l) r) bos m rest -> startswith l (m ++ rest) = true.
Proof.
  cbn [den]. intros (m1 & m2 & -> & -> & _).
  rewrite <- app_assoc. apply startswith_app.
Qed.

Lemma re_sub_absent_literal (l : pystr) (r : re) (repl : captures -> pystr)
    (s : pystr) :
  contains l s = false -> re_sub (Cat (Lit l) r) repl s = s.
Proof.
  intros H.
  apply (re_sub_unchanged _ _ (fun s => contains l s = false)); [| |exact H].
  - intros c t. apply contains_tail.
  - intros bos s0 m s' caps HP Hm. exfalso.
    apply match_at_sound in Hm. destruct Hm as [-> Hd].
    apply den_cat_lit in Hd. apply contains_startswith in HP. congruence.
Qed.

Lemma not_In_tail (a c : ascii) (t : pystr) : ~ In a (c :: t) -> ~ In a t.
Proof. intros H Hin. apply H. right; exact Hin. Qed.

Lemma forallb_is_chr_absent (a : ascii) (m : pystr) (s : pystr) :
  forallb (is_chr a) m = true -> (forall c, In c m -> In c s) -> ~ In a s ->
  m = [].
Proof.
  intros Hall Hsub Hnot. destruct m as [|c m]; [reflexivity|].
  cbn [forallb] in Hall. apply andb_true_iff in Hall. destruct Hall as [Hc _].
  unfold is_chr in Hc. apply chr_eqb_true in Hc. subst c.
  elim Hnot. apply Hsub. left; reflexivity.
Qed.

(** ** The last steps of [_normalize] *)

Lemma lower_chr_facts (c : ascii) :
  lower_chr (lower_chr c) = lower_chr c /\
  (lower_chr c = " "%char -> c = " "%char) /\
  (lower_chr c = "{"%char -> c = "{"%char) /\
  (lower_chr c = "}"%char -> c = "}"%char).
Proof.
  destruct c as [[] [] [] [] [] [] [] []]; vm_compute;
    repeat split; intros H; solve [reflexivity | discriminate H].
Qed.

Lemma lower_idempotent (s : pystr) : lower (lower s) = lower s.
Proof.
  unfold lower. rewrite map_map. apply map_ext.
  intros c. apply lower_chr_facts.
Qed.

Lemma lower_keeps_out (a : ascii) (s : pystr) :
  (forall c, lower_chr c = a -> c = a) -> ~ In a s -> ~ In a (lower s).
Proof.
  intros Ha Hnot Hin. unfold lower in Hin. apply in_map_iff in Hin.
  destruct Hin as (c & Hc & Hin). apply Ha in Hc. subst c. contradiction.
Qed.

Lemma replace_chr (a : ascii) (s : pystr) :
  replace [a] [] s = filter (fun c => negb (chr_eqb c a)) s.
Proof.
  induction s as [|c t IH]; [reflexivity|].
  destruct (startswith [a] (c :: t)) eqn:Hm.
  - rewrite replace_cons_match by (auto; discriminate).
    cbn [length skipn app startswith] in *.
    rewrite andb_true_r in Hm. apply chr_eqb_true in Hm. subst c.
    rewrite IH. cbn [filter]. rewrite chr_eqb_refl. reflexivity.
  - rewrite replace_cons_other by exact Hm. rewrite IH.
    cbn [startswith] in Hm. rewrite andb_true_r in Hm.
    cbn [filter]. unfold chr_eqb in *. rewrite Ascii.eqb_sym, Hm. reflexivity.
Qed.

Lemma replace_chr_out (a : ascii) (s : pystr) : ~ In a (replace [a] [] s).
Proof.
  rewrite replace_chr. intros Hin. apply filter_In in Hin.
  destruct Hin as [_ H]. rewrite chr_eqb_refl in H. discriminate.
Qed.

Lemma replace_chr_keeps_out (a b : ascii) (s : pystr) :
  ~ In b s -> ~ In b (replace [a] [] s).
Proof.
  rewrite replace_chr. intros Hnot Hin. apply filter_In in Hin. tauto.
Qed.

Lemma normalize_cleanup_clean (expr : pystr) : clean (normalize_cleanup expr).
Proof.
  unfold normalize_cleanup, clean.
  change (L " ") with [" "%char]. change (L "{") with ["{"%char].
  change (L "}") with ["}"%char].
  set (e := _inject_implicit_mixed_number _).
  repeat split.
  - apply lower_keeps_out; [intros c; apply lower_chr_facts|].
    do 2 apply replace_chr_keeps_out. apply replace_chr_out.
  - apply lower_keeps_out; [intros c; apply lower_chr_facts|].
    apply replace_chr_keeps_out. apply replace_chr_out.
  - apply lower_keeps_out; [intros c; apply lower_chr_facts|].
    apply replace_chr_out.
  - apply lower_idempotent.
Qed.

Lemma den_minus (bos : bool) (m rest : pystr) :
  den re_minus bos m rest ->
  exists sp, m = L "-" ++ sp /\ forallb (is_chr " ") sp = true.
Proof.
  unfold re_minus. cbn [den]. intros (m1 & m2 & -> & -> & Hsp & _).
  exists m2. auto.
Qed.

Lemma den_mixed (bos : bool) (m rest : pystr) :
  den re_mixed bos m rest -> In " "%char m.
Proof.
  unfold re_mixed. cbn [den].
  intros (m1 & m2 & -> & _ & (m3 & m4 & -> & (Hsp & Hlen) & _)).
  apply in_or_app. right. apply in_or_app. left.
  destruct m3 as [|c m3]; [simpl in Hlen; lia|].
  cbn [forallb] in Hsp. apply andb_true_iff in Hsp. destruct Hsp as [Hc _].
  unfold is_chr in Hc. apply chr_eqb_true in Hc. subst c. left; reflexivity.
Qed.

Lemma normalize_cleanup_id (r : pystr) : clean r -> normalize_cleanup r = r.
Proof.
  intros (Hsp & Hlb & Hrb & Hlow). unfold normalize_cleanup.
  assert (Hminus : re_sub re_minus (fun _ => L "-") r = r).
  { apply (re_sub_unchanged _ _ (fun s => ~ In " "%char s)); [| |exact Hsp].
    - intros c t. apply not_In_tail.
    - intros bos s m s' caps HP Hm.
      apply match_at_sound in Hm. destruct Hm as [-> Hd].
      apply den_minus in Hd. destruct Hd as (sp & -> & Hall).
      assert (sp = []) as ->.
      { apply (forallb_is_chr_absent " " sp ((L "-" ++ sp) ++ s') Hall);
          [|exact HP].
        intros c Hc. apply in_or_app. left. apply in_or_app. right. exact Hc. }
      split; [discriminate|reflexivity]. }
  rewrite Hminus.
  assert (Hmixed : _inject_implicit_mixed_number r = r).
  { unfold _inject_implicit_mixed_number.
    apply (re_sub_unchanged _ _ (fun s => ~ In " "%char s)); [| |exact Hsp].
    - intros c t. apply not_In_tail.
    - intros bos s m s' caps HP Hm. exfalso.
      apply match_at_sound in Hm. destruct Hm as [-> Hd].
      apply den_mixed in Hd. apply HP. apply in_or_app. left. exact Hd. }
  rewrite Hmixed.
  rewrite (replace_absent (L " ")) by
    (apply (contains_without _ _ " "%char); [left; reflexivity|exact Hsp]).
  rewrite (replace_absent (L "{")) by
    (apply (contains_without _ _ "{"%char); [left; reflexivity|exact Hlb]).
  rewrite (replace_absent (L "}")) by
    (apply (contains_without _ _ "}"%char); [left; reflexivity|exact Hrb]).
  exact Hlow.
Qed.

(** ** The first steps of [_normalize] *)

Lemma contains_chr (c : ascii) (s : pystr) :
  contains [c] s = false -> ~ In c s.
Proof.
  induction s as [|x t IH]; cbn [contains startswith]; intros H Hin;
    [exact Hin|].
  apply orb_false_iff in H. destruct H as [Hx Ht].
  rewrite andb_true_r in Hx. apply chr_eqb_false in Hx.
  destruct Hin as [->|Hin]; [congruence|]. exact (IH Ht Hin).
Qed.

Lemma trigger_free_spec (r : pystr) :
  trigger_free r = true ->
  forall w, In w rewrite_triggers -> contains w r = false.
Proof.
  unfold trigger_free. rewrite forallb_forall. intros H w Hw.
  apply H in Hw. apply negb_true_iff in Hw. exact Hw.
Qed.

Lemma text_wrapper_absent (r : pystr) :
  ~ In "\"%char r -> re_search re_text_wrapper r = None.
Proof.
  intros Hnot.
  destruct (re_search re_text_wrapper r) as [caps|] eqn:Hs; [exfalso|reflexivity].
  assert (Hm : matches re_text_wrapper r = true)
    by (unfold matches; rewrite Hs; reflexivity).
  apply matches_spec in Hm. destruct Hm as (pre & m & s' & -> & Hd).
  unfold re_text_wrapper in Hd. cbn [den] in Hd.
  destruct Hd as (m1 & m2 & -> & _ & (m3 & m4 & -> & -> & _)).
  apply Hnot. apply in_or_app. right. apply in_or_app. left.
  apply in_or_app. right. apply in_or_app. left. left. reflexivity.
Qed.

Lemma units_absent (us : list pystr) (e : pystr) :
  (forall u, In u us -> contains u e = false) ->
  fold_left (fun e unit => re_sub (re_unit unit) erase e) us e = e.
Proof.
  induction us as [|u us IH]; intros H; [reflexivity|].
  cbn [fold_left]. unfold re_unit at 2.
  rewrite re_sub_absent_literal by (apply H; left; reflexivity).
  apply IH. intros u' Hu'. apply H. right; exact Hu'.
Qed.

Lemma den_circ (bos : bool) (m rest : pystr) :
  den re_circ bos m rest -> In "\"%char m.
Proof.
  unfold re_circ. cbn [den].
  intros (m1 & m2 & -> & _ & (m3 & m4 & -> & _ & ->)).
  apply in_or_app. right. apply in_or_app. right. left. reflexivity.
Qed.

Lemma normalize_rewrite_id (r : pystr) :
  clean r -> trigger_free r = true -> normalize_rewrite r = r.
Proof.
  intros (Hsp & Hlb & Hrb & Hlow) Hfree.
  pose proof (trigger_free_spec r Hfree) as Htrig.
  assert (Hbs : ~ In "\"%char r).
  { apply contains_chr. apply (Htrig (L "\")). left; reflexivity. }
  unfold normalize_rewrite.
  rewrite (text_wrapper_absent r Hbs).
  rewrite (replace_absent (L "\%")) by
    (apply (contains_without _ _ "\"%char); [left; reflexivity|exact Hbs]).
  rewrite (replace_absent (L "\$")) by
    (apply (contains_without _ _ "\"%char); [left; reflexivity|exact Hbs]).
  rewrite (replace_absent (L "$")) by
    (apply Htrig; right; left; reflexivity).
  rewrite (replace_absent (L "%")) by
    (apply Htrig; do 2 right; left; reflexivity).
  rewrite (replace_absent (L " or ")) by
    (apply (contains_without _ _ " "%char); [left; reflexivity|exact Hsp]).
  rewrite (replace_absent (L " and ")) by
    (apply (contains_without _ _ " "%char); [left; reflexivity|exact Hsp]).
  rewrite (replace_absent (L "million")) by
    (apply Htrig; do 3 right; left; reflexivity).
  rewrite (replace_absent (L "billion")) by
    (apply Htrig; do 4 right; left; reflexivity).
  rewrite (replace_absent (L "trillion")) by
    (apply Htrig; do 5 right; left; reflexivity).
  rewrite units_absent.
  2:{ intros u Hu. apply Htrig. unfold rewrite_triggers.
      apply in_or_app. right. exact Hu. }
  assert (Hcirc : re_sub re_circ erase r = r).
  { apply (re_sub_unchanged _ _ (fun s => ~ In "\"%char s)); [| |exact Hbs].
    - intros c t. apply not_In_tail.
    - intros bos s m s' caps HP Hm. exfalso.
      apply match_at_sound in Hm. destruct Hm as [-> Hd].
      apply den_circ in Hd. apply HP. apply in_or_app. left. exact Hd. }
  rewrite Hcirc.
  assert (Hbrace : (0 <? length r) && chr_eqb (hd nl r) "{"
                   && chr_eqb (last r nl) "}" = false).
  { destruct r as [|c t]; [reflexivity|]. cbn [length hd].
    destruct (chr_eqb c "{") eqn:Hc.
    - apply chr_eqb_true in Hc. subst c. elim Hlb. left; reflexivity.
    - rewrite andb_false_r. reflexivity. }
  rewrite Hbrace.
  unfold re_thin_comma. apply re_sub_absent_literal.
  apply (contains_without _ _ "\"%char); [right; left; reflexivity|exact Hbs].
Qed.

Lemma unlatex_id (E : Engine) (r : pystr) :
  ~ In "\"%char r -> unlatex E r = r.
Proof.
  intros Hbs. unfold unlatex.
  rewrite (contains_without (L "\") r "\"%char); auto. left; reflexivity.
Qed.

(** ** Integer numerals *)

Section Numerals.
Local Open Scope Z_scope.

Lemma digitpart_go_digits (ds : pystr) :
  forall a k, forallb isdigit ds = true ->
    digitpart_go ds a k = (fold_left digit_step ds a, (k + length ds)%nat, []).
Proof.
  induction ds as [|c ds IH]; intros a k H.
  - cbn. rewrite Nat.add_0_r. reflexivity.
  - cbn [forallb] in H. apply andb_true_iff in H. destruct H as [Hc Hds].
    cbn [digitpart_go fold_left length]. rewrite Hc, (IH _ _ Hds).
    rewrite Nat.add_succ_r. reflexivity.
Qed.

Lemma digit_char (k : Z) :
  0 <= k < 10 ->
  isdigit (ascii_of_nat (48 + Z.to_nat k)) = true /\
  digit_val (ascii_of_nat (48 + Z.to_nat k)) = k.
Proof.
  intros Hk. unfold isdigit, digit_val, code.
  rewrite nat_ascii_embedding by lia.
  split.
  - apply andb_true_iff. split; apply Nat.leb_le; lia.
  - lia.
Qed.

Lemma digits_of_pos_spec (f : nat) :
  forall p, 0 <= p < 10 ^ Z.of_nat (S f) ->
    exists ds,
      (forall acc, digits_of_pos (S f) p acc = ds ++ acc) /\
      forallb isdigit ds = true /\ ds <> [] /\
      (forall a, fold_left digit_step ds a = a * 10 ^ Z.of_nat (length ds) + p).
Proof.
  induction f as [|f IH]; intros p Hp.
  - assert (Hlt : p < 10) by (change (10 ^ Z.of_nat 1) with 10 in Hp; lia).
    destruct (digit_char p) as [Hd Hv]; [lia|].
    exists [ascii_of_nat (48 + Z.to_nat p)].
    cbn [digits_of_pos]. rewrite Z.mod_small by lia.
    apply Z.ltb_lt in Hlt. rewrite Hlt.
    repeat split; try discriminate.
    + cbn [forallb]. rewrite Hd. reflexivity.
    + intros a. cbn [fold_left length]. unfold digit_step. rewrite Hv.
      change (10 ^ Z.of_nat 1) with 10. lia.
  - cbn [digits_of_pos].
    destruct (digit_char (p mod 10)) as [Hd Hv];
      [apply Z.mod_pos_bound; lia|].
    destruct (p <? 10) eqn:Hlt.
    + apply Z.ltb_lt in Hlt.
      exists [ascii_of_nat (48 + Z.to_nat (p mod 10))].
      repeat split; try discriminate.
      * cbn [forallb]. rewrite Hd. reflexivity.
      * intros a. cbn [fold_left length]. unfold digit_step.
        rewrite Hv, Z.mod_small by lia.
        change (10 ^ Z.of_nat 1) with 10. lia.
    + apply Z.ltb_ge in Hlt.
      destruct (IH (p / 10)) as (ds & Hds & Hall & Hne & Hval).
      { split; [apply Z.div_pos; lia|].
        apply Z.div_lt_upper_bound; [lia|].
        replace (Z.of_nat (S (S f))) with (Z.succ (Z.of_nat (S f))) in Hp by lia.
        rewrite Z.pow_succ_r in Hp by lia. lia. }
      exists (ds ++ [ascii_of_nat (48 + Z.to_nat (p mod 10))]).
      repeat split.
      * intros acc.
        change (digits_of_pos (S f) (p / 10)
                  (ascii_of_nat (48 + Z.to_nat (p mod 10)) :: acc)
                = (ds ++ [ascii_of_nat (48 + Z.to_nat (p mod 10))]) ++ acc).
        rewrite Hds, <- app_assoc. reflexivity.
      * rewrite forallb_app, Hall. cbn [forallb andb]. rewrite Hd. reflexivity.
      * intros Habs. apply app_eq_nil in Habs. destruct Habs; discriminate.
      * intros a. rewrite fold_left_app, Hval. cbn [fold_left].
        unfold digit_step at 1. rewrite Hv, length_app. cbn [length].
        replace (Z.of_nat (length ds + 1)) with (Z.succ (Z.of_nat (length ds)))
          by lia.
        rewrite Z.pow_succ_r by lia.
        pose proof (Z.div_mod p 10). lia.
Qed.

Lemma digit_facts (c : ascii) :
  isdigit c = true ->
  isspace_numeral c = false /\ lower_chr c = c /\
  chr_eqb c "-" = false /\ chr_eqb c "+" = false /\
  chr_eqb c "i" = false /\ chr_eqb c "n" = false /\
  c <> " "%char /\ c <> "{"%char /\ c <> "}"%char /\ c <> ","%char.
Proof.
  destruct c as [[] [] [] [] [] [] [] []]; vm_compute; intros H;
    try discriminate H; repeat split; discriminate.
Qed.

Lemma str_of_int_spec (n : Z) :
  exists ds,
    str_of_int n = (if n <? 0 then L "-" else []) ++ ds /\
    forallb isdigit ds = true /\ ds <> [] /\
    fold_left digit_step ds 0 = Z.abs n.
Proof.
  assert (Hpos : forall p, 0 <= p ->
            exists ds, digits_of_pos (S (Z.to_nat (Z.log2 p))) p [] = ds /\
                       forallb isdigit ds = true /\ ds <> [] /\
                       fold_left digit_step ds 0 = p).
  { intros p Hp.
    destruct (digits_of_pos_spec (Z.to_nat (Z.log2 p)) p)
      as (ds & Hds & Hall & Hne & Hval).
    - split; [exact Hp|].
      pose proof (Z.log2_nonneg p) as Hlog.
      replace (Z.of_nat (S (Z.to_nat (Z.log2 p)))) with (Z.succ (Z.log2 p))
        by lia.
      destruct (Z.eq_dec p 0) as [->|Hnz].
      + change (Z.log2 0) with 0. change (10 ^ Z.succ 0) with 10. lia.
      + apply Z.lt_le_trans with (2 ^ Z.succ (Z.log2 p)).
        * apply Z.log2_spec. lia.
        * apply Z.pow_le_mono_l. lia.
    - exists ds. rewrite Hds, app_nil_r, Hval. repeat split; auto. }
  unfold str_of_int. destruct (n <? 0) eqn:Hn.
  - apply Z.ltb_lt in Hn. destruct (Hpos (- n)) as (ds & Hds & Hall & Hne & Hval);
      [lia|].
    exists ds. rewrite Hds. repeat split; auto. rewrite Hval. lia.
  - apply Z.ltb_ge in Hn. destruct (Hpos n Hn) as (ds & Hds & Hall & Hne & Hval).
    exists ds. rewrite Hds. repeat split; auto. rewrite Hval. lia.
Qed.

Lemma str_of_int_chars (n : Z) (c : ascii) :
  In c (str_of_int n) -> isdigit c = true \/ c = "-"%char.
Proof.
  destruct (str_of_int_spec n) as (ds & -> & Hall & _ & _).
  intros Hin. apply in_app_or in Hin. destruct Hin as [Hin|Hin].
  - destruct (n <? 0); [|contradiction].
    destruct Hin as [<-|[]]. right; reflexivity.
  - left. rewrite forallb_forall in Hall. apply Hall, Hin.
Qed.

Lemma str_of_int_without (n : Z) (a : ascii) :
  isdigit a = false -> a <> "-"%char -> ~ In a (str_of_int n).
Proof.
  intros Ha Hm Hin. apply str_of_int_chars in Hin.
  destruct Hin as [Hin|Hin]; congruence.
Qed.

Lemma str_of_int_clean (n : Z) : clean (str_of_int n).
Proof.
  unfold clean.
  repeat split; try (apply str_of_int_without; [reflexivity|discriminate]).
  unfold lower. rewrite <- (map_id (str_of_int n)) at 2.
  apply map_ext_in. intros c Hc. apply str_of_int_chars in Hc.
  destruct Hc as [Hc| ->]; [|reflexivity].
  apply digit_facts, Hc.
Qed.

Lemma lstrip_by_id (p : ascii -> bool) (c : ascii) (t : pystr) :
  p c = false -> lstrip_by p (c :: t) = c :: t.
Proof. intros H. cbn [lstrip_by]. rewrite H. reflexivity. Qed.

Lemma strip_by_numeral (p : ascii -> bool) (sgn ds : pystr) :
  (forall c, In c (sgn ++ ds) -> p c = false) -> ds <> [] ->
  strip_by p (sgn ++ ds) = sgn ++ ds.
Proof.
  intros Hp Hne. unfold strip_by.
  assert (Hl : lstrip_by p (sgn ++ ds) = sgn ++ ds).
  { destruct (sgn ++ ds) as [|c t] eqn:Heq; [reflexivity|].
    apply lstrip_by_id. apply Hp. left; reflexivity. }
  rewrite Hl.
  destruct (rev (sgn ++ ds)) as [|c t] eqn:Heq.
  - cbn [lstrip_by rev].
    apply (f_equal (@rev ascii)) in Heq. rewrite rev_involutive in Heq.
    exact (eq_sym Heq).
  - rewrite lstrip_by_id.
    + rewrite <- Heq. apply rev_involutive.
    + apply Hp. apply in_rev. rewrite Heq. left; reflexivity.
Qed.

Lemma py_float_numeral (n : Z) :
  py_float (str_of_int n)
    = Ret (qneg (n <? 0) (decimal_value (Z.abs n) 0)).
Proof.
  destruct (str_of_int_spec n) as (ds & Hs & Hall & Hne & Hval).
  unfold py_float. rewrite Hs.
  rewrite strip_by_numeral; [| |exact Hne].
  2:{ intros c Hc. rewrite <- Hs in Hc. apply str_of_int_chars in Hc.
      destruct Hc as [Hc| ->]; [apply digit_facts, Hc|reflexivity]. }
  destruct ds as [|d ds']; [contradiction|].
  cbn [forallb] in Hall. apply andb_true_iff in Hall. destruct Hall as [Hd Hds].
  destruct (digit_facts d Hd)
    as (_ & Hlow & Hminus & Hplus & Hi & Hn & _).
  assert (Hsign : sign ((if n <? 0 then L "-" else []) ++ d :: ds')
                  = (n <? 0, d :: ds')).
  { destruct (n <? 0); cbn [app]; [reflexivity|].
    unfold sign. rewrite Hminus, Hplus. reflexivity. }
  rewrite Hsign.
  cbn [lower map]. rewrite Hlow.
  unfold L at 1 2 3. cbn [list_ascii_of_string str_eqb].
  rewrite Hi, Hn. cbn [andb orb].
  unfold float_number, digitpart_from. rewrite Hd.
  rewrite digitpart_go_digits by exact Hds.
  cbn [fold_left] in Hval. unfold digit_step at 2 in Hval.
  rewrite Hval. reflexivity.
Qed.

Lemma round_half_even_one (n : Z) : round_half_even n 1 = n.
Proof.
  unfold round_half_even. rewrite Z.div_1_r, Z.mod_1_r. reflexivity.
Qed.

Lemma round_half_even_exact (n d : Z) : 0 < d -> round_half_even (n * d) d = n.
Proof.
  intros Hd. unfold round_half_even.
  rewrite Z.div_mul, Z.mod_mul by lia.
  change (2 * 0) with 0. destruct (0 ?= d) eqn:Hc; try reflexivity.
  - apply Z.compare_eq in Hc. lia.
  - apply Z.compare_gt_iff in Hc. lia.
Qed.

(** Integers below [2^53] are binary64 values. *)
Lemma round_binary64_small (p : Z) :
  0 < p < 2 ^ 53 -> exact (round_binary64 p 1) p.
Proof.
  intros Hp. unfold round_binary64.
  change (Z.log2 1) with 0. rewrite Z.sub_0_r.
  pose proof (Z.log2_spec p (proj1 Hp)) as [Hlo Hhi].
  assert (Hl : 0 <= Z.log2 p <= 52).
  { split; [apply Z.log2_nonneg|].
    assert (Z.log2 p < 53) by (apply Z.log2_lt_pow2; lia). lia. }
  set (l := Z.log2 p) in *.
  unfold scale2 at 1.
  replace (0 <=? l) with true by (symmetry; apply Z.leb_le; lia).
  cbv beta iota zeta.
  replace (p <? 1 * 2 ^ l) with false by (symmetry; apply Z.ltb_ge; lia).
  replace (Z.max (l - 52) (-1074)) with (l - 52) by lia.
  unfold scale2.
  destruct (0 <=? l - 52) eqn:He.
  - apply Z.leb_le in He. assert (l = 52) as -> by lia.
    change (52 - 52) with 0. change (2 ^ 0) with 1.
    cbv beta iota zeta. rewrite round_half_even_one.
    replace (2 ^ 1024 <=? p * 1) with false.
    + exists (inject_Z (p * 1)). split; [reflexivity|]. cbn. lia.
    + symmetry. apply Z.leb_gt. rewrite Z.mul_1_r.
      apply Z.lt_trans with (2 ^ 53); [lia|]. reflexivity.
  - apply Z.leb_gt in He. cbv beta iota zeta.
    rewrite round_half_even_one.
    eexists. split; [reflexivity|]. cbn [Qnum Qden].
    rewrite Z2Pos.id; [reflexivity|]. apply Z.pow_pos_nonneg; lia.
Qed.

Lemma decimal_value_small (p : Z) :
  0 <= p < 2 ^ 53 -> exact (decimal_value p 0) p.
Proof.
  intros Hp. unfold decimal_value.
  destruct (p =? 0) eqn:Hz.
  - apply Z.eqb_eq in Hz. subst p. exists 0%Q. split; reflexivity.
  - apply Z.eqb_neq in Hz. change (0 <=? 0) with true. cbv iota.
    change (10 ^ 0) with 1. rewrite Z.mul_1_r.
    apply round_binary64_small. lia.
Qed.

Lemma qneg_exact (neg : bool) (x : pyfloat) (p : Z) :
  exact x p -> exact (qneg neg x) (apply_sign neg p).
Proof.
  intros (q & -> & Hq). destruct neg; cbn [qneg apply_sign].
  - exists (Qopp q). split; [reflexivity|]. cbn [Qopp Qnum Qden]. rewrite Hq. lia.
  - exists q. auto.
Qed.

Lemma exact_round (x : pyfloat) (n : Z) : exact x n -> py_round x = Ret n.
Proof.
  intros (q & -> & Hq). cbn [py_round]. rewrite Hq.
  rewrite round_half_even_exact by reflexivity. reflexivity.
Qed.

Lemma exact_trunc (x : pyfloat) (n : Z) : exact x n -> py_trunc x = Ret n.
Proof.
  intros (q & -> & Hq). cbn [py_trunc]. rewrite Hq.
  rewrite Z.quot_mul by discriminate. reflexivity.
Qed.

Lemma exact_near_integer (x : pyfloat) (n : Z) :
  exact x n -> near_integer x = Ret true.
Proof.
  intros Hx. unfold near_integer. rewrite (exact_round x n Hx). cbn [bind].
  destruct Hx as (q & -> & Hq). f_equal.
  apply Qle_bool_iff.
  assert (Hzero : (q - inject_Z n == 0)%Q).
  { unfold Qeq, Qminus, Qplus, Qopp, inject_Z. cbn [Qnum Qden].
    rewrite Hq. lia. }
  rewrite Hzero. vm_compute. discriminate.
Qed.

End Numerals.

(** ** The coercions of [_normalize] on a normal form *)

Lemma den_comma (bos : bool) (m rest : pystr) :
  den re_comma bos m rest -> In ","%char m.
Proof.
  unfold re_comma. cbn [den].
  intros (m1 & m2 & -> & _ & (m3 & m4 & -> & -> & _)).
  apply in_or_app. right. apply in_or_app. left. left. reflexivity.
Qed.

Lemma comma_pass_without_comma (s : pystr) :
  ~ In ","%char s -> comma_pass s = s.
Proof.
  intros Hnot. unfold comma_pass.
  apply (re_sub_unchanged _ _ (fun s => ~ In ","%char s)); [| |exact Hnot].
  - intros c t. apply not_In_tail.
  - intros bos s0 m s' caps HP Hm. exfalso.
    apply match_at_sound in Hm. destruct Hm as [-> Hd].
    apply den_comma in Hd. apply HP. apply in_or_app. left. exact Hd.
Qed.

Lemma _strip_properly_formatted_commas_without_comma (s : pystr) :
  ~ In ","%char s -> _strip_properly_formatted_commas s = s.
Proof.
  intros Hnot. unfold _strip_properly_formatted_commas. cbn [comma_loop].
  rewrite (comma_pass_without_comma s Hnot), str_eqb_refl. reflexivity.
Qed.



Lemma numeral_value (n : Z) :
  (Z.abs n < 2 ^ 53)%Z ->
  exists x, py_float (str_of_int n) = Ret x /\ exact x n.
Proof.
  intros Hn. eexists. split; [apply py_float_numeral|].
  replace n with (apply_sign (n <? 0)%Z (Z.abs n)) at 3.
  - apply qneg_exact, decimal_value_small. lia.
  - unfold apply_sign. destruct (n <? 0)%Z eqn:H;
      [apply Z.ltb_lt in H|apply Z.ltb_ge in H]; lia.
Qed.

Lemma str_of_int_no_comma (n : Z) : ~ In ","%char (str_of_int n).
Proof. apply str_of_int_without; [reflexivity|discriminate]. Qed.

Lemma coerce_float_numeral (n : Z) :
  (Z.abs n < 2 ^ 53)%Z -> coerce_float (str_of_int n) = Ret (str_of_int n).
Proof.
  intros Hn. destruct (numeral_value n Hn) as (x & Hx & Hex).
  unfold coerce_float, _is_float, _is_int. rewrite Hx. cbn [bind try_except].
  rewrite (exact_near_integer x n Hex). cbn [try_except bind].
  rewrite (exact_round x n Hex). reflexivity.
Qed.

Lemma coerce_int_numeral (n : Z) :
  (Z.abs n < 2 ^ 53)%Z -> coerce_int (str_of_int n) = Ret (str_of_int n).
Proof.
  intros Hn. destruct (numeral_value n Hn) as (x & Hx & Hex).
  unfold coerce_int, _str_is_int, _str_to_int.
  rewrite (_strip_properly_formatted_commas_without_comma _ (str_of_int_no_comma n)).
  rewrite replace_comma, (filter_not_comma_id _ (str_of_int_no_comma n)).
  rewrite Hx. cbn [bind].
  rewrite (exact_near_integer x n Hex). cbn [try_except].
  rewrite (exact_trunc x n Hex). reflexivity.
Qed.

(** ** C7: idempotence of [_normalize] *)


(** What a second normalization can still do to a normal form. *)
Lemma _normalize_fixpoint (E : Engine) (r : pystr) :
  clean r -> trigger_free r = true ->
  coerce_float r = Ret r -> coerce_int r = Ret r ->
  _normalize E (Some r) = Ret (Some r).
Proof.
  intros Hclean Hfree Hf Hi. unfold _normalize.
  rewrite (normalize_rewrite_id r Hclean Hfree), Hf. cbn [bind].
  rewrite unlatex_id.
  - rewrite (normalize_cleanup_id r Hclean), Hi. reflexivity.
  - apply contains_chr.
    apply (trigger_free_spec r Hfree (L "\")). left; reflexivity.
Qed.



(** ** The shapes the refusal patterns of [should_allow_eval] match *)

(** [\^[0-9]+\^]: a caret, digits, a caret. *)
Lemma caret_chain_matches (pre ds post : pystr) :
  ds <> [] -> forallb isdigit ds = true ->
  matches (Cat (Lit (L "^")) (Cat (Rep isdigit 1 true) (Lit (L "^"))))
          (pre ++ L "^" ++ ds ++ L "^" ++ post) = true.
Proof.
  intros Hne Hds. apply matches_spec.
  exists pre, (L "^" ++ ds ++ L "^"), post.
  split; [rewrite <- !app_assoc; reflexivity|].
  cbn [den]. exists (L "^"), (ds ++ L "^").
  split; [reflexivity|]. split; [reflexivity|].
  exists ds, (L "^"). split; [reflexivity|].
  split; [|reflexivity].
  split; [exact Hds|]. destruct ds; [contradiction|simpl; lia].
Qed.

(** [\^[0-9][0-9]+]: a caret and two digits or more. *)
Lemma caret_long_exponent_matches (pre post : pystr) (d1 d2 : ascii) :
  isdigit d1 = true -> isdigit d2 = true ->
  matches (Cat (Lit (L "^")) (Cat (Cls isdigit) (Rep isdigit 1 true)))
          (pre ++ L "^" ++ [d1; d2] ++ post) = true.
Proof.
  intros H1 H2. apply matches_spec.
  exists pre, (L "^" ++ [d1; d2]), post.
  split; [rewrite <- !app_assoc; reflexivity|].
  cbn [den]. exists (L "^"), [d1; d2].
  split; [reflexivity|]. split; [reflexivity|].
  exists [d1], [d2]. split; [reflexivity|].
  split; [exists d1; auto|].
  split; [cbn [forallb]; rewrite H2; reflexivity|simpl; lia].
Qed.

(** * Further properties of the graders *)

(** ** [grade_answer] returns a verdict *)

Lemma comma_match_keeps_text (bos : bool) (s m s' : pystr) (caps : captures) :
  match_at re_comma bos s = Some (m, s', caps) ->
  group 1 caps ++ group 3 caps ++ group 4 caps <> [].
Proof.
  unfold match_at, re_comma.
  cbn [rx rep strip_prefix]. unfold or_else.
  intros H. split_cases; discriminate.
Qed.

Lemma comma_pass_nonempty (s : pystr) : s <> [] -> comma_pass s <> [].
Proof.
  destruct s as [|c t]; [contradiction|]. intros _.
  unfold comma_pass, re_sub. cbn [sub_go].
  destruct (match_at re_comma true (c :: t)) as [[[m s'] caps]|] eqn:Hm;
    [|discriminate].
  apply comma_match_keeps_text in Hm.
  destruct (length m); intros Habs; apply app_eq_nil in Habs;
    destruct Habs as [Habs _]; contradiction.
Qed.

Lemma comma_loop_nonempty (fuel : nat) :
  forall s r, s <> [] -> comma_loop fuel s = Some r -> r <> [].
Proof.
  induction fuel as [|fuel IH]; intros s r Hs H; [discriminate|].
  cbn [comma_loop] in H.
  destruct (str_eqb (comma_pass s) s).
  - inversion H; subst. apply comma_pass_nonempty, Hs.
  - apply (IH (comma_pass s)); [apply comma_pass_nonempty, Hs|exact H].
Qed.

Lemma _strip_properly_formatted_commas_nonempty (s : pystr) :
  s <> [] -> _strip_properly_formatted_commas s <> [].
Proof.
  intros Hs.
  destruct (_strip_properly_formatted_commas_fixpoint s) as (Hloop & _).
  apply (comma_loop_nonempty _ _ _ Hs Hloop).
Qed.

Lemma split_tuple_nonempty (s : pystr) : s <> [] -> split_tuple s <> [].
Proof.
  intros Hs. unfold split_tuple.
  pose proof (_strip_properly_formatted_commas_nonempty s Hs) as Hr.
  destruct (_strip_properly_formatted_commas s) as [|c r]; [contradiction|].
  cbn [length Nat.eqb].
  destruct (_ && _ && _ && _); [|discriminate].
  intros Habs. apply map_eq_nil in Habs. exact (split_not_nil _ _ Habs).
Qed.

Lemma pair_correct_returns (E : Engine) (t g : pystr) :
  exists b, pair_correct E t g = Ret b.
Proof.
  unfold pair_correct, are_equal_under_sympy.
  destruct (_is_frac t && _is_frac g); [eauto|].
  destruct (negb _); eauto.
Qed.

Lemma pairs_correct_returns (E : Engine) (pairs : list (pystr * pystr)) :
  forall ic, pairs <> [] -> exists b, pairs_correct E pairs ic = Ret (Some b).
Proof.
  induction pairs as [|[t g] rest IH]; intros ic Hne; [contradiction|].
  cbn [pairs_correct].
  destruct (pair_correct_returns E t g) as (b & ->). cbn [bind].
  destruct b; cbn [negb]; [|eauto].
  destruct rest as [|p rest']; [cbn; eauto|].
  apply IH. discriminate.
Qed.

Lemma grade_answer_at_returns (E : Engine) (given : option pystr)
    (truth : pystr) :
  exists b x, grade_answer_at E given truth = Ret (b, x).
Proof.
  unfold grade_answer_at.
  destruct given as [given|]; [|eauto].
  destruct (str_eqb given []); [eauto|].
  destruct (option_eqb _ _); [eauto|].
  destruct (_normalize_returns E truth) as (tn & ->).
  destruct (_normalize_returns E given) as (gn & ->).
  cbn [bind].
  destruct (option_eqb _ _); [eauto|].
  destruct (length gn =? 0) eqn:Hlen; [eauto|].
  assert (Hgn : gn <> []) by (intros ->; discriminate Hlen).
  pose proof (split_tuple_nonempty gn Hgn) as Hge.
  assert (Hshape : exists sh,
             (if 1 <? length (split_tuple tn)
              then a <- first_item tn ;; b <- first_item gn ;;
                   if negb (chr_eqb a b) then Ret true
                   else c <- last_item tn ;; d <- last_item gn ;;
                        Ret (negb (chr_eqb c d))
              else Ret false) = Ret sh).
  { destruct (1 <? length (split_tuple tn)) eqn:Hk; [|eauto].
    destruct tn as [|t0 ts]; [vm_compute in Hk; discriminate Hk|].
    destruct gn as [|g0 gs]; [contradiction|].
    cbn [first_item last_item bind].
    destruct (negb (chr_eqb t0 g0)); eauto. }
  destruct Hshape as (sh & ->). cbn [bind].
  destruct sh; [eauto|].
  destruct (length (split_tuple tn) =? length (split_tuple gn)) eqn:Heq;
    cbn [negb]; [|eauto].
  apply Nat.eqb_eq in Heq.
  destruct (pairs_correct_returns E
              (combine (split_tuple tn) (split_tuple gn)) None)
    as (b & ->).
  - destruct (split_tuple gn) as [|g1 gl]; [contradiction|].
    destruct (split_tuple tn) as [|t1 tl]; [discriminate Heq|]. discriminate.
  - cbn [bind]. eauto.
Qed.

(** X1: [grade_answer] returns a boolean for every engine, every given
    answer (also [None]) and every ground truth: no index is out of range,
    and whenever the loop over the pairs of elements is reached it runs at
    least once, so that [is_correct] is bound at the [return]. *)
Theorem X1_grade_answer_returns (E : Engine) (given : option pystr)
    (truth : pystr) :
  exists b, grade_answer E given truth = Ret b.
Proof.
  unfold grade_answer.
  destruct (grade_answer_at_returns E given truth) as (b & x & ->).
  cbn [bind fst]. eauto.
Qed.


(** ** [extract_answer] *)

Lemma find_from_absent (sub s : pystr) :
  forall i, contains sub s = false -> find_from sub s i = (-1)%Z.
Proof.
  induction s as [|c t IH]; intros i H; cbn [contains] in H;
    apply orb_false_iff in H; destruct H as [Hm Ht]; cbn [find_from];
    rewrite Hm; [reflexivity|]. apply IH, Ht.
Qed.

Lemma find_from_nonneg (sub s : pystr) :
  forall i, (0 <= i)%Z ->
            find_from sub s i = (-1)%Z \/ (i <= find_from sub s i)%Z.
Proof.
  induction s as [|c t IH]; intros i Hi; cbn [find_from];
    destruct (startswith sub _); try (right; lia); [left; reflexivity|].
  destruct (IH (i + 1)%Z) as [H|H]; [lia|left; exact H|right; lia].
Qed.

Lemma slice_empty (s : pystr) (a b : Z) :
  (0 <= b <= a)%Z -> slice s a b = [].
Proof.
  intros H. unfold slice, slice_index.
  replace (a <? 0)%Z with false by (symmetry; apply Z.ltb_ge; lia).
  replace (b <? 0)%Z with false by (symmetry; apply Z.ltb_ge; lia).
  apply skipn_all2. rewrite length_firstn. lia.
Qed.

Lemma slice_middle (pre mid post : pystr) :
  slice (pre ++ mid ++ post) (Z.of_nat (length pre))
        (Z.of_nat (length pre + length mid)) = mid.
Proof.
  unfold slice, slice_index. rewrite !length_app.
  replace (Z.of_nat (length pre) <? 0)%Z with false
    by (symmetry; apply Z.ltb_ge; lia).
  replace (Z.of_nat (length pre + length mid) <? 0)%Z with false
    by (symmetry; apply Z.ltb_ge; lia).
  rewrite !Z.min_l by lia. rewrite !Nat2Z.id.
  rewrite app_assoc, firstn_app.
  rewrite firstn_all2 by (rewrite length_app; lia).
  replace (length pre + length mid - length (pre ++ mid)) with 0
    by (rewrite length_app; lia).
  cbn [firstn]. rewrite app_nil_r.
  rewrite skipn_app, skipn_all, Nat.sub_diag. reflexivity.
Qed.

(** The first occurrence is not inside a prefix that lacks the first
    character of the text sought. *)
Lemma find_from_past (x : ascii) (sub' pre rest : pystr) :
  ~ In x pre ->
  forall i, find_from (x :: sub') (pre ++ rest) i
            = find_from (x :: sub') rest (i + Z.of_nat (length pre))%Z.
Proof.
  induction pre as [|c pre IH]; intros Hnot i.
  - cbn [app length]. f_equal. lia.
  - cbn [app find_from startswith].
    replace (chr_eqb x c) with false.
    + cbn [andb]. rewrite IH by (intros Hin; apply Hnot; right; exact Hin).
      f_equal. cbn [length]. lia.
    + symmetry. apply chr_eqb_false. intros ->. apply Hnot. left; reflexivity.
Qed.

Lemma find_from_here (sub rest : pystr) (i : Z) :
  find_from sub (sub ++ rest) i = i.
Proof.
  destruct (sub ++ rest) eqn:Heq; cbn [find_from];
    rewrite <- Heq, startswith_app; reflexivity.
Qed.

(** The closing tag is not found inside an answer that holds no [</]. *)
Lemma find_close_past (a post : pystr) :
  contains (L "</") a = false ->
  forall i, find_from (L "</answer>") (a ++ L "</answer>" ++ post) i
            = (i + Z.of_nat (length a))%Z.
Proof.
  induction a as [|c a IH]; intros Hno i.
  - cbn [app length]. rewrite find_from_here. lia.
  - pose proof (contains_tail _ _ _ Hno) as Hno'.
    apply contains_startswith in Hno.
    assert (Hm : startswith (L "</answer>") ((c :: a) ++ L "</answer>" ++ post)
                 = false).
    { unfold L in *. cbn [list_ascii_of_string app startswith] in *.
      destruct (chr_eqb "<" c); [|reflexivity]. cbn [andb] in *.
      destruct a as [|d a'].
      - cbn [app startswith]. reflexivity.
      - cbn [app startswith]. cbn [startswith] in Hno.
        rewrite andb_true_r in Hno. rewrite Hno. reflexivity. }
    cbn [app find_from] in *. rewrite Hm.
    rewrite IH by exact Hno'. cbn [length]. lia.
Qed.

Lemma find_open_skip (pre rest : pystr) (i : Z) :
  ~ In "<"%char pre ->
  find_from (L "<answer>") (pre ++ rest) i
  = find_from (L "<answer>") rest (i + Z.of_nat (length pre))%Z.
Proof. intros H. exact (find_from_past "<" (L "answer>") pre rest H i). Qed.

Lemma find_close_skip (pre rest : pystr) (i : Z) :
  ~ In "<"%char pre ->
  find_from (L "</answer>") (pre ++ rest) i
  = find_from (L "</answer>") rest (i + Z.of_nat (length pre))%Z.
Proof. intros H. exact (find_from_past "<" (L "/answer>") pre rest H i). Qed.

Lemma find_close_at_open (rest : pystr) (i : Z) :
  find_from (L "</answer>") (L "<answer>" ++ rest) i
  = find_from (L "</answer>") (L "answer>" ++ rest) (i + 1)%Z.
Proof. reflexivity. Qed.

Lemma extract_answer_between (pre a post : pystr) :
  ~ In "<"%char pre -> contains (L "</") a = false ->
  extract_answer (pre ++ L "<answer>" ++ a ++ L "</answer>" ++ post) = a.
Proof.
  intros Hpre Ha. unfold extract_answer, find.
  assert (Hopen : find_from (L "<answer>")
                    (pre ++ L "<answer>" ++ a ++ L "</answer>" ++ post) 0
                  = Z.of_nat (length pre)).
  { rewrite find_open_skip by exact Hpre. rewrite find_from_here. lia. }
  assert (Hclose : find_from (L "</answer>")
                     (pre ++ L "<answer>" ++ a ++ L "</answer>" ++ post) 0
                   = Z.of_nat (length pre + length (L "<answer>") + length a)).
  { rewrite find_close_skip by exact Hpre.
    rewrite find_close_at_open.
    rewrite find_close_skip by (vm_compute; intuition discriminate).
    rewrite find_close_past by exact Ha.
    change (length (L "answer>")) with 7. change (length (L "<answer>")) with 8.
    lia. }
  rewrite Hopen, Hclose.
  replace (Z.of_nat (length pre) =? -1)%Z with false
    by (symmetry; apply Z.eqb_neq; lia).
  replace (Z.of_nat (length pre + length (L "<answer>") + length a) =? -1)%Z
    with false by (symmetry; apply Z.eqb_neq; lia).
  cbn [orb].
  replace (pre ++ L "<answer>" ++ a ++ L "</answer>" ++ post)
    with ((pre ++ L "<answer>") ++ a ++ (L "</answer>" ++ post))
    by (rewrite <- !app_assoc; reflexivity).
  replace (Z.of_nat (length pre) + Z.of_nat (length (L "<answer>")))%Z
    with (Z.of_nat (length (pre ++ L "<answer>")))
    by (rewrite length_app; lia).
  replace (length pre + length (L "<answer>") + length a)
    with (length (pre ++ L "<answer>") + length a)
    by (rewrite length_app; lia).
  apply slice_middle.
Qed.

Lemma find_nonneg (sub s : pystr) :
  find sub s = (-1)%Z \/ (0 <= find sub s)%Z.
Proof. unfold find. apply find_from_nonneg. lia. Qed.

Lemma extract_answer_untagged (response : pystr) :
  contains (L "<answer>") response = false
  \/ contains (L "</answer>") response = false
  \/ (find (L "</answer>") response <= find (L "<answer>") response + 8)%Z ->
  extract_answer response = [].
Proof.
  intros H. unfold extract_answer.
  destruct (find (L "<answer>") response =? -1)%Z eqn:Ho; [reflexivity|].
  destruct (find (L "</answer>") response =? -1)%Z eqn:Hc; [reflexivity|].
  cbn [orb]. apply Z.eqb_neq in Ho, Hc.
  destruct H as [H|[H|H]].
  - elim Ho. apply find_from_absent, H.
  - elim Hc. apply find_from_absent, H.
  - apply slice_empty. change (Z.of_nat (length (L "<answer>"))) with 8%Z.
    destruct (find_nonneg (L "</answer>") response); [contradiction|]. lia.
Qed.

(** X2: a response that lacks the opening tag or the closing tag, or whose
    first closing tag does not come after its first opening tag, yields the
    empty answer, and the empty answer is graded [false] against every
    ground truth, whatever the engine. *)
Theorem X2_untagged_response_is_wrong (E : Engine) (response truth : pystr) :
  contains (L "<answer>") response = false
  \/ contains (L "</answer>") response = false
  \/ (find (L "</answer>") response <= find (L "<answer>") response + 8)%Z ->
  extract_answer response = [] /\
  grade_answer E (Some (extract_answer response)) truth = Ret false /\
  grade_responses E (response_answers [(response, truth)]) = Ret [0%Z].
Proof.
  intros H. pose proof (extract_answer_untagged response H) as He.
  split; [exact He|].
  cbn [response_answers map fst snd grade_responses]. rewrite He.
  split; reflexivity.
Qed.

Lemma X2_untagged_response_is_wrong_witness :
  extract_answer (L "</answer>42<answer>") = [] /\
  grade_answer failing_engine (Some (extract_answer (L "</answer>42<answer>")))
               (L "42") = Ret false /\
  grade_responses failing_engine
    (response_answers [(L "</answer>42<answer>", L "42")]) = Ret [0%Z].
Proof.
  apply (X2_untagged_response_is_wrong failing_engine
           (L "</answer>42<answer>") (L "42")).
  right; right. vm_compute. discriminate.
Defined.

(** X3: when no [<] stands before the opening tag and the text between the
    tags holds no [</], [extract_answer] returns exactly the text between
    [<answer>] and [</answer>], whatever follows the closing tag; the
    response is then graded as that text is. *)
Theorem X3_extract_answer_between_tags (E : Engine)
    (pre answer post truth : pystr) :
  ~ In "<"%char pre -> contains (L "</") answer = false ->
  extract_answer (pre ++ L "<answer>" ++ answer ++ L "</answer>" ++ post)
    = answer /\
  grade_answer E
    (Some (extract_answer
             (pre ++ L "<answer>" ++ answer ++ L "</answer>" ++ post))) truth
    = grade_answer E (Some answer) truth.
Proof.
  intros Hpre Ha.
  rewrite (extract_answer_between pre answer post Hpre Ha). auto.
Qed.

Lemma X3_extract_answer_between_tags_witness :
  extract_answer
    (L "So x is small. " ++ L "<answer>" ++ L "x<3" ++ L "</answer>"
       ++ L " <answer>7</answer>") = L "x<3" /\
  grade_answer failing_engine
    (Some (extract_answer
             (L "So x is small. " ++ L "<answer>" ++ L "x<3" ++ L "</answer>"
                ++ L " <answer>7</answer>"))) (L "x < 3")
    = grade_answer failing_engine (Some (L "x<3")) (L "x < 3").
Proof.
  apply (X3_extract_answer_between_tags failing_engine).
  - vm_compute. intuition discriminate.
  - vm_compute. reflexivity.
Defined.


(** ** The loop over the pairs of elements *)

Lemma pairs_correct_true (E : Engine) (pairs : list (pystr * pystr)) :
  forall ic,
    pairs_correct E pairs ic = Ret (Some true) <->
    (pairs = [] /\ ic = Some true) \/
    (pairs <> [] /\
     forall p, In p pairs -> pair_correct E (fst p) (snd p) = Ret true).
Proof.
  induction pairs as [|[t g] rest IH]; intros ic; cbn [pairs_correct].
  - split.
    + intros H. inversion H. left; auto.
    + intros [[_ ->]|[Hne _]]; [reflexivity|contradiction].
  - destruct (pair_correct_returns E t g) as (b & Hb). rewrite Hb. cbn [bind].
    destruct b; cbn [negb].
    + rewrite IH. split.
      * intros H. right. split; [discriminate|].
        intros p [<-|Hp]; [exact Hb|].
        destruct H as [[-> _]|[_ H]]; [contradiction|auto].
      * intros [[Habs _]|[_ H]]; [discriminate|].
        destruct rest as [|p rest']; [left; auto|].
        right. split; [discriminate|]. intros q Hq. apply H. right; exact Hq.
    + split; [intros H; discriminate H|].
      intros [[Habs _]|[_ H]]; [discriminate|].
      specialize (H (t, g) (or_introl eq_refl)). cbn [fst snd] in H.
      rewrite Hb in H. discriminate H.
Qed.

(** X5: when [grade_answer] reaches the loop over the pairs of elements, the
    two lists of elements have the same length and the verdict is [true]
    exactly when every pair, taken in order, is judged correct; one failing
    pair makes the verdict [false]. *)
Theorem X5_every_pair_must_pass (E : Engine) (given truth truth_n given_n : pystr)
    (verdict : bool) :
  _normalize E (Some truth) = Ret (Some truth_n) ->
  _normalize E (Some given) = Ret (Some given_n) ->
  grade_answer_at E (Some given) truth = Ret (verdict, Elementwise) ->
  length (split_tuple truth_n) = length (split_tuple given_n) /\
  (verdict = true <->
   forall p, In p (combine (split_tuple truth_n) (split_tuple given_n)) ->
             pair_correct E (fst p) (snd p) = Ret true).
Proof.
  intros Ht Hg H. unfold grade_answer_at in H.
  destruct (str_eqb given []); [discriminate H|].
  destruct (option_eqb _ _); [discriminate H|].
  rewrite Ht, Hg in H. cbn [bind] in H.
  destruct (option_eqb _ _); [discriminate H|].
  destruct (length given_n =? 0) eqn:Hlen0; [discriminate H|].
  match type of H with
  | (bind ?c _) = _ => destruct c as [[|]|]
  end; cbn [bind] in H; try discriminate H.
  destruct (length (split_tuple truth_n) =? length (split_tuple given_n))
    eqn:Hlen; cbn [negb] in H; [|discriminate H].
  apply Nat.eqb_eq in Hlen. split; [exact Hlen|].
  assert (Hgn : given_n <> []) by (intros ->; discriminate Hlen0).
  pose proof (split_tuple_nonempty given_n Hgn) as Hge.
  assert (Hpairs : combine (split_tuple truth_n) (split_tuple given_n) <> []).
  { destruct (split_tuple given_n); [contradiction|].
    destruct (split_tuple truth_n); [discriminate Hlen|discriminate]. }
  destruct (pairs_correct E _ None) as [[b|]|] eqn:Hloop; cbn [bind] in H;
    try discriminate H.
  inversion H; subst b.
  destruct verdict.
  - apply pairs_correct_true in Hloop.
    destruct Hloop as [[Habs _]|[_ Hall]]; [contradiction|]. tauto.
  - split; [discriminate|]. intros Hall. exfalso.
    assert (Htrue : pairs_correct E
                      (combine (split_tuple truth_n) (split_tuple given_n)) None
                    = Ret (Some true))
      by (apply pairs_correct_true; right; auto).
    rewrite Hloop in Htrue. discriminate Htrue.
Qed.

Lemma X5_every_pair_must_pass_witness :
  length (split_tuple (L "(1/2,3)")) = length (split_tuple (L "(1/2,3.5)")) /\
  (false = true <->
   forall p, In p (combine (split_tuple (L "(1/2,3)"))
                           (split_tuple (L "(1/2,3.5)"))) ->
             pair_correct failing_engine (fst p) (snd p) = Ret true).
Proof.
  apply (X5_every_pair_must_pass failing_engine (L "(1/2, 3.5)") (L "(1/2,3)")).
  - vm_compute. reflexivity.
  - vm_compute. reflexivity.
  - vm_compute. reflexivity.
Defined.

(** ** What [_is_frac] accepts *)

(** X6: [_is_frac] holds of a string exactly when the string is an optional
    [-], one digit or more, at most one character that is not a line break,
    [/], any number of zeros, a non-zero digit, digits, at most one
    character that is not a line break, and at most one final line break.
    So [1/02] and [1a/2b] take the strict fraction comparison as well. *)
Theorem X6_is_frac_pattern (s : pystr) : _is_frac s = true <-> frac_pattern s.
Proof.
  unfold _is_frac. rewrite matches_spec. split.
  - intros (pre & m & tail & -> & Hd).
    unfold re_frac in Hd. cbn [den] in Hd.
    destruct Hd as (m0 & r0 & -> & [-> Hbos] & Hd).
    destruct Hd as (sgn & r1 & -> & Hsgn & Hd).
    destruct Hd as (num & r2 & -> & [Hnum Hlen] & Hd).
    destruct Hd as (sep1 & r3 & -> & Hsep1 & Hd).
    destruct Hd as (sl & r4 & -> & -> & Hd).
    destruct Hd as (zeros & r5 & -> & [Hz _] & Hd).
    destruct Hd as (dd & r6 & -> & (d & -> & Hnz) & Hd).
    destruct Hd as (dn & r7 & -> & [Hdn _] & Hd).
    destruct Hd as (sep2 & r8 & -> & Hsep2 & [-> Htail]).
    destruct pre; [|discriminate Hbos].
    exists sgn, num, sep1, zeros, d, dn, sep2, tail.
    split.
    { cbn [app]. rewrite ?app_nil_r.
      repeat (rewrite <- app_assoc; cbn [app]). reflexivity. }
    split; [destruct Hsgn as [->| ->]; auto|].
    split; [intros ->; simpl in Hlen; lia|].
    split; [exact Hnum|].
    split; [destruct Hsep1 as [->|(c & -> & Hc)]; [left|right; exists c]; auto|].
    split; [exact Hz|]. split; [exact Hnz|]. split; [exact Hdn|].
    split; [destruct Hsep2 as [->|(c & -> & Hc)]; [left|right; exists c]; auto|].
    exact Htail.
  - intros (sgn & num & sep1 & zeros & d & dn & sep2 & tail & -> & Hsgn & Hne
            & Hnum & Hsep1 & Hz & Hd & Hdn & Hsep2 & Htail).
    exists [], (sgn ++ num ++ sep1 ++ L "/" ++ zeros ++ [d] ++ dn ++ sep2), tail.
    split; [cbn [app]; repeat (rewrite <- app_assoc; cbn [app]); reflexivity|].
    unfold re_frac. cbn [is_nil].
    exists [], (sgn ++ num ++ sep1 ++ L "/" ++ zeros ++ [d] ++ dn ++ sep2).
    split; [reflexivity|]. split; [cbn [den]; auto|].
    exists sgn, (num ++ sep1 ++ L "/" ++ zeros ++ [d] ++ dn ++ sep2).
    split; [reflexivity|].
    split; [cbn [den]; destruct Hsgn as [->| ->]; auto|].
    exists num, (sep1 ++ L "/" ++ zeros ++ [d] ++ dn ++ sep2).
    split; [reflexivity|].
    split.
    { cbn [den]. split; [exact Hnum|].
      destruct num; [contradiction|simpl; lia]. }
    exists sep1, (L "/" ++ zeros ++ [d] ++ dn ++ sep2).
    split; [reflexivity|]. split; [apply den_opt_separator, Hsep1|].
    exists (L "/"), (zeros ++ [d] ++ dn ++ sep2).
    split; [reflexivity|]. split; [reflexivity|].
    exists zeros, ([d] ++ dn ++ sep2).
    split; [reflexivity|]. split; [cbn [den]; split; [exact Hz|lia]|].
    exists [d], (dn ++ sep2).
    split; [reflexivity|]. split; [cbn [den]; exists d; auto|].
    exists dn, sep2.
    split; [reflexivity|].
    split; [cbn [den]; split; [exact Hdn|lia]|].
    exists sep2, [].
    split; [rewrite app_nil_r; reflexivity|].
    split; [apply den_opt_separator, Hsep2|].
    cbn [den]. auto.
Qed.

(** ** The comma stripping *)

Lemma _strip_properly_formatted_commas_idempotent (s : pystr) :
  _strip_properly_formatted_commas (_strip_properly_formatted_commas s)
  = _strip_properly_formatted_commas s.
Proof.
  destruct (_strip_properly_formatted_commas_fixpoint s) as (_ & Hfix & _).
  set (r := _strip_properly_formatted_commas s) in *.
  unfold _strip_properly_formatted_commas. cbn [comma_loop].
  rewrite Hfix, str_eqb_refl. reflexivity.
Qed.

Lemma comma_pass_one_group (d a b c : ascii) :
  isdigit d = true -> isdigit a = true -> isdigit b = true ->
  isdigit c = true ->
  comma_pass ([d] ++ L "," ++ [a; b; c]) = [d; a; b; c].
Proof.
  intros Hd Ha Hb Hc.
  unfold comma_pass, re_sub, L. cbn [list_ascii_of_string app].
  cbn [sub_go]. unfold match_at, re_comma.
  cbn [rx rep strip_prefix or_else]. rewrite Hd.
  unfold L. cbn [list_ascii_of_string].
  change (strip_prefix [","%char] [","%char; a; b; c]) with (Some [a; b; c]).
  cbv beta iota. rewrite Ha, Hb, Hc.
  cbn [app or_else length group Nat.eqb sub_go].
  unfold match_at. cbn [rx]. reflexivity.
Qed.

(** X7: [_strip_properly_formatted_commas] removes commas and nothing else
    (the other characters are kept, in their order), never lengthens the
    string, leaves a string without commas as it is, is idempotent, and
    turns a digit, a comma and three digits into the four digits. *)
Theorem X7_comma_stripping (s : pystr) :
  filter not_comma (_strip_properly_formatted_commas s) = filter not_comma s /\
  length (_strip_properly_formatted_commas s) <= length s /\
  (~ In ","%char s -> _strip_properly_formatted_commas s = s) /\
  _strip_properly_formatted_commas (_strip_properly_formatted_commas s)
    = _strip_properly_formatted_commas s /\
  (forall d a b c,
      isdigit d = true -> isdigit a = true -> isdigit b = true ->
      isdigit c = true ->
      _strip_properly_formatted_commas ([d] ++ L "," ++ [a; b; c])
        = [d; a; b; c]).
Proof.
  destruct (_strip_properly_formatted_commas_fixpoint s) as (Hloop & _ & Hlen).
  split; [apply (comma_loop_filter _ _ _ Hloop)|].
  split; [exact Hlen|].
  split; [apply _strip_properly_formatted_commas_without_comma|].
  split; [apply _strip_properly_formatted_commas_idempotent|].
  intros d a b c Hd Ha Hb Hc.
  unfold _strip_properly_formatted_commas.
  cbn [comma_loop]. rewrite (comma_pass_one_group d a b c) by assumption.
  assert (Hne : str_eqb [d; a; b; c] ([d] ++ L "," ++ [a; b; c]) = false).
  { apply str_eqb_false. intros Habs.
    apply (f_equal (@length ascii)) in Habs. discriminate Habs. }
  rewrite Hne.
  assert (Hnc : ~ In ","%char [d; a; b; c]).
  { intros [H|[H|[H|[H|[]]]]]; subst;
      match goal with
      | H : isdigit ","%char = true |- _ => discriminate H
      end. }
  unfold L. cbn [list_ascii_of_string app length comma_loop].
  rewrite (comma_pass_without_comma _ Hnc), str_eqb_refl. reflexivity.
Qed.

(** ** The ExtendedNormalForm *)

Lemma _normalize_clean (E : Engine) (s r : pystr) :
  _normalize E (Some s) = Ret (Some r) -> clean r.
Proof.
  intros Hs. unfold _normalize in Hs.
  destruct (coerce_float (normalize_rewrite s)) as [e2|]; [|discriminate Hs].
  cbn [bind] in Hs.
  pose proof (normalize_cleanup_clean (unlatex E e2)) as Hclean.
  unfold coerce_int in Hs.
  destruct (_str_is_int _).
  - destruct (_str_to_int _) as [n|]; [|discriminate Hs].
    cbn [bind] in Hs. inversion Hs; subst r. apply str_of_int_clean.
  - cbn [bind] in Hs. inversion Hs; subst r. exact Hclean.
Qed.

(** X8: the ExtendedNormalForm of every string holds no space and no brace,
    and lower-casing leaves it as it is, whatever the LaTeX converter
    returns. *)
Theorem X8_normal_form_is_clean (E : Engine) (s : pystr) :
  exists r,
    _normalize E (Some s) = Ret (Some r) /\
    ~ In " "%char r /\ ~ In "{"%char r /\ ~ In "}"%char r /\ lower r = r.
Proof.
  destruct (_normalize_returns E s) as (r & Hr).
  exists r. split; [exact Hr|]. apply (_normalize_clean E s r Hr).
Qed.

(** X9: a non-empty given answer whose ExtendedNormalForm is that of the
    ground truth is graded [true] without the elements being compared; in
    particular every non-empty answer is graded [true] against itself. *)
Theorem X9_equal_normal_forms_pass (E : Engine) (given truth : pystr) :
  given <> [] ->
  _normalize E (Some given) = _normalize E (Some truth) ->
  grade_answer E (Some given) truth = Ret true /\
  (grade_answer_at E (Some given) truth = Ret (true, MathdEqual) \/
   grade_answer_at E (Some given) truth = Ret (true, NormalizedEqual)) /\
  grade_answer E (Some given) given = Ret true.
Proof.
  intros Hne Heq.
  assert (Hat : forall t, _normalize E (Some given) = _normalize E (Some t) ->
             grade_answer_at E (Some given) t = Ret (true, MathdEqual) \/
             grade_answer_at E (Some given) t = Ret (true, NormalizedEqual)).
  { intros t Ht. unfold grade_answer_at.
    destruct (str_eqb given []) eqn:Hemp;
      [apply str_eqb_true in Hemp; contradiction|].
    destruct (option_eqb _ _); [auto|].
    rewrite <- Ht.
    destruct (_normalize_returns E given) as (gn & ->). cbn [bind option_eqb].
    rewrite str_eqb_refl. auto. }
  assert (Hg : forall t, _normalize E (Some given) = _normalize E (Some t) ->
                         grade_answer E (Some given) t = Ret true).
  { intros t Ht. unfold grade_answer.
    destruct (Hat t Ht) as [-> | ->]; reflexivity. }
  auto.
Qed.

Lemma X9_equal_normal_forms_pass_witness :
  grade_answer failing_engine (Some (L "1,000 cm")) (L "1000.0") = Ret true /\
  (grade_answer_at failing_engine (Some (L "1,000 cm")) (L "1000.0")
     = Ret (true, MathdEqual) \/
   grade_answer_at failing_engine (Some (L "1,000 cm")) (L "1000.0")
     = Ret (true, NormalizedEqual)) /\
  grade_answer failing_engine (Some (L "1,000 cm")) (L "1,000 cm") = Ret true.
Proof.
  apply (X9_equal_normal_forms_pass failing_engine (L "1,000 cm") (L "1000.0")).
  - discriminate.
  - vm_compute. reflexivity.
Defined.

(** ** Whitespace around an answer *)

Lemma lstrip_by_app_ws (p : ascii -> bool) (ws x : pystr) :
  forallb p ws = true -> lstrip_by p (ws ++ x) = lstrip_by p x.
Proof.
  induction ws as [|c ws IH]; intros H; [reflexivity|].
  cbn [forallb] in H. apply andb_true_iff in H. destruct H as [Hc Hws].
  cbn [app lstrip_by]. rewrite Hc. apply IH, Hws.
Qed.

Lemma lstrip_by_all (p : ascii -> bool) (s : pystr) :
  forallb p s = true <-> lstrip_by p s = [].
Proof.
  induction s as [|c s IH]; cbn [forallb lstrip_by]; [tauto|].
  destruct (p c); cbn [andb]; [exact IH|].
  split; intros H; discriminate H.
Qed.

Lemma lstrip_by_app_keep (p : ascii -> bool) (s x : pystr) :
  lstrip_by p s <> [] -> lstrip_by p (s ++ x) = lstrip_by p s ++ x.
Proof.
  induction s as [|c s IH]; intros H; [contradiction|].
  cbn [app lstrip_by] in *. destruct (p c); [apply IH, H|reflexivity].
Qed.

Lemma forallb_rev (p : ascii -> bool) (s : pystr) :
  forallb p s = true -> forallb p (rev s) = true.
Proof.
  rewrite !forallb_forall. intros H c Hc. apply H. apply in_rev, Hc.
Qed.

Lemma strip_by_padded (p : ascii -> bool) (ws s ws' : pystr) :
  forallb p ws = true -> forallb p ws' = true ->
  strip_by p (ws ++ s ++ ws') = strip_by p s.
Proof.
  intros Hws Hws'. unfold strip_by. rewrite lstrip_by_app_ws by exact Hws.
  destruct (lstrip_by p s) as [|c l] eqn:Hl.
  - apply lstrip_by_all in Hl.
    assert (Hall : forallb p (s ++ ws') = true)
      by (rewrite forallb_app, Hl, Hws'; reflexivity).
    apply lstrip_by_all in Hall. rewrite Hall. reflexivity.
  - rewrite lstrip_by_app_keep by (rewrite Hl; discriminate).
    rewrite Hl, rev_app_distr.
    rewrite lstrip_by_app_ws by (apply forallb_rev, Hws'). reflexivity.
Qed.

(** X10: whitespace in front of an answer and behind it does not change
    its SyntacticNormalForm; a padded non-empty answer is therefore graded
    [true] against the answer without the padding. *)
Theorem X10_padding_is_ignored (E : Engine) (ws s ws' : pystr) :
  forallb isspace ws = true -> forallb isspace ws' = true ->
  normalize_answer (Some (ws ++ s ++ ws')) = normalize_answer (Some s) /\
  (s <> [] -> grade_answer E (Some (ws ++ s ++ ws')) s = Ret true).
Proof.
  intros Hws Hws'.
  assert (Heq : normalize_answer (Some (ws ++ s ++ ws'))
                = normalize_answer (Some s)).
  { unfold normalize_answer, unwrap_text, strip.
    rewrite (strip_by_padded isspace ws s ws' Hws Hws'). reflexivity. }
  split; [exact Heq|].
  intros Hs. unfold grade_answer, grade_answer_at.
  destruct (str_eqb (ws ++ s ++ ws') []) eqn:Hemp.
  - apply str_eqb_true in Hemp. apply app_eq_nil in Hemp.
    destruct Hemp as [_ Hemp]. apply app_eq_nil in Hemp.
    destruct Hemp as [Hemp _]. contradiction.
  - rewrite Heq.
    replace (option_eqb _ _) with true
      by (symmetry; apply option_eqb_true; reflexivity).
    reflexivity.
Qed.

Lemma X10_padding_is_ignored_witness :
  normalize_answer (Some (L "  " ++ L "3/4" ++ [nl]))
    = normalize_answer (Some (L "3/4")) /\
  (L "3/4" <> [] ->
   grade_answer failing_engine (Some (L "  " ++ L "3/4" ++ [nl])) (L "3/4")
     = Ret true).
Proof.
  apply (X10_padding_is_ignored failing_engine (L "  ") (L "3/4") [nl]);
    reflexivity.
Defined.

(** ** One separator *)

Lemma startswith_contains (w s : pystr) :
  startswith w s = true -> contains w s = true.
Proof. intros H. destruct s; cbn [contains]; rewrite H; reflexivity. Qed.

Lemma contains_mid (sep a b : pystr) : contains sep (a ++ sep ++ b) = true.
Proof.
  induction a as [|c a IH].
  - cbn [app]. apply startswith_contains. apply startswith_app.
  - cbn [app contains]. rewrite IH. apply orb_true_r.
Qed.

(** The text before the first occurrence of a separator is the first
    element of the split; the other elements are those of the text after
    it. *)
Lemma split_first (sep a b : pystr) :
  sep <> [] -> unbordered sep -> contains sep a = false ->
  split sep (a ++ sep ++ b) = a :: split sep b.
Proof.
  intros Hsep Hub Ha. induction a as [|c a IH].
  - cbn [app]. rewrite split_cons_match.
    + rewrite skipn_app, skipn_all, Nat.sub_diag. reflexivity.
    + exact Hsep.
    + destruct sep; [contradiction|discriminate].
    + apply startswith_app.
  - assert (Hm : startswith sep ((c :: a) ++ sep ++ b) = false).
    { destruct (startswith sep ((c :: a) ++ sep ++ b)) eqn:Hm; [|reflexivity].
      exfalso.
      destruct (Nat.lt_ge_cases (length (c :: a)) (length sep)) as [Hlt|Hge].
      - rewrite app_assoc in Hm.
        rewrite startswith_long in Hm by (rewrite length_app; lia).
        rewrite Hub in Hm by (auto; discriminate). discriminate Hm.
      - rewrite startswith_long in Hm by exact Hge.
        apply startswith_contains in Hm. congruence. }
    cbn [app] in Hm |- *. rewrite split_cons_other by exact Hm.
    rewrite IH by (apply (contains_tail _ c), Ha). reflexivity.
Qed.

(** A separator that occurs neither before nor after its one occurrence
    cuts the string in two. *)
Lemma split_once (sep a b : pystr) :
  sep <> [] -> unbordered sep ->
  contains sep a = false -> contains sep b = false ->
  split sep (a ++ sep ++ b) = [a; b].
Proof.
  intros Hsep Hub Ha Hb.
  rewrite (split_first sep a b Hsep Hub Ha), (split_absent _ _ Hb).
  reflexivity.
Qed.

Lemma units_marker_unbordered : unbordered (L "\text{ ").
Proof. solve_unbordered. Qed.

(** X11: when the units marker [\text{ ] occurs once, with no occurrence in
    the text before it or in the text after it, [_remove_right_units]
    returns the text before it. *)
Theorem X11_units_are_removed (before after : pystr) :
  contains (L "\text{ ") before = false ->
  contains (L "\text{ ") after = false ->
  _remove_right_units (before ++ L "\text{ " ++ after) = Ret before.
Proof.
  intros Hb Ha. unfold _remove_right_units.
  rewrite contains_mid.
  rewrite (split_once (L "\text{ ") before after) by
    first [exact units_marker_unbordered | assumption | discriminate].
  reflexivity.
Qed.

Lemma X11_units_are_removed_witness :
  _remove_right_units (L "12" ++ L "\text{ " ++ L "cm}") = Ret (L "12").
Proof.
  apply (X11_units_are_removed (L "12") (L "cm}")); reflexivity.
Defined.

(** ** Fractions written with a slash *)





Lemma _fix_a_slash_b_cases (s : pystr) :
  _fix_a_slash_b s = s \/
  exists a b : Z,
    s = str_of_int a ++ L "/" ++ str_of_int b /\
    _fix_a_slash_b s
      = L "\frac{" ++ str_of_int a ++ L "}{" ++ str_of_int b ++ L "}".
Proof.
  unfold _fix_a_slash_b.
  destruct (negb (length (split (L "/") s) =? 2)); [left; reflexivity|].
  destruct (py_int (nth 0 (split (L "/") s) [])) as [a|];
    [|left; reflexivity].
  destruct (py_int (nth 1 (split (L "/") s) [])) as [b|];
    [|left; reflexivity].
  cbn [bind].
  destruct (str_eqb s (str_of_int a ++ L "/" ++ str_of_int b)) eqn:Heq;
    [|left; reflexivity].
  right. exists a, b. apply str_eqb_true in Heq. split; [exact Heq|].
  reflexivity.
Qed.


(** ** Integer answers *)

Lemma str_of_int_trigger_free (n : Z) : trigger_free (str_of_int n) = true.
Proof.
  unfold trigger_free. apply forallb_forall. intros w Hw.
  apply negb_true_iff.
  unfold rewrite_triggers, units in Hw. cbn [app In] in Hw.
  repeat (destruct Hw as [<-|Hw];
          [unfold L; cbn [list_ascii_of_string];
           eapply contains_without;
           [left; reflexivity
           |apply str_of_int_without; [reflexivity|discriminate]]|]).
  contradiction.
Qed.

Lemma str_to_int_numeral (n : Z) :
  (Z.abs n < 2 ^ 53)%Z ->
  _str_is_int (str_of_int n) = true /\ _str_to_int (str_of_int n) = Ret n.
Proof.
  intros Hn. destruct (numeral_value n Hn) as (x & Hx & Hex).
  unfold _str_is_int, _str_to_int.
  rewrite (_strip_properly_formatted_commas_without_comma _ (str_of_int_no_comma n)).
  rewrite replace_comma, (filter_not_comma_id _ (str_of_int_no_comma n)).
  rewrite Hx. cbn [bind].
  rewrite (exact_near_integer x n Hex), (exact_trunc x n Hex).
  split; reflexivity.
Qed.

(** X13: the decimal numeral of an integer below [2^53] in magnitude is
    recognised by [_str_is_int], read back as the same integer by
    [_str_to_int], and is its own ExtendedNormalForm.  Beyond the bound the
    float coercion conflates integers: [2^53 + 1] is normalized to
    [2^53]. *)
Theorem X13_integer_numerals :
  (forall (E : Engine) (n : Z),
     (Z.abs n < 2 ^ 53)%Z ->
     _str_is_int (str_of_int n) = true /\
     _str_to_int (str_of_int n) = Ret n /\
     _normalize E (Some (str_of_int n)) = Ret (Some (str_of_int n))) /\
  (forall E : Engine,
     _normalize E (Some (str_of_int (2 ^ 53 + 1)))
       = Ret (Some (str_of_int (2 ^ 53)))).
Proof.
  split.
  - intros E n Hn. destruct (str_to_int_numeral n Hn) as [Hi Ht].
    repeat split; [exact Hi|exact Ht|].
    apply _normalize_fixpoint;
      auto using str_of_int_clean, str_of_int_trigger_free,
                 coerce_float_numeral, coerce_int_numeral.
  - intros E. vm_compute. reflexivity.
Qed.

Lemma X13_integer_numerals_witness :
  _str_is_int (str_of_int (-42)) = true /\
  _str_to_int (str_of_int (-42)) = Ret (-42)%Z /\
  _normalize failing_engine (Some (str_of_int (-42)))
    = Ret (Some (str_of_int (-42))).
Proof.
  apply (proj1 X13_integer_numerals failing_engine (-42)%Z).
  vm_compute. reflexivity.
Defined.

(** ** Separators and what follows them *)

(** [sep.join(s.split(sep)) == s] *)
Lemma split_join (sep : pystr) :
  sep <> [] ->
  forall s,
    s = hd [] (split sep s) ++ concat (map (app sep) (tl (split sep s))).
Proof.
  intros Hsep s.
  remember (length s) as n eqn:Hn.
  revert s Hn. induction n as [n IH] using lt_wf_ind. intros s Hn.
  destruct s as [|c t]; [reflexivity|].
  destruct (startswith sep (c :: t)) eqn:Hm.
  - rewrite split_cons_match by (auto; discriminate).
    cbn [hd tl app].
    pose proof (split_not_nil sep (skipn (length sep) (c :: t))) as Hnn.
    pose proof (IH (length (skipn (length sep) (c :: t)))) as IH'.
    destruct (split sep (skipn (length sep) (c :: t))) as [|p ps] eqn:Hsp;
      [contradiction|].
    cbn [map concat]. rewrite <- app_assoc.
    rewrite (startswith_true _ _ Hm) at 1. f_equal.
    specialize (IH' ltac:(subst n; rewrite length_skipn;
                          destruct sep; [contradiction|simpl; lia])
                    (skipn (length sep) (c :: t)) eq_refl).
    rewrite Hsp in IH'. exact IH'.
  - rewrite split_cons_other by exact Hm. cbn [hd tl app]. f_equal.
    apply (IH (length t)); [subst n; simpl; lia|reflexivity].
Qed.

(** Every element of a split but the first stands right behind an
    occurrence of the separator, and is followed by the end of the string or
    by another occurrence. *)
Lemma split_element_follows (sep : pystr) :
  sep <> [] ->
  forall s e, In e (tl (split sep s)) ->
    exists pre post, s = pre ++ sep ++ e ++ post /\
                     (post = [] \/ startswith sep post = true).
Proof.
  intros Hsep s.
  remember (length s) as n eqn:Hn.
  revert s Hn. induction n as [n IH] using lt_wf_ind. intros s Hn e He.
  destruct s as [|c t]; [contradiction|].
  destruct (startswith sep (c :: t)) eqn:Hm.
  - rewrite split_cons_match in He by (auto; discriminate).
    cbn [tl] in He.
    set (s' := skipn (length sep) (c :: t)) in *.
    assert (Hlen : length s' < n).
    { subst n s'. rewrite length_skipn.
      destruct sep; [contradiction|simpl; lia]. }
    pose proof (split_join sep Hsep s') as Hj.
    pose proof (split_not_nil sep s') as Hnn.
    pose proof (IH _ Hlen s' eq_refl e) as IH'.
    destruct (split sep s') as [|p ps] eqn:Hsp; [contradiction|].
    cbn [hd tl] in Hj, IH'.
    destruct He as [<-|He].
    + exists [], (concat (map (app sep) ps)). split.
      * cbn [app]. rewrite (startswith_true _ _ Hm) at 1. fold s'.
        rewrite Hj at 1. reflexivity.
      * destruct ps as [|q qs]; [left; reflexivity|right].
        cbn [map concat]. rewrite <- app_assoc. apply startswith_app.
    + destruct (IH' He) as (pre & post & Hs' & Hpost).
      exists (sep ++ pre), post. split; [|exact Hpost].
      rewrite (startswith_true _ _ Hm) at 1. fold s'. rewrite Hs' at 1.
      rewrite <- app_assoc. reflexivity.
  - rewrite split_cons_other in He by exact Hm. cbn [tl] in He.
    destruct (IH (length t) ltac:(subst n; simpl; lia) t eq_refl e He)
      as (pre & post & Ht & Hpost).
    exists (c :: pre), post. split; [|exact Hpost].
    cbn [app]. f_equal. exact Ht.
Qed.

(** When every occurrence of [sep] is followed by the character [x], which
    is not the first one of [sep], the elements behind the first start with
    [x]. *)
Lemma split_elements_start (sep : pystr) (y x : ascii) (sep' : pystr) (s : pystr) :
  sep = y :: sep' -> x <> y ->
  (forall pre post, s = pre ++ sep ++ post -> exists r, post = x :: r) ->
  forall e, In e (tl (split sep s)) -> exists r, e = x :: r.
Proof.
  intros Hsep Hxy Hall e He.
  destruct (split_element_follows sep ltac:(subst sep; discriminate) s e He)
    as (pre & post & Hs & Hpost).
  destruct (Hall pre (e ++ post) Hs) as (r & Hr).
  destruct e as [|c e'].
  - exfalso. cbn [app] in Hr. destruct Hpost as [->|Hst]; [discriminate Hr|].
    subst post sep. cbn [startswith] in Hst.
    apply andb_true_iff in Hst. destruct Hst as [Hc _].
    apply chr_eqb_true in Hc. congruence.
  - cbn [app] in Hr. inversion Hr; subst. exists e'. reflexivity.
Qed.

(** ** [_fix_sqrt] *)

Lemma _fix_sqrt_loop_braced (splits : list pystr) (acc : pystr) :
  (forall e, In e splits -> exists r, e = "{"%char :: r) ->
  _fix_sqrt_loop splits acc
    = Ret (acc ++ concat (map (app (L "\sqrt")) splits)).
Proof.
  revert acc. induction splits as [|e rest IH]; intros acc Hall.
  - cbn [_fix_sqrt_loop map concat]. rewrite app_nil_r. reflexivity.
  - destruct (Hall e (or_introl eq_refl)) as (r & ->).
    cbn [_fix_sqrt_loop]. change (chr_eqb "{" "{") with true. cbn [negb].
    rewrite IH by (intros e He; apply Hall; right; exact He).
    cbn [map concat]. rewrite <- app_assoc. reflexivity.
Qed.

(** X14: [_fix_sqrt] returns a string unchanged when each [\sqrt] in it is
    followed by an opening brace, and it puts the character behind a single
    [\sqrt] in braces when that character is no brace. *)
Theorem X14_fix_sqrt (s a b : pystr) (c : ascii) :
  ((forall pre post, s = pre ++ L "\sqrt" ++ post ->
                     exists r, post = "{"%char :: r) ->
   _fix_sqrt s = Ret s) /\
  (contains (L "\sqrt") a = false ->
   contains (L "\sqrt") (c :: b) = false -> c <> "{"%char ->
   _fix_sqrt (a ++ L "\sqrt" ++ c :: b)
     = Ret (a ++ L "\sqrt{" ++ [c] ++ L "}" ++ b)).
Proof.
  split.
  - intros Hall. unfold _fix_sqrt.
    destruct (contains (L "\sqrt") s); cbn [negb]; [|reflexivity].
    rewrite _fix_sqrt_loop_braced.
    + rewrite <- (split_join (L "\sqrt")) by discriminate. reflexivity.
    + apply (split_elements_start (L "\sqrt") "\"%char "{"%char (L "sqrt") s);
        [reflexivity|discriminate|exact Hall].
  - intros Ha Hb Hc. unfold _fix_sqrt. rewrite contains_mid. cbn [negb].
    rewrite split_once by
      first [exact sqrt_unbordered | assumption | discriminate].
    cbn [hd tl _fix_sqrt_loop].
    apply chr_eqb_false in Hc. rewrite Hc. cbn [negb]. reflexivity.
Qed.

Lemma X14_fix_sqrt_witness :
  _fix_sqrt (L "\sqrt{3}") = Ret (L "\sqrt{3}") /\
  _fix_sqrt (L "2" ++ L "\sqrt" ++ "3"%char :: L "x")
    = Ret (L "2" ++ L "\sqrt{" ++ ["3"%char] ++ L "}" ++ L "x").
Proof.
  destruct (X14_fix_sqrt (L "\sqrt{3}") (L "2") (L "x") "3"%char)
    as (H1 & H2).
  split.
  - apply H1. intros pre post H.
    unfold L in H. cbn [list_ascii_of_string] in H.
    destruct pre as [|? pre];
      [cbn [app] in H; injection H as <-; eexists; reflexivity|].
    do 9 (destruct pre as [|? pre]; [discriminate H|]).
    discriminate H.
  - apply H2; [reflexivity|reflexivity|discriminate].
Defined.

(** ** [_fix_fracs] *)

Lemma _fix_fracs_loop_braced (string : pystr) (substrs : list pystr)
    (acc : pystr) :
  (forall e, In e substrs -> exists r, e = "{"%char :: r) ->
  _fix_fracs_loop string substrs acc
    = Ret (acc ++ concat (map (app (L "\frac")) substrs)).
Proof.
  revert acc. induction substrs as [|e rest IH]; intros acc Hall.
  - cbn [_fix_fracs_loop map concat]. rewrite app_nil_r. reflexivity.
  - destruct (Hall e (or_introl eq_refl)) as (r & ->).
    cbn [_fix_fracs_loop]. change (chr_eqb "{" "{") with true. cbv iota.
    rewrite IH by (intros e He; apply Hall; right; exact He).
    cbn [map concat]. rewrite <- !app_assoc. reflexivity.
Qed.

Lemma contains_short (w s : pystr) :
  length s < length w -> contains w s = false.
Proof.
  intros Hlen. destruct (contains w s) eqn:H; [|reflexivity].
  destruct (contains_true _ _ H) as (pre & post & ->).
  rewrite !length_app in Hlen. lia.
Qed.

(** X15: [_fix_fracs] returns a string unchanged when each [\frac] in it
    is followed by an opening brace.  Behind a single [\frac] it braces the
    next two characters, [\frac12] giving [\frac{1}{2}], or the first one
    only when the second is a brace; with one character left it gives the
    string back as it is; with none left, at the end of the string, it
    raises. *)
Theorem X15_fix_fracs (s a r : pystr) (x y : ascii) :
  ((forall pre post, s = pre ++ L "\frac" ++ post ->
                     exists t, post = "{"%char :: t) ->
   _fix_fracs s = Ret s) /\
  (contains (L "\frac") a = false -> x <> "{"%char ->
   (contains (L "\frac") (x :: y :: r) = false -> y <> "{"%char ->
    _fix_fracs (a ++ L "\frac" ++ x :: y :: r)
      = Ret (a ++ L "\frac{" ++ [x] ++ L "}{" ++ [y] ++ L "}" ++ r)) /\
   (contains (L "\frac") (x :: "{"%char :: r) = false ->
    _fix_fracs (a ++ L "\frac" ++ x :: "{"%char :: r)
      = Ret (a ++ L "\frac{" ++ [x] ++ L "}{" ++ r)) /\
   _fix_fracs (a ++ L "\frac" ++ [x]) = Ret (a ++ L "\frac" ++ [x])) /\
  (contains (L "\frac") a = false -> _fix_fracs (a ++ L "\frac") = Raise).
Proof.
  split; [|split].
  - intros Hall. unfold _fix_fracs.
    destruct (1 <? length (split (L "\frac") s)) eqn:Hlen.
    + rewrite _fix_fracs_loop_braced.
      * rewrite <- (split_join (L "\frac")) by discriminate. reflexivity.
      * apply (split_elements_start (L "\frac") "\"%char "{"%char (L "frac") s);
          [reflexivity|discriminate|exact Hall].
    + pose proof (split_join (L "\frac") ltac:(discriminate) s) as Hj.
      pose proof (split_not_nil (L "\frac") s) as Hnn.
      destruct (split (L "\frac") s) as [|p [|q qs]];
        [contradiction| |discriminate Hlen].
      cbn [hd tl map concat] in Hj |- *. rewrite app_nil_r in Hj.
      rewrite <- Hj. reflexivity.
  - intros Ha Hx. apply chr_eqb_false in Hx. split; [|split].
    + intros Hr Hy. apply chr_eqb_false in Hy. unfold _fix_fracs.
      rewrite split_once by
        first [exact frac_unbordered | assumption | discriminate].
      cbn [length Nat.ltb Nat.leb hd tl _fix_fracs_loop].
      rewrite Hx, Hy. cbn [negb].
      destruct r as [|z r'];
        cbn [length Nat.ltb Nat.leb skipn _fix_fracs_loop];
        rewrite <- !app_assoc; [rewrite !app_nil_r|]; reflexivity.
    + intros Hr. unfold _fix_fracs.
      rewrite split_once by
        first [exact frac_unbordered | assumption | discriminate].
      cbn [length Nat.ltb Nat.leb hd tl _fix_fracs_loop].
      rewrite Hx. change (chr_eqb "{" "{") with true. cbn [negb].
      destruct r as [|z r'];
        cbn [length Nat.ltb Nat.leb skipn _fix_fracs_loop];
        rewrite <- !app_assoc; reflexivity.
    + unfold _fix_fracs.
      rewrite split_once by
        first [exact frac_unbordered | assumption | discriminate
              | apply contains_short; simpl; lia].
      cbn [length Nat.ltb Nat.leb hd tl _fix_fracs_loop].
      rewrite Hx. reflexivity.
  - intros Ha. unfold _fix_fracs.
    assert (Hsp : split (L "\frac") (a ++ L "\frac") = [a; []]).
    { rewrite <- (app_nil_r (L "\frac")) at 2.
      apply split_once;
        first [exact frac_unbordered | assumption | discriminate
              | reflexivity]. }
    rewrite Hsp. reflexivity.
Qed.

Lemma X15_fix_fracs_witness :
  _fix_fracs (L "\frac{1}{2}") = Ret (L "\frac{1}{2}") /\
  _fix_fracs (L "3" ++ L "\frac" ++ "1"%char :: "2"%char :: L "x")
    = Ret (L "3" ++ L "\frac{" ++ ["1"%char] ++ L "}{" ++ ["2"%char]
             ++ L "}" ++ L "x") /\
  _fix_fracs (L "3" ++ L "\frac") = Raise.
Proof.
  destruct (X15_fix_fracs (L "\frac{1}{2}") (L "3") (L "x") "1"%char "2"%char)
    as (H1 & H2 & H3).
  split; [|split].
  - apply H1. intros pre post H.
    unfold L in H. cbn [list_ascii_of_string] in H.
    destruct pre as [|? pre];
      [cbn [app] in H; injection H as <-; eexists; reflexivity|].
    do 12 (destruct pre as [|? pre]; [discriminate H|]).
    discriminate H.
  - apply H2; [reflexivity|discriminate|reflexivity|discriminate].
  - apply H3. reflexivity.
Defined.

(** ** The elements of a tuple *)

Lemma lstrip_by_incl (p : ascii -> bool) (c : ascii) (s : pystr) :
  In c (lstrip_by p s) -> In c s.
Proof.
  induction s as [|x s IH]; cbn [lstrip_by]; [auto|].
  destruct (p x); [intros H; right; apply IH, H|auto].
Qed.

Lemma strip_by_incl (p : ascii -> bool) (c : ascii) (s : pystr) :
  In c (strip_by p s) -> In c s.
Proof.
  unfold strip_by. intros H.
  apply in_rev, lstrip_by_incl, in_rev in H. apply lstrip_by_incl in H. exact H.
Qed.

Lemma lstrip_by_fixed (p : ascii -> bool) (s : pystr) :
  lstrip_by p (lstrip_by p s) = lstrip_by p s.
Proof.
  induction s as [|x s IH]; [reflexivity|].
  cbn [lstrip_by]. destruct (p x) eqn:Hx; [exact IH|].
  cbn [lstrip_by]. rewrite Hx. reflexivity.
Qed.

(** Stripping on the right keeps a stripped left end. *)
Lemma lstrip_by_rstrip (p : ascii -> bool) (s : pystr) :
  lstrip_by p s = s ->
  lstrip_by p (rev (lstrip_by p (rev s))) = rev (lstrip_by p (rev s)).
Proof.
  intros Hs. destruct s as [|x s]; [reflexivity|].
  cbn [lstrip_by] in Hs. destruct (p x) eqn:Hx.
  - exfalso.
    assert (Hlen : length (lstrip_by p s) <= length s).
    { clear. induction s as [|y s IH]; cbn [lstrip_by]; [lia|].
      destruct (p y); simpl; lia. }
    rewrite Hs in Hlen. simpl in Hlen. lia.
  - cbn [rev]. destruct (lstrip_by p (rev s)) as [|y l] eqn:Hl.
    + apply lstrip_by_all in Hl. rewrite lstrip_by_app_ws by exact Hl.
      cbn [lstrip_by]. rewrite Hx. cbn [rev app lstrip_by]. rewrite Hx.
      reflexivity.
    + rewrite lstrip_by_app_keep by (rewrite Hl; discriminate).
      rewrite Hl, rev_app_distr. cbn [rev app lstrip_by]. rewrite Hx.
      reflexivity.
Qed.

Lemma strip_by_fixed (p : ascii -> bool) (s : pystr) :
  strip_by p (strip_by p s) = strip_by p s.
Proof.
  unfold strip_by.
  rewrite (lstrip_by_rstrip p (lstrip_by p s)) by apply lstrip_by_fixed.
  rewrite rev_involutive, lstrip_by_fixed. reflexivity.
Qed.

Lemma split_chr_hd (c : ascii) (s : pystr) : In (hd [] (split [c] s)) (split [c] s).
Proof.
  pose proof (split_not_nil [c] s) as H.
  destruct (split [c] s); [contradiction|left; reflexivity].
Qed.

Lemma split_chr_elements (c : ascii) (s e : pystr) :
  In e (split [c] s) -> ~ In c e /\ forall a, In a e -> In a s.
Proof.
  revert e. induction s as [|x t IH]; intros e He.
  - destruct He as [<-|[]]. split; [intros []|intros a []].
  - destruct (startswith [c] (x :: t)) eqn:Hm.
    + rewrite split_cons_match in He by (auto; discriminate).
      cbn [length skipn] in He. destruct He as [<-|He].
      * split; [intros []|intros a []].
      * destruct (IH e He) as [Hc Hin]. split; [exact Hc|].
        intros a Ha. right. apply Hin, Ha.
    + rewrite split_cons_other in He by exact Hm.
      cbn [startswith] in Hm. rewrite andb_true_r in Hm.
      apply chr_eqb_false in Hm.
      destruct He as [<-|He].
      * destruct (IH _ (split_chr_hd c t)) as [Hc Hin]. split.
        -- intros [Hx|Hx]; [congruence|exact (Hc Hx)].
        -- intros a [<-|Ha]; [left; reflexivity|right; apply Hin, Ha].
      * assert (He' : In e (split [c] t)).
        { destruct (split [c] t); [contradiction|right; exact He]. }
        destruct (IH e He') as [Hc Hin]. split; [exact Hc|].
        intros a Ha. right. apply Hin, Ha.
Qed.

Lemma interior_incl (c : ascii) (s : pystr) : In c (interior s) -> In c s.
Proof.
  unfold interior. destruct s as [|x t]; cbn [tl]; [auto|].
  intros H. right.
  destruct t as [|y t'] using rev_ind; [exact H|].
  rewrite removelast_last in H. apply in_or_app. left. exact H.
Qed.

Lemma In_not_comma (c : ascii) (s : pystr) :
  c <> ","%char -> In c s <-> In c (filter not_comma s).
Proof.
  intros Hc. rewrite filter_In. unfold not_comma.
  apply chr_eqb_false in Hc. rewrite Hc. cbn [negb]. tauto.
Qed.

Lemma _strip_properly_formatted_commas_incl (c : ascii) (s : pystr) :
  In c (_strip_properly_formatted_commas s) -> In c s.
Proof.
  intros H. destruct (ascii_dec c ","%char) as [->|Hc].
  - destruct (in_dec ascii_dec ","%char s) as [Hin|Hnot]; [exact Hin|].
    rewrite (_strip_properly_formatted_commas_without_comma s Hnot) in H.
    exact H.
  - destruct (_strip_properly_formatted_commas_fixpoint s) as (Hloop & _).
    apply (In_not_comma c _ Hc) in H.
    rewrite (comma_loop_filter _ _ _ Hloop) in H.
    apply (In_not_comma c _ Hc). exact H.
Qed.

(** X16: [split_tuple] returns the empty list for the empty string only;
    every character of an element it returns is a character of the input;
    and when it returns more than one element, each element is stripped and
    holds no comma and no bracket. *)
Theorem X16_split_tuple (s : pystr) :
  (split_tuple s = [] <-> s = []) /\
  (forall e c, In e (split_tuple s) -> In c e -> In c s) /\
  (1 < length (split_tuple s) ->
   forall e, In e (split_tuple s) ->
     strip e = e /\
     forall c, In c e -> c <> ","%char /\ ~ In c TUPLE_CHARS).
Proof.
  split; [|split].
  - split.
    + intros H. destruct s as [|x t]; [reflexivity|].
      elim (split_tuple_nonempty (x :: t)); [discriminate|exact H].
    + intros ->. reflexivity.
  - intros e c He Hc. apply _strip_properly_formatted_commas_incl.
    unfold split_tuple in He.
    destruct (length (_strip_properly_formatted_commas s) =? 0);
      [contradiction|].
    destruct (_ && _ && _ && _).
    + apply in_map_iff in He. destruct He as (e0 & <- & He0).
      apply strip_by_incl in Hc.
      apply interior_incl. apply (split_chr_elements _ _ _ He0), Hc.
    + destruct He as [<-|[]]. exact Hc.
  - intros Hlen e He. unfold split_tuple in Hlen, He.
    destruct (length (_strip_properly_formatted_commas s) =? 0);
      [contradiction|].
    destruct (_ && _ && _ && _) eqn:Hshape;
      [|simpl in Hlen; lia].
    apply andb_true_iff in Hshape. destruct Hshape as [_ Hall].
    apply in_map_iff in He. destruct He as (e0 & <- & He0).
    split; [apply strip_by_fixed|].
    intros c Hc. apply strip_by_incl in Hc.
    destruct (split_chr_elements _ _ _ He0) as [Hcomma Hin].
    split; [intros ->; exact (Hcomma Hc)|].
    intros Hch. rewrite forallb_forall in Hall.
    specialize (Hall c Hch). apply negb_true_iff in Hall.
    apply contains_chr in Hall. apply Hall, Hin, Hc.
Qed.

(** ** Request ids *)

Lemma sub_go_class (p : ascii -> bool) (w : pystr) (s : pystr) :
  forall bos,
    sub_go (Cls p) (fun _ => w) bos s 0
      = concat (map (fun c => if p c then w else [c]) s).
Proof.
  induction s as [|c t IH]; intros bos; [reflexivity|].
  cbn [sub_go map concat]. unfold match_at. cbn [rx].
  destruct (p c); cbn [length]; rewrite IH; reflexivity.
Qed.

Lemma sanitize_safe (s : pystr) :
  forallb id_char s = true -> re_sub re_unsafe (fun _ => L "_") s = s.
Proof.
  intros H. unfold re_sub, re_unsafe. rewrite sub_go_class.
  induction s as [|c t IH]; [reflexivity|].
  cbn [forallb] in H. apply andb_true_iff in H. destruct H as [Hc Ht].
  cbn [map concat]. rewrite Hc. cbn [negb app]. f_equal. apply IH, Ht.
Qed.

Lemma sanitize_chars (s : pystr) :
  forallb id_char (re_sub re_unsafe (fun _ => L "_") s) = true /\
  length (re_sub re_unsafe (fun _ => L "_") s) = length s.
Proof.
  unfold re_sub, re_unsafe. rewrite sub_go_class.
  induction s as [|c t [IH1 IH2]]; [split; reflexivity|].
  cbn [map concat]. change (L "_") with ["_"%char] in *.
  destruct (id_char c) eqn:Hc; cbn [negb app forallb length];
    rewrite IH1, IH2; [rewrite Hc|]; split; reflexivity.
Qed.

Lemma sanitize_app (a b : pystr) :
  re_sub re_unsafe (fun _ => L "_") (a ++ b)
    = re_sub re_unsafe (fun _ => L "_") a
      ++ re_sub re_unsafe (fun _ => L "_") b.
Proof.
  unfold re_sub, re_unsafe. rewrite !sub_go_class, map_app, concat_app.
  reflexivity.
Qed.

Lemma underscore_unbordered : unbordered (L "_").
Proof. intros u Hu Hlen. destruct u; [contradiction|simpl in Hlen; lia]. Qed.

Lemma contains_underscore (s : pystr) :
  ~ In "_"%char s -> contains (L "_") s = false.
Proof. apply contains_without. left; reflexivity. Qed.

(** X17: for a template id made of letters, digits and hyphens, the
    template id read back from a request id ([x.split('_')[0]]) is the one
    the request id was built from, and a request id holds only letters,
    digits, [_] and [-].  When the question number is made of letters, digits
    and hyphens too, the request id is the template id, [_] and the number,
    and the number read back ([x.split('_')[1]]) is the question's. *)
Theorem X17_request_id_round_trip (template_id question_id : pystr) :
  forallb id_char template_id = true -> ~ In "_"%char template_id ->
  custom_id_template_id (request_id template_id question_id) = template_id /\
  forallb id_char (request_id template_id question_id) = true /\
  (forallb id_char (q_id_number question_id) = true ->
   ~ In "_"%char (q_id_number question_id) ->
   request_id template_id question_id
     = template_id ++ L "_" ++ q_id_number question_id /\
   custom_id_question_number (request_id template_id question_id)
     = Ret (q_id_number question_id)).
Proof.
  intros Ht Hu. unfold request_id.
  rewrite !sanitize_app, (sanitize_safe template_id Ht).
  change (re_sub re_unsafe (fun _ => L "_") (L "_")) with (L "_").
  split; [|split].
  - unfold custom_id_template_id.
    rewrite split_first by
      first [exact underscore_unbordered | apply contains_underscore, Hu
            | discriminate].
    reflexivity.
  - rewrite !forallb_app, Ht. cbn [andb].
    change (forallb id_char (L "_")) with true. cbn [andb].
    apply sanitize_chars.
  - intros Hq Hv. rewrite (sanitize_safe _ Hq). split; [reflexivity|].
    unfold custom_id_question_number.
    rewrite split_first by
      first [exact underscore_unbordered | apply contains_underscore, Hu
            | discriminate].
    rewrite split_absent by (apply contains_underscore, Hv). reflexivity.
Qed.

Lemma X17_request_id_round_trip_witness :
  custom_id_template_id
    (request_id (L "1b9d6bcd-bbfd") (L "test/algebra/1072.json"))
    = L "1b9d6bcd-bbfd" /\
  custom_id_question_number
    (request_id (L "1b9d6bcd-bbfd") (L "test/algebra/1072.json"))
    = Ret (L "1072").
Proof.
  destruct (X17_request_id_round_trip (L "1b9d6bcd-bbfd")
              (L "test/algebra/1072.json")) as (H1 & _ & H3).
  - reflexivity.
  - apply contains_chr. reflexivity.
  - split; [exact H1|]. apply H3.
    + reflexivity.
    + apply contains_chr. reflexivity.
Defined.

(** ** The [\text{...}] wrapper *)





Lemma strip_by_kept (p : ascii -> bool) (s : pystr) :
  p (hd nl s) = false -> p (last s nl) = false -> strip_by p s = s.
Proof.
  intros Hh Hl. unfold strip_by.
  assert (H1 : lstrip_by p s = s).
  { destruct s as [|c t]; [reflexivity|]. cbn [hd] in Hh.
    cbn [lstrip_by]. rewrite Hh. reflexivity. }
  rewrite H1.
  assert (H2 : lstrip_by p (rev s) = rev s).
  { destruct s as [|c t] using rev_ind; [reflexivity|].
    rewrite last_last in Hl. rewrite rev_app_distr. cbn [rev app lstrip_by].
    rewrite Hl. reflexivity. }
  rewrite H2. apply rev_involutive.
Qed.




(** ** Spaces in a SyntacticNormalForm *)

Lemma split_incl (sep s e : pystr) (c : ascii) :
  sep <> [] -> In e (split sep s) -> In c e -> In c s.
Proof.
  intros Hsep He Hc. rewrite (split_join sep Hsep s).
  destruct (split sep s) as [|p ps]; [contradiction|]. cbn [hd tl].
  apply in_or_app. destruct He as [->|He]; [left; exact Hc|right].
  apply in_concat. exists (sep ++ e). split.
  - apply in_map, He.
  - apply in_or_app. right. exact Hc.
Qed.

Lemma not_In_app (c : ascii) (a b : pystr) :
  ~ In c a -> ~ In c b -> ~ In c (a ++ b).
Proof. intros Ha Hb H. apply in_app_or in H. tauto. Qed.

Lemma _fix_fracs_loop_no_space (string : pystr) (substrs : list pystr) :
  ~ In " "%char string ->
  (forall e, In e substrs -> ~ In " "%char e) ->
  forall acc r, ~ In " "%char acc ->
    _fix_fracs_loop string substrs acc = Ret r -> ~ In " "%char r.
Proof.
  intros Hstring. induction substrs as [|e rest IH]; intros Hall acc r Hacc H.
  - cbn [_fix_fracs_loop] in H. inversion H; subst. exact Hacc.
  - assert (He : ~ In " "%char e) by (apply Hall; left; reflexivity).
    assert (Hrest : forall e', In e' rest -> ~ In " "%char e')
      by (intros e' He'; apply Hall; right; exact He').
    assert (Hfrac : ~ In " "%char (acc ++ L "\frac")).
    { apply not_In_app; [exact Hacc|]. apply contains_chr. reflexivity. }
    cbn [_fix_fracs_loop] in H.
    destruct e as [|a tl]; [discriminate H|].
    assert (Ha : a <> " "%char) by (intros ->; apply He; left; reflexivity).
    assert (Hskip : ~ In " "%char (skipn 2 (a :: tl))).
    { intros Hin. apply He. rewrite <- (firstn_skipn 2 (a :: tl)).
      apply in_or_app. right. exact Hin. }
    destruct (chr_eqb a "{").
    + apply (IH Hrest _ _ (not_In_app _ _ _ Hfrac He) H).
    + destruct tl as [|b tl']; [inversion H; subst; exact Hstring|].
      assert (Hb : b <> " "%char)
        by (intros ->; apply He; right; left; reflexivity).
      assert (Hone : forall x : ascii, x <> " "%char -> ~ In " "%char [x])
        by (intros x Hx [Hin|[]]; congruence).
      assert (Hlit : forall w, contains (L " ") (L w) = false ->
                               ~ In " "%char (L w))
        by (intros w Hw; apply contains_chr, Hw).
      destruct (negb (chr_eqb b "{")); destruct (2 <? length (a :: b :: tl'));
        apply (IH Hrest _ _) in H; try exact H;
        repeat (apply not_In_app);
        first [ exact Hacc | exact Hskip | apply Hone; assumption
              | apply contains_chr; reflexivity ].
Qed.

Lemma _fix_fracs_no_space (s r : pystr) :
  ~ In " "%char s -> _fix_fracs s = Ret r -> ~ In " "%char r.
Proof.
  intros Hs H. unfold _fix_fracs in H.
  assert (Hall : forall e, In e (split (L "\frac") s) -> ~ In " "%char e).
  { intros e He Hin. apply Hs.
    apply (split_incl (L "\frac") s e); [discriminate|exact He|exact Hin]. }
  pose proof (split_not_nil (L "\frac") s) as Hnn.
  destruct (split (L "\frac") s) as [|p ps]; [contradiction|].
  cbn [hd tl] in H.
  assert (Hp : ~ In " "%char p) by (apply Hall; left; reflexivity).
  destruct (1 <? length (p :: ps)).
  - apply (_fix_fracs_loop_no_space s ps Hs) with (acc := p) (r := r); auto.
    intros e He. apply Hall. right. exact He.
  - inversion H; subst. exact Hp.
Qed.

Lemma _fix_a_slash_b_no_space (s : pystr) :
  ~ In " "%char s -> ~ In " "%char (_fix_a_slash_b s).
Proof.
  intros Hs. destruct (_fix_a_slash_b_cases s) as [->|(a & b & _ & ->)];
    [exact Hs|].
  repeat (apply not_In_app);
    first [ apply str_of_int_without; [reflexivity|discriminate]
          | apply contains_chr; reflexivity ].
Qed.

Lemma filter_no_space (s : pystr) :
  ~ In " "%char (filter (fun c => negb (chr_eqb c " ")) s).
Proof.
  intros Hin. apply filter_In in Hin. destruct Hin as [_ Hin].
  vm_compute in Hin. discriminate Hin.
Qed.

Lemma _strip_string_no_space (s r : pystr) :
  _strip_string s = Ret r -> ~ In " "%char r.
Proof.
  unfold _strip_string. destruct (length s =? 0) eqn:Hlen.
  - intros H. inversion H; subst. apply Nat.eqb_eq in Hlen.
    destruct r; [intros []|discriminate Hlen].
  - destruct (_remove_right_units (strip_head s)) as [u|]; [|discriminate].
    cbn [bind]. unfold strip_tail.
    destruct (_fix_sqrt _) as [q|]; [|discriminate]. cbn [bind].
    destruct (_fix_fracs _) as [g|] eqn:Hg; [|discriminate]. cbn [bind].
    intros H. inversion H; subst r. apply _fix_a_slash_b_no_space.
    destruct (str_eqb g (L "0.5")); [apply contains_chr; reflexivity|].
    apply (_fix_fracs_no_space _ _ (filter_no_space q) Hg).
Qed.

(** X19: a SyntacticNormalForm that [_strip_string] returns holds no
    space: what [normalize_answer] returns holds none unless
    [_strip_string] was left by an exception. *)
Theorem X19_no_space_left (s r : pystr) :
  (_strip_string s = Ret r -> ~ In " "%char r) /\
  (normalize_answer (Some s) = Some r ->
   _strip_string (unwrap_text s) <> Raise -> ~ In " "%char r).
Proof.
  split; [apply _strip_string_no_space|].
  unfold normalize_answer. intros H Hraise.
  destruct (_strip_string (unwrap_text s)) as [r'|] eqn:Hr';
    [|contradiction].
  cbn [try_except] in H. inversion H; subst r'.
  apply (_strip_string_no_space _ _ Hr').
Qed.

Lemma X19_no_space_left_witness :
  _strip_string (L "x = 1 / 2") = Ret (L "\frac{1}{2}") /\
  ~ In " "%char (L "\frac{1}{2}").
Proof.
  assert (H : _strip_string (L "x = 1 / 2") = Ret (L "\frac{1}{2}"))
    by (vm_compute; reflexivity).
  split; [exact H|].
  exact (proj1 (X19_no_space_left (L "x = 1 / 2") (L "\frac{1}{2}")) H).
Defined.

(** ** Numerals with a decimal point or a thousands separator *)

Section Decimals.
Local Open Scope Z_scope.

(** A quotient that is an integer below [2^53] is a binary64 value. *)
Lemma round_binary64_divisible (n q : Z) :
  0 < n < 2 ^ 53 -> 0 < q -> exact (round_binary64 (n * q) q) n.
Proof.
  intros Hn Hq. unfold round_binary64.
  assert (Hln : 0 <= Z.log2 n <= 52).
  { split; [apply Z.log2_nonneg|].
    assert (Z.log2 n < 53) by (apply Z.log2_lt_pow2; lia). lia. }
  pose proof (Z.log2_mul_below n q ltac:(lia) Hq) as Hbelow.
  pose proof (Z.log2_mul_above n q ltac:(lia) ltac:(lia)) as Habove.
  set (e0 := Z.log2 (n * q) - Z.log2 q).
  assert (He0 : Z.log2 n <= e0 <= Z.log2 n + 1) by (unfold e0; lia).
  unfold scale2 at 1.
  replace (0 <=? e0) with true by (symmetry; apply Z.leb_le; lia).
  cbv beta iota zeta.
  set (e1 := if n * q <? q * 2 ^ e0 then e0 - 1 else e0).
  assert (He1 : -1 <= e1 <= 52).
  { unfold e1. destruct (n * q <? q * 2 ^ e0) eqn:Hlt; [lia|].
    apply Z.ltb_ge in Hlt.
    assert (e0 <= 52); [|lia].
    destruct (Z.le_gt_cases e0 52) as [Hle|Hgt]; [exact Hle|exfalso].
    assert (e0 = 53) by lia.
    assert (q * 2 ^ 53 <= n * q) by congruence. nia. }
  replace (Z.max (e1 - 52) (-1074)) with (e1 - 52) by lia.
  unfold scale2.
  destruct (0 <=? e1 - 52) eqn:He.
  - apply Z.leb_le in He. assert (e1 = 52) as -> by lia.
    change (52 - 52) with 0. change (2 ^ 0) with 1.
    cbv beta iota zeta. rewrite (Z.mul_1_r q).
    rewrite round_half_even_exact by exact Hq.
    replace (2 ^ 1024 <=? n * 1) with false.
    + exists (inject_Z (n * 1)). split; [reflexivity|]. cbn. lia.
    + symmetry. apply Z.leb_gt. rewrite Z.mul_1_r.
      apply Z.lt_trans with (2 ^ 53); [lia|]. reflexivity.
  - apply Z.leb_gt in He. cbv beta iota zeta.
    replace (n * q * 2 ^ (- (e1 - 52))) with (n * 2 ^ (- (e1 - 52)) * q)
      by ring.
    rewrite round_half_even_exact by exact Hq.
    eexists. split; [reflexivity|]. cbn [Qnum Qden].
    rewrite Z2Pos.id; [reflexivity|]. apply Z.pow_pos_nonneg; lia.
Qed.

Lemma decimal_value_zeros (n : Z) (k : nat) :
  0 <= n < 2 ^ 53 ->
  exact (decimal_value (n * 10 ^ Z.of_nat k) (0 - Z.of_nat k)) n.
Proof.
  intros Hn. destruct k as [|k].
  - change (Z.of_nat 0) with 0. change (10 ^ 0) with 1. rewrite Z.mul_1_r.
    change (0 - 0) with 0. apply decimal_value_small, Hn.
  - unfold decimal_value.
    assert (Hpow : 0 < 10 ^ Z.of_nat (S k)) by (apply Z.pow_pos_nonneg; lia).
    destruct (n * 10 ^ Z.of_nat (S k) =? 0) eqn:Hz.
    + apply Z.eqb_eq in Hz. assert (n = 0) by nia. subst n.
      exists 0%Q. split; reflexivity.
    + apply Z.eqb_neq in Hz.
      replace (0 <=? 0 - Z.of_nat (S k)) with false
        by (symmetry; apply Z.leb_gt; lia).
      replace (- (0 - Z.of_nat (S k))) with (Z.of_nat (S k)) by lia.
      apply round_binary64_divisible; [nia|exact Hpow].
Qed.

(** A digit run stops in front of a character that is no digit and no
    underscore. *)
Lemma digitpart_go_stop (ds : pystr) (c : ascii) (t : pystr) :
  forall a k, forallb isdigit ds = true ->
    isdigit c = false -> chr_eqb c "_" = false ->
    digitpart_go (ds ++ c :: t) a k
      = (fold_left digit_step ds a, (k + length ds)%nat, c :: t).
Proof.
  induction ds as [|x ds IH]; intros a k H Hc Hu.
  - cbn [app digitpart_go fold_left length]. rewrite Hc, Hu, Nat.add_0_r.
    reflexivity.
  - cbn [forallb] in H. apply andb_true_iff in H. destruct H as [Hx Hds].
    cbn [app digitpart_go fold_left length]. rewrite Hx, (IH _ _ Hds Hc Hu).
    rewrite Nat.add_succ_r. reflexivity.
Qed.

Lemma fold_zeros (zs : pystr) (a : Z) :
  forallb (is_chr "0") zs = true ->
  forallb isdigit zs = true /\
  fold_left digit_step zs a = a * 10 ^ Z.of_nat (length zs).
Proof.
  revert a. induction zs as [|z zs IH]; intros a H.
  - split; [reflexivity|]. cbn. lia.
  - cbn [forallb] in H. apply andb_true_iff in H. destruct H as [Hz Hzs].
    apply chr_eqb_true in Hz. subst z.
    destruct (IH (digit_step a "0") Hzs) as [Hd Hf]. split.
    + cbn [forallb]. rewrite Hd. reflexivity.
    + cbn [fold_left length]. rewrite Hf. unfold digit_step.
      change (digit_val "0") with 0.
      replace (Z.of_nat (S (length zs))) with (Z.succ (Z.of_nat (length zs)))
        by lia.
      rewrite Z.pow_succ_r by lia. ring.
Qed.

(** [float] of an optional minus sign and a numeral that starts with a digit
    and does not end in whitespace. *)
Lemma py_float_body (neg : bool) (d : ascii) (t : pystr) :
  isdigit d = true -> isspace_numeral (last (d :: t) nl) = false ->
  py_float ((if neg then L "-" else []) ++ d :: t)
    = match float_number (d :: t) with
      | Some (m, e) => Ret (qneg neg (decimal_value m e))
      | None => Raise
      end.
Proof.
  intros Hd Hlast.
  destruct (digit_facts d Hd) as (Hsp & Hlow & Hminus & Hplus & Hi & Hn & _).
  unfold py_float.
  rewrite strip_by_kept.
  - assert (Hsign : sign ((if neg then L "-" else []) ++ d :: t)
                    = (neg, d :: t)).
    { destruct neg; cbn [app]; [reflexivity|].
      unfold sign. rewrite Hminus, Hplus. reflexivity. }
    rewrite Hsign. cbn [lower map]. rewrite Hlow.
    unfold L at 1 2 3. cbn [list_ascii_of_string str_eqb].
    rewrite Hi, Hn. cbn [andb orb]. reflexivity.
  - destruct neg; cbn [app hd]; [reflexivity|exact Hsp].
  - destruct neg; cbn [app]; [|exact Hlast].
    change (L "-" ++ d :: t) with ("-"%char :: d :: t).
    cbn [last] in Hlast |- *. exact Hlast.
Qed.


Lemma float_number_point (d : ascii) (ds zs : pystr) :
  isdigit d = true -> forallb isdigit ds = true ->
  forallb (is_chr "0") zs = true ->
  float_number (d :: ds ++ L "." ++ zs)
    = Some (fold_left digit_step (d :: ds) 0 * 10 ^ Z.of_nat (length zs),
            0 - Z.of_nat (length zs)).
Proof.
  intros Hd Hds Hzs. unfold float_number, digitpart_from. rewrite Hd.
  change (L "." ++ zs) with ("."%char :: zs).
  rewrite digitpart_go_stop by (try exact Hds; reflexivity).
  change (chr_eqb "." ".") with true. cbv iota.
  change (fold_left digit_step ds (10 * 0 + digit_val d))
    with (fold_left digit_step (d :: ds) 0).
  set (ip := fold_left digit_step (d :: ds) 0).
  destruct zs as [|z zs'].
  - cbn [float_exponent option_map length].
    change (Z.of_nat 0) with 0. change (10 ^ 0) with 1. rewrite Z.mul_1_r.
    reflexivity.
  - destruct (fold_zeros (z :: zs') ip Hzs) as [Hdig Hfold].
    cbn [forallb] in Hdig. apply andb_true_iff in Hdig.
    destruct Hdig as [Hz Hzs'].
    rewrite Hz. rewrite digitpart_go_digits by exact Hzs'.
    cbn [float_exponent option_map].
    change (fold_left digit_step zs' (10 * ip + digit_val z))
      with (fold_left digit_step (z :: zs') ip).
    rewrite Hfold. reflexivity.
Qed.

Lemma float_number_digits (d : ascii) (ds : pystr) :
  isdigit d = true -> forallb isdigit ds = true ->
  float_number (d :: ds) = Some (fold_left digit_step (d :: ds) 0, 0).
Proof.
  intros Hd Hds. unfold float_number, digitpart_from. rewrite Hd.
  rewrite digitpart_go_digits by exact Hds. reflexivity.
Qed.

Lemma float_number_comma (d : ascii) (ds t : pystr) :
  isdigit d = true -> forallb isdigit ds = true ->
  float_number (d :: ds ++ L "," ++ t) = None.
Proof.
  intros Hd Hds. unfold float_number, digitpart_from. rewrite Hd.
  change (L "," ++ t) with (","%char :: t).
  rewrite digitpart_go_stop by (try exact Hds; reflexivity).
  reflexivity.
Qed.

Lemma last_In (l : pystr) (c : ascii) : l <> [] -> In (last l c) l.
Proof.
  induction l as [|x l IH]; intros H; [contradiction|].
  destruct l as [|y l]; [left; reflexivity|].
  right. apply IH. discriminate.
Qed.

Lemma digit_val_range (c : ascii) : isdigit c = true -> 0 <= digit_val c <= 9.
Proof.
  destruct c as [[] [] [] [] [] [] [] []]; vm_compute; intros H;
    try discriminate H; split; discriminate.
Qed.

Lemma fold_digits_bound (ds : pystr) :
  forall a, forallb isdigit ds = true -> 0 <= a ->
    0 <= fold_left digit_step ds a < (a + 1) * 10 ^ Z.of_nat (length ds).
Proof.
  induction ds as [|c ds IH]; intros a H Ha.
  - cbn [fold_left length]. change (Z.of_nat 0) with 0.
    change (10 ^ 0) with 1. lia.
  - cbn [forallb] in H. apply andb_true_iff in H. destruct H as [Hc Hds].
    pose proof (digit_val_range c Hc) as Hv.
    cbn [fold_left length].
    specialize (IH (digit_step a c) Hds ltac:(unfold digit_step; lia)).
    replace (Z.of_nat (S (length ds))) with (Z.succ (Z.of_nat (length ds)))
      by lia.
    rewrite Z.pow_succ_r by lia.
    assert (0 < 10 ^ Z.of_nat (length ds)) by (apply Z.pow_pos_nonneg; lia).
    assert (Hstep : digit_step a c = 10 * a + digit_val c) by reflexivity.
    rewrite Hstep in IH |- *.
    set (P := 10 ^ Z.of_nat (length ds)) in *.
    assert (Hle : (10 * a + digit_val c + 1) * P <= (10 * a + 10) * P)
      by (apply Z.mul_le_mono_nonneg_r; lia).
    replace ((a + 1) * (10 * P)) with ((10 * a + 10) * P) by ring.
    lia.
Qed.

End Decimals.

(** A string of digits, signs, points and commas holds nothing the rewrites
    of [_normalize] look for. *)
Lemma numeral_settled (s : pystr) :
  (forall c, In c s ->
     isdigit c = true \/ c = "-"%char \/ c = "."%char \/ c = ","%char) ->
  clean s /\ trigger_free s = true.
Proof.
  intros H.
  assert (Hnot : forall c, isdigit c = false -> c <> "-"%char ->
                           c <> "."%char -> c <> ","%char -> ~ In c s).
  { intros c Hd H1 H2 H3 Hin.
    destruct (H c Hin) as [Hc|[Hc|[Hc|Hc]]]; congruence. }
  split.
  - unfold clean. repeat split;
      try (apply Hnot; [reflexivity|discriminate..]).
    unfold lower. rewrite <- (map_id s) at 2.
    apply map_ext_in. intros c Hc.
    destruct (H c Hc) as [Hd | [-> | [-> | ->]]]; try reflexivity.
    apply digit_facts, Hd.
  - unfold trigger_free. apply forallb_forall. intros w Hw.
    apply negb_true_iff.
    unfold rewrite_triggers, units in Hw. cbn [app In] in Hw.
    repeat (destruct Hw as [<-|Hw];
            [unfold L; cbn [list_ascii_of_string];
             eapply contains_without;
             [left; reflexivity
             |apply Hnot; [reflexivity|discriminate..]]|]).
    contradiction.
Qed.

Lemma grade_answer_equal_forms (E : Engine) (given truth : pystr) :
  given <> [] ->
  _normalize E (Some given) = _normalize E (Some truth) ->
  grade_answer E (Some given) truth = Ret true.
Proof.
  intros Hne Heq. unfold grade_answer, grade_answer_at.
  destruct (str_eqb given []) eqn:Hemp;
    [apply str_eqb_true in Hemp; contradiction|].
  destruct (option_eqb _ _); [reflexivity|].
  rewrite <- Heq.
  destruct (_normalize_returns E given) as (gn & ->). cbn [bind option_eqb].
  rewrite str_eqb_refl. reflexivity.
Qed.

(** What [_normalize] makes of a numeral that [float] reads as the integer
    [n]. *)
Lemma _normalize_integer_value (E : Engine) (s : pystr) (x : pyfloat) (n : Z) :
  clean s -> trigger_free s = true ->
  py_float s = Ret x -> exact x n -> (Z.abs n < 2 ^ 53)%Z ->
  _normalize E (Some s) = Ret (Some (str_of_int n)).
Proof.
  intros Hclean Hfree Hx Hex Hn. unfold _normalize.
  rewrite (normalize_rewrite_id s Hclean Hfree).
  unfold coerce_float, _is_float, _is_int. rewrite Hx. cbn [bind try_except].
  rewrite (exact_near_integer x n Hex). cbn [try_except bind].
  rewrite (exact_round x n Hex). cbn [bind].
  rewrite unlatex_id by (apply str_of_int_without; [reflexivity|discriminate]).
  rewrite (normalize_cleanup_id _ (str_of_int_clean n)).
  rewrite (coerce_int_numeral n Hn). reflexivity.
Qed.

(** X20: an integer below [2^53] in magnitude written with a decimal point
    and zeros behind it, as [12.] or [-12.00], has the ExtendedNormalForm of
    the integer, and is graded [true] against the integer. *)
Theorem X20_zero_decimals (E : Engine) (n : Z) (zeros : pystr) :
  (Z.abs n < 2 ^ 53)%Z -> forallb (is_chr "0") zeros = true ->
  _normalize E (Some (str_of_int n ++ L "." ++ zeros))
    = Ret (Some (str_of_int n)) /\
  grade_answer E (Some (str_of_int n ++ L "." ++ zeros)) (str_of_int n)
    = Ret true.
Proof.
  intros Hn Hz.
  destruct (str_of_int_spec n) as (ds & Hs & Hall & Hne & Hval).
  destruct ds as [|d ds']; [contradiction|].
  pose proof Hall as Hall'.
  cbn [forallb] in Hall. apply andb_true_iff in Hall. destruct Hall as [Hd Hds].
  destruct (fold_zeros zeros 0%Z Hz) as [Hzd _].
  assert (Hchars : forall c, In c (str_of_int n ++ L "." ++ zeros) ->
            isdigit c = true \/ c = "-"%char \/ c = "."%char \/ c = ","%char).
  { intros c Hc. apply in_app_or in Hc. destruct Hc as [Hc|Hc].
    - apply str_of_int_chars in Hc. tauto.
    - destruct Hc as [<-|Hc]; [tauto|].
      left. rewrite forallb_forall in Hzd. apply Hzd, Hc. }
  destruct (numeral_settled _ Hchars) as [Hclean Hfree].
  assert (Hnorm : _normalize E (Some (str_of_int n ++ L "." ++ zeros))
                  = Ret (Some (str_of_int n))).
  { apply (_normalize_integer_value E _
             (qneg (n <? 0)%Z
                (decimal_value (Z.abs n * 10 ^ Z.of_nat (length zeros))
                               (0 - Z.of_nat (length zeros)))) n);
      auto.
    - rewrite Hs, <- app_assoc. cbn [app].
      rewrite py_float_body.
      + rewrite float_number_point by assumption. rewrite Hval. reflexivity.
      + exact Hd.
      + assert (Hin : In (last (d :: ds' ++ L "." ++ zeros) nl)
                         (d :: ds' ++ L "." ++ zeros))
          by (apply last_In; discriminate).
        assert (Hc : isdigit (last (d :: ds' ++ L "." ++ zeros) nl) = true \/
                     last (d :: ds' ++ L "." ++ zeros) nl = "."%char).
        { change (d :: ds' ++ L "." ++ zeros)
            with ((d :: ds') ++ "."%char :: zeros) in Hin |- *.
          apply in_app_or in Hin. rewrite forallb_forall in Hall', Hzd.
          destruct Hin as [Hin|[Hin|Hin]]; auto. }
        destruct Hc as [Hc| ->]; [apply digit_facts, Hc|reflexivity].
    - replace n with (apply_sign (n <? 0)%Z (Z.abs n)) at 3.
      + apply qneg_exact, decimal_value_zeros. lia.
      + unfold apply_sign. destruct (n <? 0)%Z eqn:H;
          [apply Z.ltb_lt in H|apply Z.ltb_ge in H]; lia. }
  split; [exact Hnorm|].
  apply grade_answer_equal_forms.
  - rewrite Hs. destruct (n <? 0)%Z; discriminate.
  - etransitivity; [exact Hnorm|]. symmetry.
    apply _normalize_fixpoint;
      auto using str_of_int_clean, str_of_int_trigger_free,
                 coerce_float_numeral, coerce_int_numeral.
Qed.

Lemma X20_zero_decimals_witness :
  _normalize failing_engine (Some (str_of_int (-12) ++ L "." ++ L "00"))
    = Ret (Some (str_of_int (-12))) /\
  grade_answer failing_engine (Some (str_of_int (-12) ++ L "." ++ L "00"))
    (str_of_int (-12)) = Ret true.
Proof.
  apply (X20_zero_decimals failing_engine (-12)%Z (L "00"));
    vm_compute; reflexivity.
Defined.

(** ** Thousands separators *)

(** The pattern has no anchor at its front: a match does not depend on where
    the scan stands. *)
Lemma comma_match_anywhere (bos : bool) (s : pystr) :
  match_at re_comma bos s = match_at re_comma false s.
Proof.
  destruct bos; [|reflexivity].
  unfold match_at, re_comma. destruct s as [|c t]; [reflexivity|].
  cbn [rx andb is_nil]. reflexivity.
Qed.

Lemma comma_scan_anywhere (repl : captures -> pystr) (bos : bool) (s : pystr) :
  sub_go re_comma repl bos s 0 = sub_go re_comma repl false s 0.
Proof.
  destruct s as [|c t]; cbn [sub_go]; rewrite comma_match_anywhere;
    reflexivity.
Qed.

(** No match starts at a character that no comma follows. *)
Lemma comma_scan_other (repl : captures -> pystr) (x y : ascii) (t : pystr) :
  chr_eqb y "," = false ->
  sub_go re_comma repl false (x :: y :: t) 0
    = x :: sub_go re_comma repl false (y :: t) 0.
Proof.
  intros Hy. cbn [sub_go].
  assert (Hm : match_at re_comma false (x :: y :: t) = None).
  { unfold match_at, re_comma. cbn [rx]. destruct (isdigit x); [|reflexivity].
    unfold strip_prefix, L. cbn [list_ascii_of_string startswith].
    unfold chr_eqb in *. rewrite Ascii.eqb_sym, Hy. reflexivity. }
  rewrite Hm. reflexivity.
Qed.

Lemma comma_scan_comma (repl : captures -> pystr) (t : pystr) :
  sub_go re_comma repl false (","%char :: t) 0
    = ","%char :: sub_go re_comma repl false t 0.
Proof. reflexivity. Qed.

Lemma comma_scan_last (repl : captures -> pystr) (x : ascii) :
  sub_go re_comma repl false [x] 0 = [x].
Proof.
  cbn [sub_go]. unfold match_at, re_comma. cbn [rx].
  destruct (isdigit x); reflexivity.
Qed.

Lemma digit_not_comma (c : ascii) : isdigit c = true -> chr_eqb c "," = false.
Proof. intros H. apply chr_eqb_false. apply digit_facts, H. Qed.

Lemma digit_not_newline (c : ascii) :
  isdigit c = true -> chr_eqb c "010" = false.
Proof.
  destruct c as [[] [] [] [] [] [] [] []]; vm_compute; intros H;
    try discriminate H; reflexivity.
Qed.

(** The scan passes a run of digits that a digit follows. *)
Lemma comma_scan_digits (repl : captures -> pystr) (ds : pystr) (d : ascii)
    (rest : pystr) :
  forallb isdigit ds = true -> isdigit d = true ->
  sub_go re_comma repl false (ds ++ d :: rest) 0
    = ds ++ sub_go re_comma repl false (d :: rest) 0.
Proof.
  intros Hds Hd. induction ds as [|x ds IH]; [reflexivity|].
  cbn [forallb] in Hds. apply andb_true_iff in Hds. destruct Hds as [Hx Hds].
  cbn [app]. destruct ds as [|y ds'].
  - cbn [app]. rewrite comma_scan_other by (apply digit_not_comma, Hd).
    reflexivity.
  - cbn [app] in IH |- *. cbn [forallb] in Hds.
    rewrite comma_scan_other
      by (apply digit_not_comma; apply andb_true_iff in Hds; tauto).
    rewrite IH by exact Hds. reflexivity.
Qed.

Lemma comma_scan_plain (repl : captures -> pystr) (ds : pystr) :
  forallb isdigit ds = true ->
  sub_go re_comma repl false ds 0 = ds.
Proof.
  intros Hds. destruct ds as [|d ds] using rev_ind; [reflexivity|].
  rewrite forallb_app in Hds. apply andb_true_iff in Hds.
  destruct Hds as [Hds Hd]. cbn [forallb] in Hd. rewrite andb_true_r in Hd.
  rewrite comma_scan_digits by assumption.
  rewrite comma_scan_last. reflexivity.
Qed.

(** A digit, a comma and three digits at the end of the string. *)
Lemma comma_scan_group_end (d a b c : ascii) :
  isdigit d = true -> isdigit a = true -> isdigit b = true ->
  isdigit c = true ->
  sub_go re_comma (fun m => group 1 m ++ group 3 m ++ group 4 m) false
         [d; ","%char; a; b; c] 0
    = [d; a; b; c].
Proof.
  intros Hd Ha Hb Hc.
  cbn [sub_go]. unfold match_at, re_comma.
  cbn [rx rep strip_prefix or_else]. rewrite Hd.
  unfold L. cbn [list_ascii_of_string].
  change (strip_prefix [","%char] [","%char; a; b; c]) with (Some [a; b; c]).
  cbv beta iota. rewrite Ha, Hb, Hc.
  cbn [app or_else length group Nat.eqb sub_go].
  unfold match_at. cbn [rx]. reflexivity.
Qed.

Lemma sub_go_no_match (r : re) (repl : captures -> pystr) (bos : bool)
    (c : ascii) (t : pystr) :
  match_at r bos (c :: t) = None ->
  sub_go r repl bos (c :: t) 0 = c :: sub_go r repl false t 0.
Proof. intros Hm. cbn [sub_go]. rewrite Hm. reflexivity. Qed.

Lemma sub_go_match (r : re) (repl : captures -> pystr) (bos : bool)
    (c : ascii) (t m s' : pystr) (caps : captures) (k : nat) :
  match_at r bos (c :: t) = Some (m, s', caps) -> length m = S k ->
  sub_go r repl bos (c :: t) 0 = repl caps ++ sub_go r repl false (skipn k t) 0.
Proof.
  intros Hm Hlen. cbn [sub_go]. rewrite Hm, Hlen.
  rewrite sub_go_skip. reflexivity.
Qed.

(** A digit, a comma and three digits in front of another comma: the second
    comma is part of the match, and the scan goes on behind it. *)
Lemma comma_match_group_comma (d a b c : ascii) (t : pystr) :
  isdigit d = true -> isdigit a = true -> isdigit b = true ->
  isdigit c = true ->
  match_at re_comma false (d :: ","%char :: a :: b :: c :: ","%char :: t)
    = Some ([d; ","%char; a; b; c; ","%char], t,
            [(4, [","%char]); (3, [a; b; c]); (2, [","%char]); (1, [d])]).
Proof.
  intros Hd Ha Hb Hc.
  unfold match_at, re_comma.
  cbn [rx rep strip_prefix or_else]. rewrite Hd.
  unfold L. cbn [list_ascii_of_string].
  change (strip_prefix [","%char] (","%char :: a :: b :: c :: ","%char :: t))
    with (Some (a :: b :: c :: ","%char :: t)).
  cbv beta iota. rewrite Ha, Hb, Hc.
  change (not_digit ",") with true.
  change (chr_eqb "," "010") with false.
  destruct t as [|x t']; reflexivity.
Qed.

Lemma comma_scan_group_comma (d a b c : ascii) (t : pystr) :
  isdigit d = true -> isdigit a = true -> isdigit b = true ->
  isdigit c = true ->
  sub_go re_comma (fun m => group 1 m ++ group 3 m ++ group 4 m) false
         (d :: ","%char :: a :: b :: c :: ","%char :: t) 0
    = [d; a; b; c; ","%char]
        ++ sub_go re_comma (fun m => group 1 m ++ group 3 m ++ group 4 m)
                  false t 0.
Proof.
  intros Hd Ha Hb Hc.
  rewrite (sub_go_match _ _ _ _ _ _ _ _ 5
             (comma_match_group_comma d a b c t Hd Ha Hb Hc) eq_refl).
  reflexivity.
Qed.

(** A digit, a comma and four digits: no match. *)
Lemma comma_scan_group_digit (repl : captures -> pystr) (d a b c x : ascii)
    (t : pystr) :
  isdigit a = true -> isdigit b = true -> isdigit c = true ->
  isdigit x = true ->
  sub_go re_comma repl false (d :: ","%char :: a :: b :: c :: x :: t) 0
    = d :: ","%char :: sub_go re_comma repl false (a :: b :: c :: x :: t) 0.
Proof.
  intros Ha Hb Hc Hx.
  assert (Hm : match_at re_comma false
                 (d :: ","%char :: a :: b :: c :: x :: t) = None).
  { unfold match_at, re_comma. cbn [rx rep strip_prefix or_else].
    destruct (isdigit d); [|reflexivity].
    unfold L. cbn [list_ascii_of_string].
    change (strip_prefix [","%char] (","%char :: a :: b :: c :: x :: t))
      with (Some (a :: b :: c :: x :: t)).
    cbv beta iota. rewrite Ha, Hb, Hc.
    unfold not_digit. rewrite Hx. cbn [negb or_else].
    destruct t; [rewrite (digit_not_newline x Hx)|]; reflexivity. }
  rewrite (sub_go_no_match _ _ _ _ _ Hm), comma_scan_comma. reflexivity.
Qed.

Lemma comma_loop_result (fuel : nat) (s r : pystr) :
  comma_loop fuel s = Some r -> _strip_properly_formatted_commas s = r.
Proof.
  intros H.
  destruct (_strip_properly_formatted_commas_fixpoint s) as (Hloop & _).
  pose proof (comma_loop_more_fuel _ _ _ (fuel + S (length s)) H
                ltac:(lia)) as H1.
  pose proof (comma_loop_more_fuel _ _ _ (fuel + S (length s)) Hloop
                ltac:(lia)) as H2.
  congruence.
Qed.

Lemma comma_pass_scan (s : pystr) :
  comma_pass s
    = sub_go re_comma (fun m => group 1 m ++ group 3 m ++ group 4 m) false s 0.
Proof. unfold comma_pass, re_sub. apply comma_scan_anywhere. Qed.

Lemma str_eqb_shorter (a b : pystr) :
  length a < length b -> str_eqb a b = false.
Proof. intros H. apply str_eqb_false. intros ->. lia. Qed.

Lemma digits_no_comma (w : pystr) :
  forallb isdigit w = true -> ~ In ","%char w.
Proof.
  intros H Hin. rewrite forallb_forall in H. specialize (H _ Hin).
  discriminate H.
Qed.

Lemma py_float_digits (w : pystr) :
  w <> [] -> forallb isdigit w = true ->
  py_float w = Ret (decimal_value (fold_left digit_step w 0%Z) 0%Z).
Proof.
  intros Hne Hw. destruct w as [|h w']; [contradiction|].
  pose proof Hw as Hall.
  cbn [forallb] in Hw. apply andb_true_iff in Hw. destruct Hw as [Hh Hw'].
  assert (Hlast : isspace_numeral (last (h :: w') nl) = false).
  { rewrite forallb_forall in Hall.
    apply digit_facts, Hall, last_In. discriminate. }
  pose proof (py_float_body false h w' Hh Hlast) as Hb.
  cbn [app] in Hb. rewrite Hb.
  rewrite (float_number_digits h w' Hh Hw').
  destruct (decimal_value _ _); reflexivity.
Qed.

Lemma py_float_comma (w t : pystr) :
  w <> [] -> forallb isdigit w = true ->
  isspace_numeral (last (w ++ L "," ++ t) nl) = false ->
  py_float (w ++ L "," ++ t) = Raise.
Proof.
  intros Hne Hw Hlast. destruct w as [|h w']; [contradiction|].
  cbn [forallb] in Hw. apply andb_true_iff in Hw. destruct Hw as [Hh Hw'].
  cbn [app] in Hlast |- *.
  pose proof (py_float_body false h (w' ++ L "," ++ t) Hh Hlast) as Hb.
  cbn [app] in Hb. rewrite Hb.
  rewrite (float_number_comma h w' t Hh Hw'). reflexivity.
Qed.

(** X21: [_strip_properly_formatted_commas] removes one thousands
    separator, and two: [12,345] gives [12345] and [1,234,567] gives
    [1234567].  Of three separators it leaves the middle one,
    [1,234,567,890] giving [1234,567890]: the first pass takes the comma
    behind a group into the match of the group, so that every other comma is
    passed over, and in the next pass six digits follow the comma that is
    left.  Such a numeral is no integer for [_str_is_int].  A numeral of at
    most fifteen digits with one separator has the ExtendedNormalForm of the
    numeral without it, and is graded [true] against it. *)
Theorem X21_thousands_separators (E : Engine) (ds : pystr)
    (d a1 b1 c1 a2 b2 c2 a3 b3 c3 : ascii) :
  forallb isdigit (ds ++ [d; a1; b1; c1; a2; b2; c2; a3; b3; c3]) = true ->
  _strip_properly_formatted_commas (ds ++ [d] ++ L "," ++ [a1; b1; c1])
    = ds ++ [d; a1; b1; c1] /\
  _strip_properly_formatted_commas
    (ds ++ [d] ++ L "," ++ [a1; b1; c1] ++ L "," ++ [a2; b2; c2])
    = ds ++ [d; a1; b1; c1; a2; b2; c2] /\
  _strip_properly_formatted_commas
    (ds ++ [d] ++ L "," ++ [a1; b1; c1] ++ L "," ++ [a2; b2; c2]
        ++ L "," ++ [a3; b3; c3])
    = ds ++ [d; a1; b1; c1] ++ L "," ++ [a2; b2; c2; a3; b3; c3] /\
  _str_is_int
    (ds ++ [d] ++ L "," ++ [a1; b1; c1] ++ L "," ++ [a2; b2; c2]
        ++ L "," ++ [a3; b3; c3]) = false /\
  (length ds <= 11 ->
   _normalize E (Some (ds ++ [d] ++ L "," ++ [a1; b1; c1]))
     = _normalize E (Some (ds ++ [d; a1; b1; c1])) /\
   grade_answer E (Some (ds ++ [d] ++ L "," ++ [a1; b1; c1]))
     (ds ++ [d; a1; b1; c1]) = Ret true).
Proof.
  intros Hall. rewrite forallb_app in Hall. apply andb_true_iff in Hall.
  destruct Hall as [Hds Hrest]. cbn [forallb] in Hrest.
  repeat (apply andb_true_iff in Hrest;
          let H := fresh "Hd" in destruct Hrest as [H Hrest]).
  clear Hrest.
  rename Hd into Hd0, Hd0 into Ha1, Hd1 into Hb1, Hd2 into Hc1, Hd3 into Ha2,
    Hd4 into Hb2, Hd5 into Hc2, Hd6 into Ha3, Hd7 into Hb3, Hd8 into Hc3.
  assert (Hw : forallb isdigit (ds ++ [d; a1; b1; c1]) = true).
  { rewrite forallb_app, Hds. cbn [forallb]. rewrite Hd0, Ha1, Hb1, Hc1.
    reflexivity. }
  assert (Hw3 : forallb isdigit (ds ++ [d; a1; b1]) = true).
  { rewrite forallb_app, Hds. cbn [forallb]. rewrite Hd0, Ha1, Hb1.
    reflexivity. }
  assert (Hw7 : forallb isdigit (ds ++ [d; a1; b1; c1; a2; b2; c2]) = true).
  { rewrite forallb_app, Hds. cbn [forallb].
    rewrite Hd0, Ha1, Hb1, Hc1, Ha2, Hb2, Hc2. reflexivity. }
  (* one separator *)
  assert (Hone : _strip_properly_formatted_commas
                   (ds ++ [d] ++ L "," ++ [a1; b1; c1])
                 = ds ++ [d; a1; b1; c1]).
  { apply (comma_loop_result 2). cbn [comma_loop].
    rewrite !comma_pass_scan.
    change (ds ++ [d] ++ L "," ++ [a1; b1; c1])
      with (ds ++ d :: [","%char; a1; b1; c1]).
    rewrite comma_scan_digits by assumption.
    rewrite comma_scan_group_end by assumption.
    rewrite str_eqb_shorter by (rewrite !length_app; simpl; lia).
    rewrite (comma_scan_plain _ _ Hw), str_eqb_refl. reflexivity. }
  (* two separators *)
  assert (Htwo : _strip_properly_formatted_commas
                   (ds ++ [d] ++ L "," ++ [a1; b1; c1] ++ L "," ++ [a2; b2; c2])
                 = ds ++ [d; a1; b1; c1; a2; b2; c2]).
  { apply (comma_loop_result 3). cbn [comma_loop].
    rewrite !comma_pass_scan.
    change (ds ++ [d] ++ L "," ++ [a1; b1; c1] ++ L "," ++ [a2; b2; c2])
      with (ds ++ d :: ","%char :: a1 :: b1 :: c1 :: ","%char :: [a2; b2; c2]).
    rewrite comma_scan_digits by assumption.
    rewrite comma_scan_group_comma by assumption.
    rewrite (comma_scan_plain _ [a2; b2; c2])
      by (cbn [forallb]; rewrite Ha2, Hb2, Hc2; reflexivity).
    rewrite str_eqb_shorter by (rewrite !length_app; simpl; lia).
    replace (ds ++ [d; a1; b1; c1; ","%char] ++ [a2; b2; c2])
      with ((ds ++ [d; a1; b1]) ++ c1 :: [","%char; a2; b2; c2])
      by (rewrite <- app_assoc; reflexivity).
    rewrite comma_scan_digits by assumption.
    rewrite comma_scan_group_end by assumption.
    rewrite str_eqb_shorter by (rewrite !length_app; simpl; lia).
    replace ((ds ++ [d; a1; b1]) ++ [c1; a2; b2; c2])
      with (ds ++ [d; a1; b1; c1; a2; b2; c2])
      by (rewrite <- app_assoc; reflexivity).
    rewrite (comma_scan_plain _ _ Hw7), str_eqb_refl. reflexivity. }
  (* three separators *)
  assert (Hthree : _strip_properly_formatted_commas
                     (ds ++ [d] ++ L "," ++ [a1; b1; c1] ++ L ","
                         ++ [a2; b2; c2] ++ L "," ++ [a3; b3; c3])
                   = ds ++ [d; a1; b1; c1] ++ L ","
                        ++ [a2; b2; c2; a3; b3; c3]).
  { apply (comma_loop_result 2). cbn [comma_loop].
    rewrite !comma_pass_scan.
    change (ds ++ [d] ++ L "," ++ [a1; b1; c1] ++ L "," ++ [a2; b2; c2]
               ++ L "," ++ [a3; b3; c3])
      with (ds ++ d :: ","%char :: a1 :: b1 :: c1 :: ","%char
               :: ([a2; b2] ++ c2 :: [","%char; a3; b3; c3])).
    rewrite comma_scan_digits by assumption.
    rewrite comma_scan_group_comma by assumption.
    rewrite (comma_scan_digits _ [a2; b2])
      by (try assumption; cbn [forallb]; rewrite Ha2, Hb2; reflexivity).
    rewrite comma_scan_group_end by assumption.
    rewrite str_eqb_shorter by (rewrite !length_app; simpl; lia).
    replace (ds ++ [d; a1; b1; c1; ","%char] ++ [a2; b2] ++ [c2; a3; b3; c3])
      with ((ds ++ [d; a1; b1])
              ++ c1 :: ","%char :: a2 :: b2 :: c2 :: a3 :: [b3; c3])
      by (rewrite <- app_assoc; reflexivity).
    rewrite comma_scan_digits by assumption.
    rewrite comma_scan_group_digit by assumption.
    rewrite (comma_scan_plain _ [a2; b2; c2; a3; b3; c3])
      by (cbn [forallb]; rewrite Ha2, Hb2, Hc2, Ha3, Hb3, Hc3; reflexivity).
    rewrite str_eqb_refl. rewrite <- app_assoc. reflexivity. }
  split; [exact Hone|]. split; [exact Htwo|]. split; [exact Hthree|].
  assert (Hne : ds ++ [d; a1; b1; c1] <> [])
    by (intros Habs; apply app_eq_nil in Habs; destruct Habs; discriminate).
  split.
  - unfold _str_is_int. rewrite Hthree.
    rewrite app_assoc.
    rewrite py_float_comma; [reflexivity|exact Hne|exact Hw|].
    rewrite <- app_assoc.
    change (ds ++ [d; a1; b1; c1] ++ L "," ++ [a2; b2; c2; a3; b3; c3])
      with (ds ++ [d; a1; b1; c1; ","%char; a2; b2; c2; a3; b3] ++ [c3]).
    rewrite app_assoc, last_last. apply digit_facts, Hc3.
  - intros Hlen.
    set (w := ds ++ [d; a1; b1; c1]) in *.
    set (v := fold_left digit_step w 0%Z).
    assert (Hv : (0 <= v < 2 ^ 53)%Z).
    { destruct (fold_digits_bound w 0%Z Hw ltac:(lia)) as [H0 H1].
      fold v in H0, H1. split; [exact H0|].
      apply Z.lt_le_trans with ((0 + 1) * 10 ^ Z.of_nat (length w))%Z;
        [exact H1|].
      apply Z.le_trans with (10 ^ 15)%Z; [|vm_compute; discriminate].
      rewrite Z.add_0_l, Z.mul_1_l. apply Z.pow_le_mono_r; [lia|].
      unfold w. rewrite length_app. simpl. lia. }
    assert (Hx : py_float w = Ret (decimal_value v 0%Z)) by
      (apply py_float_digits; assumption).
    assert (Hex : exact (decimal_value v 0%Z) v) by
      (apply decimal_value_small, Hv).
    assert (Hwn : _normalize E (Some w) = Ret (Some (str_of_int v))).
    { destruct (numeral_settled w) as [Hcw Hfw].
      { intros c Hc. left. rewrite forallb_forall in Hw. apply Hw, Hc. }
      apply (_normalize_integer_value E w (decimal_value v 0%Z) v); auto.
      lia. }
    assert (Hchars : forall c, In c (ds ++ [d] ++ L "," ++ [a1; b1; c1]) ->
              isdigit c = true \/ c = "-"%char \/ c = "."%char \/ c = ","%char).
    { intros c Hc. rewrite forallb_forall in Hw.
      apply in_app_or in Hc. destruct Hc as [Hc|[Hc|[Hc|Hc]]].
      - left. apply Hw. apply in_or_app. left. exact Hc.
      - left. apply Hw. apply in_or_app. right. left. exact Hc.
      - right. right. right. symmetry. exact Hc.
      - left. apply Hw. apply in_or_app. right. right. exact Hc. }
    destruct (numeral_settled _ Hchars) as [Hclean Hfree].
    assert (Hfilter : filter not_comma (ds ++ [d] ++ L "," ++ [a1; b1; c1])
                      = w).
    { change (ds ++ [d] ++ L "," ++ [a1; b1; c1])
        with (ds ++ [d; ","%char; a1; b1; c1]).
      rewrite filter_app.
      rewrite (filter_not_comma_id ds) by (apply digits_no_comma, Hds).
      cbn [filter]. unfold not_comma.
      rewrite (digit_not_comma d Hd0), (digit_not_comma a1 Ha1),
        (digit_not_comma b1 Hb1), (digit_not_comma c1 Hc1).
      reflexivity. }
    assert (Hon : _normalize E (Some (ds ++ [d] ++ L "," ++ [a1; b1; c1]))
                  = Ret (Some (str_of_int v))).
    { unfold _normalize.
      rewrite (normalize_rewrite_id _ Hclean Hfree).
      assert (Hraise : py_float (ds ++ [d] ++ L "," ++ [a1; b1; c1]) = Raise).
      { destruct ds as [|h ds'].
        - apply (py_float_comma [d] [a1; b1; c1]);
            [discriminate|cbn [forallb]; rewrite Hd0; reflexivity|].
          cbn. apply digit_facts, Hc1.
        - replace ((h :: ds') ++ [d] ++ L "," ++ [a1; b1; c1])
            with (((h :: ds') ++ [d]) ++ L "," ++ [a1; b1; c1])
            by (rewrite <- app_assoc; reflexivity).
          apply py_float_comma.
          + discriminate.
          + rewrite forallb_app, Hds. cbn [forallb]. rewrite Hd0. reflexivity.
          + change (((h :: ds') ++ [d]) ++ L "," ++ [a1; b1; c1])
              with (((h :: ds') ++ [d]) ++ [","%char; a1; b1] ++ [c1]).
            rewrite app_assoc, last_last. apply digit_facts, Hc1. }
      unfold coerce_float, _is_float. rewrite Hraise. cbn [bind try_except].
      rewrite unlatex_id
        by (apply contains_chr, (trigger_free_spec _ Hfree (L "\"));
            left; reflexivity).
      rewrite (normalize_cleanup_id _ Hclean).
      unfold coerce_int, _str_is_int, _str_to_int.
      rewrite Hone, replace_comma, Hfilter. fold w. rewrite Hx. cbn [bind].
      rewrite (exact_near_integer _ v Hex). cbn [try_except].
      rewrite (exact_trunc _ v Hex). reflexivity. }
    split.
    + etransitivity; [exact Hon|]. symmetry. exact Hwn.
    + apply grade_answer_equal_forms.
      * intros Habs. apply app_eq_nil in Habs. destruct Habs as [_ Habs].
        discriminate Habs.
      * etransitivity; [exact Hon|]. symmetry. exact Hwn.
Qed.

Lemma X21_thousands_separators_witness :
  _strip_properly_formatted_commas (L "1,234,567,890") = L "1234,567890" /\
  _str_is_int (L "1,234,567,890") = false /\
  grade_answer failing_engine (Some (L "1,234")) (L "1234") = Ret true.
Proof.
  destruct (X21_thousands_separators failing_engine []
              "1" "2" "3" "4" "5" "6" "7" "8" "9" "0" eq_refl)
    as (_ & _ & H3 & H4 & H5).
  split; [exact H3|]. split; [exact H4|].
  apply H5. simpl. lia.
Defined.
